(** * CareerCompass AI: the analysis orchestration core

    A shallow embedding of the service layer of the application
    (the variant of [services/geminiService.ts] that carries the retry
    wrapper, the sequential staging and the interview functions):

    - the reference parser [parseGithubInput],
    - the artifact fetcher [fetchGithubFileContent] / [fetchGithubRepoData],
    - the retry-wrapped model invoker [generateContentWithRetry],
    - the per-artifact analyzer [analyzeGithubReposWithAPI],
    - the resume segment analyzer [analyzeResumeHighlights],
    - the primary synthesis analyzer [analyzeProfile],
    - the portfolio generator and the interview turn functions.

    Conventions of the embedding:

    - a string is the sequence of its UTF-16 code units, a number is an
      IEEE 754 binary64 value, an untyped value is a [JValue];
    - the regular expressions of the source are written as data and run
      by a backtracking matcher;
    - asynchronous code is sequential between its [await]s: it is
      modelled in a monad that threads a log of the external events
      (model calls, HTTP requests, timer waits) and carries a completion
      (a normal value or a thrown error);
    - the outside world (the generation capability, the code-hosting
      API) and the built-ins of the host ([JSON.parse], [atob], the
      printing of numbers) are parameters of the functions; a reference
      host and example services instantiate them for the concrete runs;
    - a request to the model is its model id, its schema and tools, and
      the template of its prompt together with the interpolated values;
    - console output and the construction of the API client are not
      modelled. *)

From Stdlib Require Import List ZArith NArith Bool Lia String Ascii Arith.
From Stdlib Require Import SpecFloat.
Import ListNotations.

Set Implicit Arguments.

(* ===================================================================== *)
(** * JavaScript strings and the string built-ins the service uses        *)
(* ===================================================================== *)

Module JS.

(** A string is the list of its UTF-16 code units. *)
Definition jsstring := list N.

(** An ASCII literal as a JavaScript string. *)
Definition js (s : string) : jsstring :=
  List.map N_of_ascii (list_ascii_of_string s).

Fixpoint str_eqb (a b : jsstring) : bool :=
  match a, b with
  | [], [] => true
  | x :: a', y :: b' => N.eqb x y && str_eqb a' b'
  | _, _ => false
  end.

(** [!s]: the empty string is the only falsy string. *)
Definition is_empty (s : jsstring) : bool :=
  match s with
  | [] => true
  | _ :: _ => false
  end.

(** [s.startsWith(p)] *)
Fixpoint startsWith (s p : jsstring) : bool :=
  match p, s with
  | [], _ => true
  | c :: p', d :: s' => N.eqb c d && startsWith s' p'
  | _ :: _, [] => false
  end.

(** [s.includes(p)] *)
Fixpoint includes (s p : jsstring) : bool :=
  startsWith s p ||
  match s with
  | [] => false
  | _ :: s' => includes s' p
  end.

(** [s.length] *)
Definition str_length (s : jsstring) : Z := Z.of_nat (List.length s).

(** [s.slice(0, n)] for [0 <= n]. *)
Definition slice0 (n : Z) (s : jsstring) : jsstring := firstn (Z.to_nat n) s.

(** White space and line terminators: the class [\s] of regular
    expressions, which is also what [trim] strips. *)
Definition is_space (c : N) : bool :=
  ((9 <=? c) && (c <=? 13) || (c =? 32) || (c =? 160) || (c =? 5760)
   || ((8192 <=? c) && (c <=? 8202)) || (c =? 8232) || (c =? 8233)
   || (c =? 8239) || (c =? 8287) || (c =? 12288) || (c =? 65279))%N.

Fixpoint trimStart (s : jsstring) : jsstring :=
  match s with
  | c :: s' => if is_space c then trimStart s' else s
  | [] => []
  end.

Definition trimEnd (s : jsstring) : jsstring := rev (trimStart (rev s)).

(** [s.trim()] *)
Definition trim (s : jsstring) : jsstring := trimEnd (trimStart s).

(** [drop_prefix p s] is the rest of [s] after its prefix [p]. *)
Fixpoint drop_prefix (p s : jsstring) : option jsstring :=
  match p, s with
  | [], _ => Some s
  | c :: p', d :: s' => if N.eqb c d then drop_prefix p' s' else None
  | _ :: _, [] => None
  end.

(** ** Regular expressions

    The fragment of ECMAScript regular expressions the service writes:
    literals, the assertions [^] and [$] (no [m] flag), greedy bounded
    repetition of a character class, sequence, ordered alternation and
    numbered capturing groups.  Matching is the backtracking matcher of
    the language definition, in continuation-passing style: a matcher
    receives the index and the rest of the input and the captures so far,
    and a continuation that decides whether the rest of the pattern
    matches from the state it is given. *)

Inductive regex : Type :=
| Lit (l : jsstring)
| Bol
| Eol
| CharSet (p : N -> bool) (min : nat) (max : option nat)
| Seq (a b : regex)
| Alt (a b : regex)
| Group (n : nat) (a : regex).

Definition captures := list (nat * jsstring).

Section Matcher.
Variable R : Type.

Definition cont := nat -> jsstring -> captures -> option R.

Definition or_else (a b : option R) : option R :=
  match a with
  | Some r => Some r
  | None => b
  end.

(** [[..]{min,max}], greedy: one more character is tried first. *)
Fixpoint rep_class (p : N -> bool) (min : nat) (max : option nat)
         (pos : nat) (s : jsstring) (caps : captures) (k : cont)
         {struct s} : option R :=
  let stop := match min with
              | O => k pos s caps
              | S _ => None
              end in
  match s with
  | c :: s' =>
      if p c && match max with
                | Some O => false
                | _ => true
                end
      then or_else
             (rep_class p (Nat.pred min) (option_map Nat.pred max)
                        (S pos) s' caps k)
             stop
      else stop
  | [] => stop
  end.

Fixpoint rmatch (r : regex) (pos : nat) (s : jsstring) (caps : captures)
         (k : cont) {struct r} : option R :=
  match r with
  | Lit l =>
      match drop_prefix l s with
      | Some s' => k (pos + List.length l) s' caps
      | None => None
      end
  | Bol => if Nat.eqb pos 0 then k pos s caps else None
  | Eol =>
      match s with
      | [] => k pos s caps
      | _ :: _ => None
      end
  | CharSet p min max => rep_class p min max pos s caps k
  | Seq a b =>
      rmatch a pos s caps (fun pos' s' caps' => rmatch b pos' s' caps' k)
  | Alt a b => or_else (rmatch a pos s caps k) (rmatch b pos s caps k)
  | Group n a =>
      rmatch a pos s caps
             (fun pos' s' caps' =>
                k pos' s' ((n, firstn (pos' - pos) s) :: caps'))
  end.
End Matcher.

(** A match: start index, end index, captures. *)
Record rmatch_result := { m_start : nat; m_end : nat; m_caps : captures }.

Definition match_at (r : regex) (pos : nat) (s : jsstring)
  : option rmatch_result :=
  rmatch r pos s []
         (fun e _ caps => Some {| m_start := pos; m_end := e; m_caps := caps |}).

(** The leftmost match in [s], whose first character has index [pos]. *)
Fixpoint search_from (r : regex) (pos : nat) (s : jsstring)
  : option rmatch_result :=
  match match_at r pos s with
  | Some m => Some m
  | None =>
      match s with
      | [] => None
      | _ :: s' => search_from r (S pos) s'
      end
  end.

(** [s.match(r)] for a regular expression without the [g] flag. *)
Definition exec (r : regex) (s : jsstring) : option rmatch_result :=
  search_from r 0 s.

Fixpoint capture (n : nat) (caps : captures) : jsstring :=
  match caps with
  | [] => []
  | (m, v) :: caps' => if Nat.eqb n m then v else capture n caps'
  end.

(** [s.replace(r, '')] for a regular expression without the [g] flag. *)
Definition replace_empty (r : regex) (s : jsstring) : jsstring :=
  match exec r s with
  | Some m => firstn (m_start m) s ++ skipn (m_end m) s
  | None => s
  end.

(** [s.split(r)].  [cur] is the piece being read, reversed; [skip] counts
    the characters of a separator still to be passed over. *)
Fixpoint split_loop (r : regex) (pos : nat) (s : jsstring) (cur : jsstring)
         (skip : nat) {struct s} : list jsstring :=
  match s with
  | [] => [rev cur]
  | c :: s' =>
      match skip with
      | S n => split_loop r (S pos) s' [] n
      | O =>
          match match_at r pos s with
          | Some m =>
              if Nat.eqb (m_end m) pos
              then match cur with
                   | [] => split_loop r (S pos) s' [c] 0
                   | _ :: _ => rev cur :: split_loop r (S pos) s' [c] 0
                   end
              else rev cur :: split_loop r (S pos) s' [] (m_end m - pos - 1)
          | None => split_loop r (S pos) s' (c :: cur) 0
          end
      end
  end.

Definition split (r : regex) (s : jsstring) : list jsstring :=
  match s with
  | [] =>
      match match_at r 0 [] with
      | Some _ => []
      | None => [[]]
      end
  | _ :: _ => split_loop r 0 s [] 0
  end.

(** [Array.prototype.join] *)
Fixpoint join (sep : jsstring) (l : list jsstring) : jsstring :=
  match l with
  | [] => []
  | [x] => x
  | x :: l' => x ++ sep ++ join sep l'
  end.

(** Decimal digits of a natural number, as [Number.prototype.toString]
    prints an integer below 1e21. *)
Fixpoint digits_fuel (fuel : nat) (n : N) (acc : jsstring) : jsstring :=
  match fuel with
  | O => acc
  | S f =>
      let acc' := (48 + N.modulo n 10)%N :: acc in
      if (n <? 10)%N then acc' else digits_fuel f (N.div n 10) acc'
  end.

Definition N_to_string (n : N) : jsstring :=
  digits_fuel (S (N.to_nat (N.log2 n))) n [].

End JS.
Import JS.

Declare Scope js_scope.
Delimit Scope js_scope with js.
Bind Scope js_scope with jsstring.
Notation "a +++ b" := (@app N a b) (at level 60, right associativity) : js_scope.
Local Open Scope js_scope.

(* ===================================================================== *)
(** * GitHub REST API integration: the reference parser                   *)
(* ===================================================================== *)

Module Github.

Definition is_digit (c : N) : bool := ((48 <=? c) && (c <=? 57))%N.
Definition is_upper (c : N) : bool := ((65 <=? c) && (c <=? 90))%N.
Definition is_lower (c : N) : bool := ((97 <=? c) && (c <=? 122))%N.
Definition is_alnum (c : N) : bool := is_lower c || is_upper c || is_digit c.

(** [[\s,]] *)
Definition is_separator (c : N) : bool := is_space c || (c =? 44)%N.
(** [[a-zA-Z0-9-]] *)
Definition is_owner_char (c : N) : bool := is_alnum c || (c =? 45)%N.
(** [[a-zA-Z0-9-_\.]]: after the range [0-9] the hyphen is a literal. *)
Definition is_repo_char (c : N) : bool :=
  is_alnum c || (c =? 45)%N || (c =? 95)%N || (c =? 46)%N.

(** [/[\s,]+/] *)
Definition separators_re : regex := CharSet is_separator 1 None.

(** [/\/$/] *)
Definition trailing_slash_re : regex := Seq (Lit (js "/")) Eol.

(** [/(?:github\.com\/|^)([a-zA-Z0-9-]{1,39})\/([a-zA-Z0-9-_\.]+)/] *)
Definition repo_re : regex :=
  Seq (Alt (Lit (js "github.com/")) Bol)
      (Seq (Group 1 (CharSet is_owner_char 1 (Some 39)))
           (Seq (Lit (js "/"))
                (Group 2 (CharSet is_repo_char 1 None)))).

Record RepoReference := {
  owner : jsstring;
  repo : jsstring;
  url : jsstring
}.

(** The body of [rawLinks.forEach]: what one link pushes onto [repos]. *)
Definition parse_link (link : jsstring) : list RepoReference :=
  let clean := trim link in
  let clean := replace_empty trailing_slash_re clean in
  match exec repo_re clean with
  | Some m =>
      let m1 := capture 1 (m_caps m) in
      let m2 := capture 2 (m_caps m) in
      if negb (is_empty m1) && negb (is_empty m2)
      then [ {| owner := m1;
                repo := m2;
                url := js "https://github.com/" +++ m1 +++ js "/" +++ m2 |} ]
      else []
  | None => []
  end.

(** [Map.prototype.set]: a new key goes last, a present key keeps its
    place and takes the new value. *)
Fixpoint map_set (k : jsstring) (v : RepoReference)
         (m : list (jsstring * RepoReference)) : list (jsstring * RepoReference) :=
  match m with
  | [] => [(k, v)]
  | (k', v') :: m' =>
      if str_eqb k k' then (k', v) :: m' else (k', v') :: map_set k v m'
  end.

Definition parseGithubInput (input : jsstring) : list RepoReference :=
  let rawLinks := filter (fun t => negb (is_empty t)) (split separators_re input) in
  let repos := flat_map parse_link rawLinks in
  let unique := fold_left (fun m r => map_set (url r) r m) repos [] in
  List.map snd unique.

End Github.

(* ===================================================================== *)
(** * Numbers and untyped values                                          *)
(* ===================================================================== *)

Module JSValue.

(** Numbers are IEEE 754 binary64 values. *)
Definition prec : Z := 53.
Definition emax : Z := 1024.

Definition double := spec_float.
Definition double_of_N (n : N) : double :=
  binary_normalize prec emax (Z.of_N n) 0 false.
Definition double_add : double -> double -> double := SFadd prec emax.
Definition double_mul : double -> double -> double := SFmul prec emax.
Definition double_div : double -> double -> double := SFdiv prec emax.

(** The integer values [Math.round] can return, besides NaN and the
    infinities. *)
Inductive rounded : Type :=
| RNaN
| RInfinity (negative : bool)
| RInt (z : Z).

(** [Math.round(x)]: the integer nearest to [x], a half rounding up;
    for a finite [x = m * 2^e] this is [floor ((2 m 2^e + 1) / 2)]. *)
Definition Math_round (x : double) : rounded :=
  match x with
  | S754_nan => RNaN
  | S754_infinity s => RInfinity s
  | S754_zero _ => RInt 0
  | S754_finite s m e =>
      let n := if s then Z.neg m else Z.pos m in
      if (0 <=? e)%Z
      then RInt (n * 2 ^ e)
      else RInt ((2 * n + 2 ^ (- e)) / (2 * 2 ^ (- e)))
  end.

(** How a template literal prints such a value (the decimal form holds
    below 1e21). *)
Definition rounded_to_string (r : rounded) : jsstring :=
  match r with
  | RNaN => js "NaN"
  | RInfinity false => js "Infinity"
  | RInfinity true => js "-Infinity"
  | RInt z =>
      if (z <? 0)%Z then js "-" +++ N_to_string (Z.to_N (- z))
      else N_to_string (Z.to_N z)
  end.

(** Values as [JSON.parse] builds them; an array also carries the named
    properties assigned to it afterwards. *)
#[warnings="-register-all"]
Inductive JValue : Type :=
| JUndefined
| JNull
| JBool (b : bool)
| JNum (x : double)
| JStr (s : jsstring)
| JArr (elems : list JValue) (props : list (jsstring * JValue))
| JObj (props : list (jsstring * JValue)).

Definition is_zero_or_nan (x : double) : bool :=
  match x with
  | S754_zero _ | S754_nan => true
  | _ => false
  end.

(** Truthiness, as [if (v)], [!v] and [v || w] test it. *)
Definition truthy (v : JValue) : bool :=
  match v with
  | JUndefined | JNull => false
  | JBool b => b
  | JNum x => negb (is_zero_or_nan x)
  | JStr s => negb (is_empty s)
  | JArr _ _ | JObj _ => true
  end.

Fixpoint lookup (k : jsstring) (props : list (jsstring * JValue))
  : option JValue :=
  match props with
  | [] => None
  | (k', v) :: props' => if str_eqb k k' then Some v else lookup k props'
  end.

(** Property assignment on an ordinary object: a present key keeps its
    place, a new key goes last. *)
Fixpoint assign (k : jsstring) (v : JValue) (props : list (jsstring * JValue))
  : list (jsstring * JValue) :=
  match props with
  | [] => [(k, v)]
  | (k', v') :: props' =>
      if str_eqb k k' then (k', v) :: props' else (k', v') :: assign k v props'
  end.

Definition has_field (k : jsstring) (v : JValue) : bool :=
  match v with
  | JObj props | JArr _ props =>
      match lookup k props with
      | Some _ => true
      | None => false
      end
  | _ => false
  end.

End JSValue.
Import JSValue.

(* ===================================================================== *)
(** * Errors, the host platform and the external services                 *)
(* ===================================================================== *)

Module Host.

(** What the retry wrapper reads of a thrown error: [error.status],
    [error.code], [error.message] and [JSON.stringify(error)]. *)
Record JsError := {
  err_status : option Z;
  err_code : option Z;
  err_message : jsstring;
  err_json : jsstring
}.

(** [new Error(msg)] *)
Definition Error (msg : jsstring) : JsError :=
  {| err_status := None; err_code := None; err_message := msg;
     err_json := js "{}" |}.

(** The errors the language itself raises. *)
Definition TypeError : JsError := Error (js "TypeError").
Definition SyntaxError : JsError := Error (js "SyntaxError").

(** A completion is a value or a thrown error. *)
Inductive completion (A : Type) : Type :=
| Normal (a : A)
| Thrown (e : JsError).
Arguments Normal {A} a.
Arguments Thrown {A} e.

(** The built-ins whose definition is the host's, not the service's. *)
Record Platform := {
  JSON_parse : jsstring -> option JValue;      (* [None]: SyntaxError *)
  atob : jsstring -> option jsstring;          (* [None]: InvalidCharacterError *)
  Number_toString : double -> jsstring
}.

Section Builtins.
Variable P : Platform.

(** [String(v)], as a template literal applies it. *)
Fixpoint ToString (v : JValue) : jsstring :=
  match v with
  | JUndefined => js "undefined"
  | JNull => js "null"
  | JBool true => js "true"
  | JBool false => js "false"
  | JNum x => Number_toString P x
  | JStr s => s
  | JArr elems _ =>
      (fix join (l : list JValue) : jsstring :=
         match l with
         | [] => []
         | x :: l' =>
             let element := match x with
                            | JUndefined | JNull => []
                            | _ => ToString x
                            end in
             match l' with
             | [] => element
             | _ :: _ => element +++ js "," +++ join l'
             end
         end) elems
  | JObj _ => js "[object Object]"
  end.

(** [a.join(sep)] on the elements of an array. *)
Definition join_elements (sep : jsstring) (elems : list JValue) : jsstring :=
  join sep
       (List.map (fun x => match x with
                           | JUndefined | JNull => []
                           | _ => ToString x
                           end) elems).
End Builtins.

(** [v[k]] for the property names the service reads (none of them is an
    index, [length] or a member of a built-in prototype): reading a
    property of [undefined] or [null] throws, a missing property is
    [undefined]. *)
Definition get (v : JValue) (k : jsstring) : completion JValue :=
  match v with
  | JUndefined | JNull => Thrown TypeError
  | JObj props | JArr _ props =>
      Normal match lookup k props with
             | Some x => x
             | None => JUndefined
             end
  | JBool _ | JNum _ | JStr _ => Normal JUndefined
  end.

(** [v[k] = x] in strict code: only objects take properties. *)
Definition set (v : JValue) (k : jsstring) (x : JValue) : completion JValue :=
  match v with
  | JObj props => Normal (JObj (assign k x props))
  | JArr elems props => Normal (JArr elems (assign k x props))
  | _ => Thrown TypeError
  end.

End Host.
Import Host.

(* ===================================================================== *)
(** * The external services and the effects of the service layer          *)
(* ===================================================================== *)

Module Effects.

(** ** The hosted generation capability *)

Inductive Schema : Type :=
| GITHUB_DEEP_ANALYSIS_SCHEMA
| RESUME_HIGHLIGHTS_SCHEMA
| ANALYSIS_SCHEMA
| INTERVIEW_TOPICS_SCHEMA
| INTERVIEW_QUESTION_SCHEMA
| INTERVIEW_EVALUATION_SCHEMA.

(** A prompt is its template together with the values interpolated
    into it. *)
Inductive Prompt : Type :=
| RepoAnalysisPrompt (repo_name files_bundle : jsstring)
| ResumeHighlightsPrompt
| MainPrompt (jdText githubSummaryText : jsstring)
| PortfolioPrompt (candidateProfile preferences : JValue)
| TopicsPrompt (role : jsstring)
| QuestionPrompt (role topic : jsstring)
| PlainText (text : jsstring)
| TranscribePrompt
| EvaluationPrompt (question_text keywords transcript : jsstring).

Record InlineData := { data : jsstring; mimeType : jsstring }.

Inductive Part : Type :=
| InlinePart (d : InlineData)
| TextPart (p : Prompt).

(** The argument of [ai.models.generateContent]. *)
Record Request := {
  model : jsstring;
  parts : list Part;
  responseSchema : option Schema;
  googleSearch : bool;
  audioModality : bool
}.

(** What the service reads of a response: [response.text] and the inline
    data of the first part of the first candidate. *)
Record Response := {
  text : option jsstring;
  inlineData : option jsstring
}.

(** ** The code-hosting REST API *)

Inductive Http (A : Type) : Type :=
| HttpThrows (e : JsError)     (* [fetch] or [res.json()] rejects *)
| HttpNotOk                    (* [res.ok] is false *)
| HttpOk (body : A).
Arguments HttpThrows {A} e.
Arguments HttpNotOk {A}.
Arguments HttpOk {A} body.

Record RepoMeta := { meta_name : jsstring; meta_html_url : jsstring }.

(** A directory entry of [GET /repos/{owner}/{repo}/contents]. *)
Record DirEntry := {
  entry_type : jsstring;
  entry_name : jsstring;
  entry_path : jsstring
}.

(** The content envelope of a file: [data.content], [data.encoding]. *)
Record FileEnvelope := {
  env_content : option jsstring;
  env_encoding : option jsstring
}.

(** The answers of the outside world.  The [k]-th call of the generation
    capability in a run answers [generateContent k request]; the language
    mapping is given by the entries [Object.entries] enumerates. *)
Record Services := {
  generateContent : nat -> Request -> completion Response;
  get_repo : jsstring -> jsstring -> Http RepoMeta;
  get_languages : jsstring -> jsstring -> Http (list (jsstring * N));
  get_contents : jsstring -> jsstring -> Http (list DirEntry);
  get_file : jsstring -> jsstring -> jsstring -> Http FileEnvelope
}.

(** ** Events, worlds and the monad *)

Inductive Event : Type :=
| EvFetch (url : jsstring)
| EvGenerate (req : Request)
| EvWait (ms : Z).

(** The number of generation calls made so far and the events so far,
    oldest first. *)
Record World := { gen_calls : nat; trace : list Event }.

Definition initial_world : World := {| gen_calls := 0; trace := [] |}.

Definition M (A : Type) : Type := World -> completion A * World.

Definition ret {A} (a : A) : M A := fun w => (Normal a, w).

Definition throw {A} (e : JsError) : M A := fun w => (Thrown e, w).

Definition bind {A B} (c : M A) (f : A -> M B) : M B :=
  fun w =>
    match c w with
    | (Normal a, w') => f a w'
    | (Thrown e, w') => (Thrown e, w')
    end.

(** [try { c } catch (e) { h e }] *)
Definition try_catch {A} (c : M A) (h : JsError -> M A) : M A :=
  fun w =>
    match c w with
    | (Normal a, w') => (Normal a, w')
    | (Thrown e, w') => h e w'
    end.

Definition emit (ev : Event) : M unit :=
  fun w => (Normal tt, {| gen_calls := gen_calls w; trace := trace w ++ [ev] |}).

(** [await wait(ms)] *)
Definition wait (ms : Z) : M unit := emit (EvWait ms).

(** [await ai.models.generateContent(params)] *)
Definition call_model (svc : Services) (req : Request) : M Response :=
  fun w =>
    (generateContent svc (gen_calls w) req,
     {| gen_calls := S (gen_calls w);
        trace := trace w ++ [EvGenerate req] |}).

(** [await fetch(url)] followed by the reading of its answer. *)
Definition fetch {A} (url : jsstring) (answer : Http A) : M (Http A) :=
  bind (emit (EvFetch url)) (fun _ => ret answer).

End Effects.
Import Effects.

Declare Scope monad_scope.
Delimit Scope monad_scope with monad.
Notation "x <- c ;; k" := (bind c (fun x => k))
  (at level 61, c at next level, right associativity) : monad_scope.
Notation "c ;;; k" := (bind c (fun _ => k))
  (at level 61, right associativity) : monad_scope.
Local Open Scope monad_scope.

(* ===================================================================== *)
(** * The retry-wrapped model invoker                                     *)
(* ===================================================================== *)

Module Retry.

Definition is_429 (v : option Z) : bool :=
  match v with
  | Some n => (n =? 429)%Z
  | None => false
  end.

(** The test of the [catch] block. *)
Definition isQuotaError (error : JsError) : bool :=
  let message := if is_empty (err_message error)
                 then err_json error
                 else err_message error in
  is_429 (err_status error)
  || is_429 (err_code error)
  || includes message (js "429")
  || includes message (js "quota")
  || includes message (js "RESOURCE_EXHAUSTED").

Definition max_retries_error : JsError :=
  Error (js "Max retries exceeded for Gemini API").

Section Wrapper.
Variable svc : Services.
Variable params : Request.
Variable retries : nat.
Variable initialDelay : Z.

(** The [for] loop at iteration [i]; [remaining] is [retries - i], the
    number of iterations the loop condition [i < retries] still admits. *)
Fixpoint retry_loop (remaining : nat) (i : nat) : M Response :=
  match remaining with
  | O => throw max_retries_error
  | S remaining' =>
      try_catch
        (call_model svc params)
        (fun error =>
           if isQuotaError error && (Z.of_nat i <? Z.of_nat retries - 1)%Z
           then
             let waitTime := (initialDelay * 2 ^ Z.of_nat i)%Z in
             wait waitTime ;;;
             retry_loop remaining' (S i)
           else throw error)
  end.

Definition generateContentWithRetry : M Response :=
  retry_loop retries 0.
End Wrapper.

(** The default arguments [retries = 3, initialDelay = 2000]. *)
Definition generateContentWithRetry_default (svc : Services) (params : Request)
  : M Response :=
  generateContentWithRetry svc params 3 2000.

End Retry.
Import Retry.

(* ===================================================================== *)
(** * The artifact fetcher                                                *)
(* ===================================================================== *)

Module Fetcher.

Definition newline : jsstring := [10%N].

Definition api_root : jsstring := js "https://api.github.com/repos/".

Section Fetch.
Variable P : Platform.
Variable svc : Services.

Definition fetchGithubFileContent (owner repo path : jsstring)
  : M (option jsstring) :=
  try_catch
    (res <- fetch (api_root +++ owner +++ js "/" +++ repo
                     +++ js "/contents/" +++ path)
                  (get_file svc owner repo path) ;;
     match res with
     | HttpThrows e => throw e
     | HttpNotOk => ret None
     | HttpOk data =>
         match env_content data, env_encoding data with
         | Some content, Some encoding =>
             if negb (is_empty content)
                && str_eqb encoding (js "base64")
             then match atob P content with
                  | Some decoded => ret (Some decoded)
                  | None => throw (Error (js "InvalidCharacterError"))
                  end
             else ret None
         | _, _ => ret None
         end
     end)
    (fun _ => ret None).
End Fetch.

(** ** The language summary *)

Definition percent (bytes total : double) : jsstring :=
  rounded_to_string
    (Math_round (double_mul (double_div bytes total) (double_of_N 100))).

Definition language_total (langs : list (jsstring * N)) : double :=
  fold_left (fun a b => double_add a (double_of_N b)) (List.map snd langs)
            (double_of_N 0).

Definition language_entry (total : double) (e : jsstring * N) : jsstring :=
  fst e +++ js " " +++ percent (double_of_N (snd e)) total +++ js "%".

Definition langSummary (langs : list (jsstring * N)) : jsstring :=
  let total := language_total langs in
  join (js ", ") (firstn 5 (List.map (language_entry total) langs)).

(** ** The selection of the files *)

Definition interestingFiles : list jsstring :=
  List.map js
    [ "README.md"; "package.json"; "requirements.txt"; "pyproject.toml";
      "main.py"; "app.py"; "server.js"; "index.js"; "App.tsx"; "index.html";
      "go.mod"; "Cargo.toml" ]%string.

Definition is_found (item : DirEntry) : bool :=
  str_eqb (entry_type item) (js "file")
  && existsb (str_eqb (entry_name item)) interestingFiles.

Definition score (name : jsstring) : Z :=
  if startsWith name (js "README") then 0
  else if includes name (js "json") || includes name (js "txt") then 1
  else 2.

(** The comparator handed to [sort]. *)
Definition compare_files (a b : DirEntry) : Z :=
  let aScore := score (entry_name a) in
  let bScore := score (entry_name b) in
  (aScore - bScore)%Z.

(** [Array.prototype.sort] is stable: an element goes before the first
    one the comparator does not place it after. *)
Section Sort.
Variable A : Type.
Variable cmp : A -> A -> Z.

Fixpoint insert_sorted (x : A) (l : list A) : list A :=
  match l with
  | [] => [x]
  | y :: l' => if (cmp x y <=? 0)%Z then x :: l else y :: insert_sorted x l'
  end.

Fixpoint sort (l : list A) : list A :=
  match l with
  | [] => []
  | x :: l' => insert_sorted x (sort l')
  end.
End Sort.

Definition targetFiles (contents : list DirEntry) : list DirEntry :=
  let foundFiles := filter is_found contents in
  firstn 4 (sort compare_files foundFiles).

(** ** Truncation and the bundle *)

Definition truncation_marker : jsstring := newline +++ js "...(truncated)...".

Definition truncated (content : jsstring) : jsstring :=
  if (8000 <? str_length content)%Z
  then slice0 8000 content +++ truncation_marker
  else content.

(** One [FILE:] block of the bundle. *)
Definition file_block (path content : jsstring) : jsstring :=
  js "FILE: " +++ path +++ newline +++ truncated content +++ newline +++ newline.

Record ArtifactBundle := {
  repo_name : jsstring;
  repo_url : jsstring;
  language_summary : jsstring;
  files_bundle : jsstring
}.

Section FetchRepo.
Variable P : Platform.
Variable svc : Services.

(** The [for (const file of targetFiles)] loop; it returns the blocks
    it appended to [filesBundle], in order. *)
Fixpoint fetch_blocks (owner repo : jsstring) (files : list DirEntry)
  : M (list jsstring) :=
  match files with
  | [] => ret []
  | file :: rest =>
      content <- fetchGithubFileContent P svc owner repo (entry_path file) ;;
      blocks <- fetch_blocks owner repo rest ;;
      match content with
      | Some c =>
          if negb (is_empty c)
          then ret (file_block (entry_path file) c :: blocks)
          else ret blocks
      | None => ret blocks
      end
  end.

Definition api_repo (owner repo : jsstring) : jsstring :=
  api_root +++ owner +++ js "/" +++ repo.

Definition fetchGithubRepoData (owner repo : jsstring)
  : M (option ArtifactBundle) :=
  try_catch
    (metaRes <- fetch (api_repo owner repo) (get_repo svc owner repo) ;;
     match metaRes with
     | HttpThrows e => throw e
     | HttpNotOk => ret None
     | HttpOk meta =>
         langRes <- fetch (api_repo owner repo +++ js "/languages")
                          (get_languages svc owner repo) ;;
         langSummary <- match langRes with
                        | HttpThrows e => throw e
                        | HttpNotOk => ret []
                        | HttpOk langs => ret (langSummary langs)
                        end ;;
         contentsRes <- fetch (api_repo owner repo +++ js "/contents")
                              (get_contents svc owner repo) ;;
         blocks <- match contentsRes with
                   | HttpThrows e => throw e
                   | HttpNotOk => ret []
                   | HttpOk contents =>
                       fetch_blocks owner repo (targetFiles contents)
                   end ;;
         ret (Some {| repo_name := meta_name meta;
                      repo_url := meta_html_url meta;
                      language_summary := langSummary;
                      files_bundle := List.concat blocks |})
     end)
    (fun _ => ret None).
End FetchRepo.

End Fetcher.
Import Fetcher.

(* ===================================================================== *)
(** * The analysis pipeline                                               *)
(* ===================================================================== *)

Module Pipeline.

(** A pure completion inside the monad. *)
Definition lift {A} (c : completion A) : M A :=
  match c with
  | Normal a => ret a
  | Thrown e => throw e
  end.

Definition fence_json_re : regex :=
  Seq Bol (Seq (Lit (js "```json")) (CharSet is_space 0 None)).
Definition fence_html_re : regex :=
  Seq Bol (Seq (Lit (js "```html")) (CharSet is_space 0 None)).
Definition fence_open_re : regex :=
  Seq Bol (Seq (Lit (js "```")) (CharSet is_space 0 None)).
Definition fence_close_re : regex := Seq (Lit (js "```")) Eol.

(** Clean JSON string from Markdown code blocks. *)
Definition cleanJson (text : jsstring) : jsstring :=
  if is_empty text then []
  else trim (replace_empty fence_close_re
               (replace_empty fence_open_re
                  (replace_empty fence_json_re text))).

Definition cleanHtml (text : jsstring) : jsstring :=
  if is_empty text then []
  else trim (replace_empty fence_close_re
               (replace_empty fence_open_re
                  (replace_empty fence_html_re text))).

(** [response.text || fallback] *)
Definition text_or (fallback : jsstring) (response : Response) : jsstring :=
  match text response with
  | Some t => if is_empty t then fallback else t
  | None => fallback
  end.

(** A file handed over by the browser: the base64 payload its reader
    yields ([None] when reading fails) and its MIME type. *)
Record File := { file_base64 : option jsstring; file_type : jsstring }.

Definition read_error : JsError := Error (js "NotReadableError").

(** Convert File to base64 for the Gemini API. *)
Definition fileToGenerativePart (file : File) : M InlineData :=
  match file_base64 file with
  | Some base64Data => ret {| data := base64Data; mimeType := file_type file |}
  | None => throw read_error
  end.

Record GithubProject := {
  name : JValue;
  summary : jsstring;
  tech_stack : JValue;
  complexity_rating : JValue;
  resume_bullets : JValue;
  improvement_suggestions : JValue
}.

Definition project_value (p : GithubProject) : JValue :=
  JObj [ (js "name", name p);
         (js "summary", JStr (summary p));
         (js "tech_stack", tech_stack p);
         (js "complexity_rating", complexity_rating p);
         (js "resume_bullets", resume_bullets p);
         (js "improvement_suggestions", improvement_suggestions p) ].

Definition json_request (m : jsstring) (ps : list Part) (schema : Schema)
  : Request :=
  {| model := m; parts := ps; responseSchema := Some schema;
     googleSearch := false; audioModality := false |}.

Section Analysis.
Variable P : Platform.
Variable svc : Services.

Definition parse_json (cleanedText : jsstring) : M JValue :=
  match JSON_parse P cleanedText with
  | Some v => ret v
  | None => throw SyntaxError
  end.

(** ** The per-artifact analyzer *)

Definition repo_request (repoData : ArtifactBundle) : Request :=
  json_request (js "gemini-2.5-flash")
    [TextPart (RepoAnalysisPrompt (repo_name repoData) (files_bundle repoData))]
    GITHUB_DEEP_ANALYSIS_SCHEMA.

(** The object pushed onto [results]. *)
Definition project_of_raw (raw : JValue) : completion GithubProject :=
  match get raw (js "project_name"), get raw (js "project_type"),
        get raw (js "short_description"), get raw (js "tech_stack"),
        get raw (js "complexity_rating"),
        get raw (js "recommended_resume_bullets"),
        get raw (js "improvement_suggestions") with
  | Normal pname, Normal ptype, Normal descr, Normal stack, Normal rating,
    Normal bullets, Normal suggestions =>
      Normal {| name := pname;
                summary := ToString P ptype +++ js ": " +++ ToString P descr;
                tech_stack := stack;
                complexity_rating := rating;
                resume_bullets := bullets;
                improvement_suggestions := suggestions |}
  | _, _, _, _, _, _, _ => Thrown TypeError
  end.

(** The body of the loop over [validRepoData]: what it pushes. *)
Definition analyze_repo (repoData : ArtifactBundle) : M (list GithubProject) :=
  try_catch
    (response <- generateContentWithRetry_default svc (repo_request repoData) ;;
     pushed <- match text response with
               | Some t =>
                   if is_empty t then ret []
                   else
                     raw <- parse_json (cleanJson t) ;;
                     project <- lift (project_of_raw raw) ;;
                     ret [project]
               | None => ret []
               end ;;
     (* Add a delay between repo analyses to respect RPM limits *)
     wait 2000 ;;;
     ret pushed)
    (fun _ => ret []).

Fixpoint fetch_repos (targetRepos : list Github.RepoReference)
  : M (list ArtifactBundle) :=
  match targetRepos with
  | [] => ret []
  | r :: rest =>
      data <- fetchGithubRepoData P svc (Github.owner r) (Github.repo r) ;;
      valid <- fetch_repos rest ;;
      match data with
      | Some d => ret (d :: valid)
      | None => ret valid
      end
  end.

Fixpoint analyze_repos (validRepoData : list ArtifactBundle)
  : M (list GithubProject) :=
  match validRepoData with
  | [] => ret []
  | repoData :: rest =>
      pushed <- analyze_repo repoData ;;
      results <- analyze_repos rest ;;
      ret (pushed ++ results)
  end.

Definition analyzeGithubReposWithAPI (githubLinks : jsstring)
  : M (list GithubProject) :=
  if is_empty githubLinks || is_empty (trim githubLinks)
  then ret []
  else
    let reposToAnalyze := Github.parseGithubInput githubLinks in
    match reposToAnalyze with
    | [] => ret []
    | _ :: _ =>
        let targetRepos := firstn 3 reposToAnalyze in
        validRepoData <- fetch_repos targetRepos ;;
        match validRepoData with
        | [] => ret []
        | _ :: _ => analyze_repos validRepoData
        end
    end.

(** ** The resume segment analyzer *)

Definition highlights_request (resumePart : InlineData) : Request :=
  json_request (js "gemini-2.5-flash")
    [InlinePart resumePart; TextPart ResumeHighlightsPrompt]
    RESUME_HIGHLIGHTS_SCHEMA.

(** [null] is [JNull]. *)
Definition analyzeResumeHighlights (resumeFile : option File) : M JValue :=
  match resumeFile with
  | None => ret JNull
  | Some file =>
      resumePart <- fileToGenerativePart file ;;
      try_catch
        (response <- generateContentWithRetry_default svc
                       (highlights_request resumePart) ;;
         match text response with
         | Some t =>
             if is_empty t then ret JNull
             else parse_json (cleanJson t)
         | None => ret JNull
         end)
        (fun _ => ret JNull)
  end.

(** ** The primary synthesis analyzer *)

Definition digest_entry (p : GithubProject) : jsstring :=
  js "REPO: " +++ ToString P (name p) +++ newline
     +++ js "SUMMARY: " +++ summary p.

Definition githubSummaryText (githubProjects : list GithubProject) : jsstring :=
  match githubProjects with
  | _ :: _ => join (newline +++ newline) (List.map digest_entry githubProjects)
  | [] => js "No valid GitHub repositories found or analyzed."
  end.

Definition main_request (ps : list InlineData) (jdText : jsstring)
           (githubProjects : list GithubProject) : Request :=
  {| model := js "gemini-3-pro-preview";
     parts :=
       List.map InlinePart ps ++
       [TextPart
          (MainPrompt
             (if is_empty jdText
              then js "UNSPECIFIED - Auto-detect best fit role from Resume"
              else jdText)
             (githubSummaryText githubProjects))];
     responseSchema := Some ANALYSIS_SCHEMA;
     googleSearch := true;
     audioModality := false |}.

(** 1. Analyze GitHub Repos (if any) *)
Definition github_stage (githubLinks : jsstring) : M (list GithubProject) :=
  try_catch (analyzeGithubReposWithAPI githubLinks) (fun _ => ret []).

(** 2. Analyze Resume Highlights *)
Definition highlights_stage (resume : option File)
           (githubProjects : list GithubProject) : M JValue :=
  try_catch
    ((* Delay before starting next major task *)
     match githubProjects with
     | _ :: _ => wait 1500
     | [] => ret tt
     end ;;;
     analyzeResumeHighlights resume)
    (fun _ => ret JNull).

(** 3. Main Analysis (with retry), and the overlay of the side-channel
    results on the parsed response. *)
Definition main_stage (resume : option File) (jdText : jsstring)
           (githubProjects : list GithubProject) (resumeHighlights : JValue)
  : M JValue :=
  ps <- match resume with
        | Some file => part <- fileToGenerativePart file ;; ret [part]
        | None => ret []
        end ;;
  (* Ensure we wait a bit before the big request *)
  wait 2000 ;;;
  mainResponse <- generateContentWithRetry svc
                    (main_request ps jdText githubProjects) 4 3000 ;;
  match text mainResponse with
  | None => throw (Error (js "No response from AI"))
  | Some t =>
      if is_empty t then throw (Error (js "No response from AI"))
      else
        mainResult <- parse_json (cleanJson t) ;;
        mainResult <- match githubProjects with
                      | _ :: _ =>
                          lift (set mainResult (js "github_projects")
                                    (JArr (List.map project_value githubProjects) []))
                      | [] => ret mainResult
                      end ;;
        mainResult <- (if truthy resumeHighlights
                       then lift (set mainResult (js "resume_highlights")
                                      resumeHighlights)
                       else ret mainResult) ;;
        ret mainResult
  end.

Definition analyzeProfile (resume : option File) (jdText githubLinks : jsstring)
  : M JValue :=
  githubProjects <- github_stage githubLinks ;;
  resumeHighlights <- highlights_stage resume githubProjects ;;
  main_stage resume jdText githubProjects resumeHighlights.

End Analysis.

End Pipeline.
Import Pipeline.

(* ===================================================================== *)
(** * The portfolio generator and the interview turn functions            *)
(* ===================================================================== *)

Module Turns.

Definition plain_request (m : jsstring) (ps : list Part) : Request :=
  {| model := m; parts := ps; responseSchema := None;
     googleSearch := false; audioModality := false |}.

(** [a || b], [b] being evaluated only when [a] is falsy. *)
Definition or_default (a : JValue) (b : completion JValue) : completion JValue :=
  if truthy a then Normal a else b.

Definition cbind {A B} (c : completion A) (f : A -> completion B)
  : completion B :=
  match c with
  | Normal a => f a
  | Thrown e => Thrown e
  end.

Notation "x <~ c ;; k" := (cbind c (fun x => k))
  (at level 61, c at next level, right associativity).

(** [a.map(f)] where [a] was read from an untyped value: only arrays
    have the method. *)
Fixpoint map_completion (f : JValue -> completion JValue) (l : list JValue)
  : completion (list JValue) :=
  match l with
  | [] => Normal []
  | x :: l' =>
      y <~ f x ;;
      ys <~ map_completion f l' ;;
      Normal (y :: ys)
  end.

Definition array_map (a : JValue) (f : JValue -> completion JValue)
  : completion (list JValue) :=
  match a with
  | JArr elems _ => map_completion f elems
  | _ => Thrown TypeError
  end.

(** [a.slice(0, n)]: arrays and strings have the method. *)
Definition value_slice (a : JValue) (n : nat) : completion JValue :=
  match a with
  | JArr elems _ => Normal (JArr (firstn n elems) [])
  | JStr s => Normal (JStr (firstn n s))
  | _ => Thrown TypeError
  end.

Definition strings (l : list string) : JValue :=
  JArr (List.map (fun s => JStr (js s)) l) [].

(** Map AnalysisResult to CandidateProfileForPortfolio. *)
Definition candidateProfile (analysisResult preferences : JValue)
  : completion JValue :=
  text_summaries <~ get analysisResult (js "text_summaries") ;;
  candidate_name <~ get text_summaries (js "candidate_name") ;;
  pname <~ or_default candidate_name (Normal (JStr (js "Candidate"))) ;;
  candidate_headline <~ get text_summaries (js "candidate_headline") ;;
  headline <~ or_default candidate_headline
                (jd_breakdown <~ get analysisResult (js "jd_breakdown") ;;
                 get jd_breakdown (js "role_title")) ;;
  short_summary <~ get text_summaries (js "profile_summary") ;;
  competency_matrix <~ get analysisResult (js "competency_matrix") ;;
  key_skills <~ array_map competency_matrix
                  (fun area =>
                     category <~ get area (js "area") ;;
                     skills <~ get area (js "skills") ;;
                     names <~ array_map skills (fun s => get s (js "name")) ;;
                     Normal (JObj [ (js "category", category);
                                    (js "skills", JArr names []) ])) ;;
  github_projects <~ get analysisResult (js "github_projects") ;;
  projects <~ array_map github_projects
                (fun p =>
                   n <~ get p (js "name") ;;
                   s <~ get p (js "summary") ;;
                   t <~ get p (js "tech_stack") ;;
                   b <~ get p (js "resume_bullets") ;;
                   Normal (JObj [ (js "name", n); (js "summary", s);
                                  (js "tech_stack", t);
                                  (js "highlight_bullets", b) ])) ;;
  placeholder <~ match projects with
                 | [] =>
                     jd_breakdown <~ get analysisResult (js "jd_breakdown") ;;
                     must_have_skills <~ get jd_breakdown (js "must_have_skills") ;;
                     stack <~ value_slice must_have_skills 3 ;;
                     Normal
                       [ JObj [ (js "name", JStr (js "Key Project"));
                                (js "summary",
                                 JStr (js "A significant professional achievement demonstrating core competencies."));
                                (js "tech_stack", stack);
                                (js "highlight_bullets",
                                 strings [ "Led successful initiative";
                                           "Improved efficiency by 20%" ]%string) ] ]
                 | _ :: _ => Normal []
                 end ;;
  contact_email <~ get preferences (js "contact_email") ;;
  email <~ or_default contact_email (Normal (JStr (js "email@example.com"))) ;;
  resume_highlights <~ get analysisResult (js "resume_highlights") ;;
  segments <~ match resume_highlights with
              | JUndefined | JNull => Normal JUndefined
              | _ => get resume_highlights (js "segments")
              end ;;
  strengths <~ get text_summaries (js "strengths") ;;
  Normal
    (JObj [ (js "name", pname);
            (js "headline", headline);
            (js "short_summary", short_summary);
            (js "key_skills", JArr (firstn 4 key_skills) []);
            (js "projects", JArr (projects ++ placeholder) []);
            (js "links",
             JObj [ (js "email", email);
                    (js "github", JStr (js "https://github.com"));
                    (js "linkedin", JStr (js "https://linkedin.com"));
                    (js "portfolio", JStr (js "#")) ]);
            (js "raw_analysis_context",
             JObj [ (js "resume_highlights", segments);
                    (js "strengths", strengths);
                    (js "competencies", competency_matrix);
                    (js "full_summary", short_summary) ]) ]).

Definition portfolio_error : jsstring := js "<!-- Error generating portfolio -->".

Section Turns.
Variable P : Platform.
Variable svc : Services.

Definition generatePortfolioHtml (analysisResult preferences : JValue)
  : M jsstring :=
  profile <- lift (candidateProfile analysisResult preferences) ;;
  try_catch
    (response <- generateContentWithRetry_default svc
                   (plain_request (js "gemini-3-pro-preview")
                      [TextPart (PortfolioPrompt profile preferences)]) ;;
     ret (cleanHtml (text_or [] response)))
    (fun _ => ret portfolio_error).

Definition generateInterviewTopics (role : jsstring) : M JValue :=
  try_catch
    (response <- generateContentWithRetry_default svc
                   (json_request (js "gemini-3-pro-preview")
                      [TextPart (TopicsPrompt role)] INTERVIEW_TOPICS_SCHEMA) ;;
     let clean := cleanJson (text_or (js "{}") response) in
     data <- parse_json P clean ;;
     topics <- lift (get data (js "topics")) ;;
     ret (if truthy topics then topics else JArr [] []))
    (fun _ => ret (JArr [] [])).

Definition generateInterviewQuestion (role topic : jsstring) : M JValue :=
  response <- generateContentWithRetry_default svc
                (json_request (js "gemini-3-pro-preview")
                   [TextPart (QuestionPrompt role topic)]
                   INTERVIEW_QUESTION_SCHEMA) ;;
  let clean := cleanJson (text_or (js "{}") response) in
  parse_json P clean.

Definition speech_request (t : jsstring) : Request :=
  {| model := js "gemini-2.5-flash-preview-tts";
     parts := [TextPart (PlainText t)];
     responseSchema := None;
     googleSearch := false;
     audioModality := true |}.

Definition generateSpeech (t : jsstring) : M (option jsstring) :=
  try_catch
    (response <- generateContentWithRetry_default svc (speech_request t) ;;
     (* Extract audio base64 *)
     match inlineData response with
     | Some audioData =>
         if is_empty audioData then ret None else ret (Some audioData)
     | None => ret None
     end)
    (fun _ => ret None).

Definition transcribeAudio (audioBase64 mime : jsstring) : M jsstring :=
  try_catch
    (response <- generateContentWithRetry_default svc
                   (plain_request (js "gemini-2.5-flash")
                      [ InlinePart {| data := audioBase64; mimeType := mime |};
                        TextPart TranscribePrompt ]) ;;
     ret (text_or [] response))
    (fun _ => ret []).

Definition evaluateInterviewAnswer (question : JValue) (transcript : jsstring)
  : M JValue :=
  question_text <- lift (get question (js "question_text")) ;;
  expected_keywords <- lift (get question (js "expected_keywords")) ;;
  keywords <- match expected_keywords with
              | JArr elems _ => ret (join_elements P (js ", ") elems)
              | _ => throw TypeError
              end ;;
  response <- generateContentWithRetry_default svc
                (json_request (js "gemini-3-pro-preview")
                   [TextPart (EvaluationPrompt (ToString P question_text)
                                               keywords transcript)]
                   INTERVIEW_EVALUATION_SCHEMA) ;;
  let cleanedText := cleanJson (text_or (js "{}") response) in
  parse_json P cleanedText.
End Turns.

End Turns.
Import Turns.

(* ===================================================================== *)
(** * A reference host                                                    *)
(* ===================================================================== *)

(** The built-ins of the host as executable functions: [JSON.parse]
    (RFC 8259 grammar), [atob] (forgiving base64 decoding) and the
    printing of integral numbers.  The theorems below hold for every
    platform; this one runs the examples. *)

Module Reference.

(** ** [atob] *)

Definition is_ascii_ws (c : N) : bool :=
  ((c =? 9) || (c =? 10) || (c =? 12) || (c =? 13) || (c =? 32))%N.

Definition sextet (c : N) : option N :=
  if Github.is_upper c then Some (c - 65)%N
  else if Github.is_lower c then Some (c - 97 + 26)%N
  else if Github.is_digit c then Some (c - 48 + 52)%N
  else if (c =? 43)%N then Some 62%N
  else if (c =? 47)%N then Some 63%N
  else None.

Fixpoint sextets (s : jsstring) : option (list N) :=
  match s with
  | [] => Some []
  | c :: s' =>
      match sextet c, sextets s' with
      | Some v, Some l => Some (v :: l)
      | _, _ => None
      end
  end.

Fixpoint decode_sextets (l : list N) : jsstring :=
  match l with
  | a :: b :: c :: d :: l' =>
      let n := (a * 262144 + b * 4096 + c * 64 + d)%N in
      (n / 65536)%N :: ((n / 256) mod 256)%N :: (n mod 256)%N
        :: decode_sextets l'
  | [a; b; c] =>
      let n := (a * 4096 + b * 64 + c)%N in
      [ (n / 1024)%N; ((n / 4) mod 256)%N ]
  | [a; b] => [ ((a * 64 + b) / 16)%N ]
  | _ => []
  end.

Definition strip_padding (s : jsstring) : jsstring :=
  if Nat.eqb (Nat.modulo (List.length s) 4) 0
  then match rev s with
       | 61%N :: 61%N :: r => rev r
       | 61%N :: r => rev r
       | _ => s
       end
  else s.

Definition atob (s : jsstring) : option jsstring :=
  let s := strip_padding (filter (fun c => negb (is_ascii_ws c)) s) in
  if Nat.eqb (Nat.modulo (List.length s) 4) 1 then None
  else match sextets s with
       | Some l => Some (decode_sextets l)
       | None => None
       end.

(** ** [JSON.parse] *)

Definition is_json_ws (c : N) : bool :=
  ((c =? 32) || (c =? 9) || (c =? 10) || (c =? 13))%N.

Fixpoint skip_ws (s : jsstring) : jsstring :=
  match s with
  | c :: s' => if is_json_ws c then skip_ws s' else s
  | [] => []
  end.

Definition hex_digit (c : N) : option N :=
  if Github.is_digit c then Some (c - 48)%N
  else if ((97 <=? c) && (c <=? 102))%N then Some (c - 87)%N
  else if ((65 <=? c) && (c <=? 70))%N then Some (c - 55)%N
  else None.

(** The characters of a string literal after its opening quote. *)
Fixpoint parse_chars (s : jsstring) (acc : jsstring)
  : option (jsstring * jsstring) :=
  match s with
  | [] => None
  | 34%N :: rest => Some (rev acc, rest)
  | 92%N :: e :: rest =>
      let simple (c : N) := parse_chars rest (c :: acc) in
      if (e =? 34)%N then simple 34%N
      else if (e =? 92)%N then simple 92%N
      else if (e =? 47)%N then simple 47%N
      else if (e =? 98)%N then simple 8%N
      else if (e =? 102)%N then simple 12%N
      else if (e =? 110)%N then simple 10%N
      else if (e =? 114)%N then simple 13%N
      else if (e =? 116)%N then simple 9%N
      else if (e =? 117)%N then
        match rest with
        | a :: b :: c :: d :: rest' =>
            match hex_digit a, hex_digit b, hex_digit c, hex_digit d with
            | Some x, Some y, Some z, Some w =>
                parse_chars rest' ((x * 4096 + y * 256 + z * 16 + w)%N :: acc)
            | _, _, _, _ => None
            end
        | _ => None
        end
      else None
  | c :: rest => if (c <? 32)%N then None else parse_chars rest (c :: acc)
  end.

Fixpoint take_digits (s : jsstring) (acc : N) (count : nat)
  : N * nat * jsstring :=
  match s with
  | c :: s' =>
      if Github.is_digit c
      then take_digits s' (acc * 10 + (c - 48))%N (S count)
      else (acc, count, s)
  | [] => (acc, count, [])
  end.

(** The double nearest to [m * 10^e10]. *)
Definition decimal_to_double (negative : bool) (m : N) (e10 : Z) : double :=
  match m with
  | N0 => S754_zero negative
  | Npos p =>
      if (0 <=? e10)%Z
      then binary_normalize prec emax
             ((if negative then Z.neg p else Z.pos p) * 10 ^ e10) 0 negative
      else SFdiv prec emax
             (S754_finite negative p 0)
             (S754_finite false (Z.to_pos (10 ^ (- e10))) 0)
  end.

Definition parse_number (s : jsstring) : option (JValue * jsstring) :=
  let (negative, s) := match s with
                       | 45%N :: s' => (true, s')
                       | _ => (false, s)
                       end in
  let '(int, icount, s1) := take_digits s 0 0 in
  let leading_zero := match s with
                      | 48%N :: _ => true
                      | _ => false
                      end in
  if Nat.eqb icount 0 || (leading_zero && negb (Nat.eqb icount 1)) then None
  else
    let frac := match s1 with
                | 46%N :: s2 =>
                    let '(m, fcount, s3) := take_digits s2 int 0 in
                    if Nat.eqb fcount 0 then None else Some (m, fcount, s3)
                | _ => Some (int, O, s1)
                end in
    match frac with
    | None => None
    | Some (m, fcount, s3) =>
        let expo := match s3 with
                    | c :: s4 =>
                        if ((c =? 101) || (c =? 69))%N
                        then
                          let (eneg, s5) := match s4 with
                                            | 45%N :: s' => (true, s')
                                            | 43%N :: s' => (false, s')
                                            | _ => (false, s4)
                                            end in
                          let '(e, ecount, s6) := take_digits s5 0 0 in
                          if Nat.eqb ecount 0 then None
                          else Some ((if eneg then - Z.of_N e else Z.of_N e)%Z, s6)
                        else Some (0%Z, s3)
                    | [] => Some (0%Z, s3)
                    end in
        match expo with
        | None => None
        | Some (e, rest) =>
            Some (JNum (decimal_to_double negative m (e - Z.of_nat fcount)), rest)
        end
    end.

(** [CreateDataProperty]: a repeated key keeps its place and takes the
    later value. *)
Definition define := assign.

Fixpoint parse_value (fuel : nat) (s : jsstring) {struct fuel}
  : option (JValue * jsstring) :=
  match fuel with
  | O => None
  | S f =>
      match skip_ws s with
      | 123%N :: r =>
          match skip_ws r with
          | 125%N :: r' => Some (JObj [], r')
          | r' => parse_members f r' []
          end
      | 91%N :: r =>
          match skip_ws r with
          | 93%N :: r' => Some (JArr [] [], r')
          | r' => parse_elements f r' []
          end
      | 34%N :: r =>
          match parse_chars r [] with
          | Some (str, r') => Some (JStr str, r')
          | None => None
          end
      | s' =>
          match drop_prefix (js "true") s', drop_prefix (js "false") s',
                drop_prefix (js "null") s' with
          | Some r, _, _ => Some (JBool true, r)
          | _, Some r, _ => Some (JBool false, r)
          | _, _, Some r => Some (JNull, r)
          | None, None, None => parse_number s'
          end
      end
  end
with parse_elements (fuel : nat) (s : jsstring) (acc : list JValue) {struct fuel}
  : option (JValue * jsstring) :=
  match fuel with
  | O => None
  | S f =>
      match parse_value f s with
      | Some (v, r) =>
          match skip_ws r with
          | 44%N :: r' => parse_elements f r' (v :: acc)
          | 93%N :: r' => Some (JArr (rev (v :: acc)) [], r')
          | _ => None
          end
      | None => None
      end
  end
with parse_members (fuel : nat) (s : jsstring) (acc : list (jsstring * JValue))
       {struct fuel} : option (JValue * jsstring) :=
  match fuel with
  | O => None
  | S f =>
      match skip_ws s with
      | 34%N :: r =>
          match parse_chars r [] with
          | Some (key, r1) =>
              match skip_ws r1 with
              | 58%N :: r2 =>
                  match parse_value f r2 with
                  | Some (v, r3) =>
                      match skip_ws r3 with
                      | 44%N :: r4 => parse_members f r4 (define key v acc)
                      | 125%N :: r4 => Some (JObj (define key v acc), r4)
                      | _ => None
                      end
                  | None => None
                  end
              | _ => None
              end
          | None => None
          end
      | _ => None
      end
  end.

Definition JSON_parse (s : jsstring) : option JValue :=
  match parse_value (2 * List.length s + 2) s with
  | Some (v, rest) =>
      match skip_ws rest with
      | [] => Some v
      | _ :: _ => None
      end
  | None => None
  end.

(** ** [Number.prototype.toString]

    The shortest decimal numeral that reads back as the same double:
    [k] digits [s] and a decimal exponent [n] with value [s * 10^(n-k)],
    [k] as small as possible and [s] as close to the number as
    possible. *)

Definition decimal_length (z : Z) : Z :=
  Z.of_nat (List.length (N_to_string (Z.to_N z))).

(** [num / den < 10^t] *)
Definition below_power (num den t : Z) : bool :=
  if (0 <=? t)%Z then (num <? den * 10 ^ t)%Z
  else (num * 10 ^ (- t) <? den)%Z.

(** The [n] with [10^(n-1) <= num / den < 10^n]. *)
Definition decimal_exponent (num den : Z) : Z :=
  let t := (decimal_length num - decimal_length den)%Z in
  if below_power num den t then t else (t + 1)%Z.

Definition reads_back (x : double) (s n k : Z) : bool :=
  SFeqb (decimal_to_double false (Z.to_N s) (n - k)) x.

(** The digits for [k] significant digits, if some numeral of that
    length reads back as [x = num / den]. *)
Definition digits_of_length (x : double) (num den n k : Z) : option (Z * Z) :=
  let '(sn, sd) := if (0 <=? k - n)%Z
                   then (num * 10 ^ (k - n), den)%Z
                   else (num, den * 10 ^ (n - k))%Z in
  let lo := (sn / sd)%Z in
  let hi := (lo + 1)%Z in
  let r := (2 * (sn - lo * sd))%Z in
  let prefer_lo := (r <? sd)%Z || ((r =? sd)%Z && Z.even lo) in
  let ok (s : Z) := reads_back x s n k in
  let pick (s : Z) :=
    if (s =? 10 ^ k)%Z then Some (1, n + 1)%Z else Some (s, n) in
  if prefer_lo
  then if ok lo then pick lo else if ok hi then pick hi else None
  else if ok hi then pick hi else if ok lo then pick lo else None.

Fixpoint shortest_digits (fuel : nat) (x : double) (num den n k : Z)
  : Z * Z :=
  match fuel with
  | O => (num / den, n)%Z
  | S f =>
      match digits_of_length x num den n k with
      | Some r => r
      | None => shortest_digits f x num den n (k + 1)
      end
  end.

Definition zeros (n : Z) : jsstring := repeat 48%N (Z.to_nat n).

Definition exponent_part (n : Z) : jsstring :=
  js "e" ++ (if (0 <=? n - 1)%Z then js "+" else js "-")
     ++ N_to_string (Z.to_N (Z.abs (n - 1))).

Definition format_digits (ds : jsstring) (n : Z) : jsstring :=
  let k := Z.of_nat (List.length ds) in
  if ((k <=? n) && (n <=? 21))%Z then ds ++ zeros (n - k)
  else if ((0 <? n) && (n <=? 21))%Z
       then firstn (Z.to_nat n) ds ++ js "." ++ skipn (Z.to_nat n) ds
  else if ((-6 <? n) && (n <=? 0))%Z then js "0." ++ zeros (- n) ++ ds
  else match ds with
       | [d] => [d] ++ exponent_part n
       | d :: rest => [d] ++ js "." ++ rest ++ exponent_part n
       | [] => []
       end.

Definition Number_toString (x : double) : jsstring :=
  match x with
  | S754_nan => js "NaN"
  | S754_infinity false => js "Infinity"
  | S754_infinity true => js "-Infinity"
  | S754_zero _ => js "0"
  | S754_finite negative m e =>
      let '(num, den) := if (0 <=? e)%Z
                         then (Z.pos m * 2 ^ e, 1)%Z
                         else (Z.pos m, 2 ^ (- e))%Z in
      let n := decimal_exponent num den in
      let '(s, n') := shortest_digits 17 (S754_finite false m e) num den n 1 in
      (if negative then js "-" else [])
        ++ format_digits (N_to_string (Z.to_N s)) n'
  end.

Definition platform : Platform :=
  {| Host.JSON_parse := JSON_parse;
     Host.atob := atob;
     Host.Number_toString := Number_toString |}.

End Reference.

(* ===================================================================== *)
(** * The components that call the service                                *)
(* ===================================================================== *)

Module Callers.

(** ** The dashboard: generating the portfolio *)

(** The state of the dashboard that the portfolio handler writes. *)
Record Dashboard := {
  portfolioHtml : jsstring;
  isGeneratingPortfolio : bool;
  showToast : bool
}.

Definition setPortfolioHtml (html : jsstring) (d : Dashboard) : Dashboard :=
  {| portfolioHtml := html;
     isGeneratingPortfolio := isGeneratingPortfolio d;
     showToast := showToast d |}.

Definition setIsGeneratingPortfolio (b : bool) (d : Dashboard) : Dashboard :=
  {| portfolioHtml := portfolioHtml d;
     isGeneratingPortfolio := b;
     showToast := showToast d |}.

Definition setShowToast (b : bool) (d : Dashboard) : Dashboard :=
  {| portfolioHtml := portfolioHtml d;
     isGeneratingPortfolio := isGeneratingPortfolio d;
     showToast := b |}.

(** A callback handed to [setTimeout] with its delay. *)
Definition Timer : Type := (Z * (Dashboard -> Dashboard))%type.

(** ** The interview coach: processing a recorded answer *)

Inductive InterviewState : Type :=
| setup | loading_question | asking | ready_to_record
| recording | processing | results.

(** The state of the coach that the answer callback reads and writes. *)
Record Coach := {
  currentState : InterviewState;
  questionData : JValue;        (* [null] before the first question *)
  transcript : jsstring;
  evaluation : JValue           (* [null] before the first evaluation *)
}.

Definition setCurrentState (s : InterviewState) (c : Coach) : Coach :=
  {| currentState := s; questionData := questionData c;
     transcript := transcript c; evaluation := evaluation c |}.

Definition setTranscript (t : jsstring) (c : Coach) : Coach :=
  {| currentState := currentState c; questionData := questionData c;
     transcript := t; evaluation := evaluation c |}.

Definition setEvaluation (v : JValue) (c : Coach) : Coach :=
  {| currentState := currentState c; questionData := questionData c;
     transcript := transcript c; evaluation := v |}.

Definition unintelligible : jsstring := js "Audio unintelligible or empty.".

Section Handlers.
Variable P : Platform.
Variable svc : Services.

(** The handler sets the flag and lets the generation run in the
    background; the result is the dashboard once the promise has
    settled, with the timers its [then] callback has set. *)
Definition handleGeneratePortfolio (data portfolioPreferences : JValue)
           (d : Dashboard) (w : World) : Dashboard * list Timer * World :=
  let d := setIsGeneratingPortfolio true d in
  match generatePortfolioHtml svc data portfolioPreferences w with
  | (Normal html, w') =>
      let d := setPortfolioHtml html d in
      let d := setIsGeneratingPortfolio false d in
      let d := setShowToast true d in
      (d, [ (5000%Z, setShowToast false) ], w')  (* Auto dismiss *)
  | (Thrown e, w') =>
      (setIsGeneratingPortfolio false d, [], w')
  end.

(** The callback [reader.onloadend] of [processAnswer], from the base64
    payload of the data URL and the type of the recorded blob on.  It
    is an async function of its own: what it throws rejects its own
    promise and does not reach the handler of [processAnswer]. *)
Definition processAnswer_onloadend (base64Data blob_type : jsstring)
           (c : Coach) (w : World) : completion unit * Coach * World :=
  let mimeType := if is_empty blob_type then js "audio/webm" else blob_type in
  (* 1. Transcribe with Gemini *)
  match transcribeAudio svc base64Data mimeType w with
  | (Thrown e, w1) => (Thrown e, c, w1)
  | (Normal finalTranscript, w1) =>
      let c1 := setTranscript finalTranscript c in
      (* 2. Evaluate with Gemini *)
      if truthy (questionData c) && negb (is_empty finalTranscript) then
        match evaluateInterviewAnswer P svc (questionData c) finalTranscript w1 with
        | (Thrown e, w2) => (Thrown e, c1, w2)
        | (Normal evalResult, w2) =>
            (Normal tt, setCurrentState results (setEvaluation evalResult c1), w2)
        end
      else
        (* Fallback if transcription failed *)
        (Normal tt, setCurrentState results (setTranscript unintelligible c1), w1)
  end.

End Handlers.

End Callers.

(* ===================================================================== *)
(** * Vocabulary of the statements                                        *)
(* ===================================================================== *)

Definition slash : N := 47%N.

Definition well_formed_owner (o : jsstring) : Prop :=
  (1 <= List.length o <= 39)%nat /\
  Forall (fun c => Github.is_owner_char c = true) o.

Definition well_formed_repo (r : jsstring) : Prop :=
  (1 <= List.length r)%nat /\
  Forall (fun c => Github.is_repo_char c = true) r.

Definition canonical_url (o r : jsstring) : jsstring :=
  js "https://github.com/" +++ o +++ js "/" +++ r.

(** The entries of the [Map] are keyed by the URL of their value. *)
Definition keyed (m : list (jsstring * Github.RepoReference)) : Prop :=
  Forall (fun kv => fst kv = Github.url (snd kv)) m.

(** Tokens and separator runs of the input of the parser. *)
Definition no_separator (s : jsstring) : Prop :=
  Forall (fun c => Github.is_separator c = false) s.

Definition all_separators (s : jsstring) : Prop :=
  Forall (fun c => Github.is_separator c = true) s.

(** The contributions of [n] links that are the same after cleaning. *)
Fixpoint repeat_links (l : list Github.RepoReference) (n : nat)
  : list Github.RepoReference :=
  match n with
  | O => []
  | S n' => l ++ repeat_links l n'
  end.

(** The world after some more events. *)
Definition log (w : World) (evs : list Event) : World :=
  {| gen_calls := gen_calls w; trace := trace w ++ evs |}.

(** The content a file request yields ([None] is [null]). *)
Definition file_content (P : Platform) (svc : Services)
           (owner repo path : jsstring) : option jsstring :=
  match get_file svc owner repo path with
  | HttpOk data =>
      match env_content data, env_encoding data with
      | Some content, Some encoding =>
          if negb (is_empty content) && str_eqb encoding (js "base64")
          then atob P content
          else None
      | _, _ => None
      end
  | HttpThrows _ | HttpNotOk => None
  end.

Definition file_url (owner repo path : jsstring) : jsstring :=
  api_root +++ owner +++ js "/" +++ repo +++ js "/contents/" +++ path.

(** The files of a selection whose content was fetched and is not empty:
    path and content. *)
Fixpoint fetched_files (P : Platform) (svc : Services) (owner repo : jsstring)
         (files : list DirEntry) : list (jsstring * jsstring) :=
  match files with
  | [] => []
  | file :: rest =>
      match file_content P svc owner repo (entry_path file) with
      | Some c =>
          if negb (is_empty c)
          then (entry_path file, c) :: fetched_files P svc owner repo rest
          else fetched_files P svc owner repo rest
      | None => fetched_files P svc owner repo rest
      end
  end.

(** A README among the matched directory entries. *)
Definition is_readme (item : DirEntry) : bool :=
  startsWith (entry_name item) (js "README").

(** ** Example services *)

Module Examples.

Fixpoint repeat_string (s : jsstring) (n : nat) : jsstring :=
  match n with
  | O => []
  | S n' => s ++ repeat_string s n'
  end.

Definition file_entry (n : string) : DirEntry :=
  {| entry_type := js "file"; entry_name := js n; entry_path := js n |}.

Definition dir_entry (n : string) : DirEntry :=
  {| entry_type := js "dir"; entry_name := js n; entry_path := js n |}.

Definition base64_file (content : jsstring) : Http FileEnvelope :=
  HttpOk {| env_content := Some content; env_encoding := Some (js "base64") |}.

Definition response_text (t : jsstring) : Response :=
  {| text := Some t; inlineData := None |}.

Definition quota_error : JsError :=
  {| err_status := Some 429%Z; err_code := None;
     err_message := js "Too Many Requests"; err_json := js "{}" |}.

Definition server_error : JsError :=
  {| err_status := Some 500%Z; err_code := None;
     err_message := js "Internal error"; err_json := js "{}" |}.

(** A repository with six languages, the last one the largest, whose
    README is 8001 characters long (2667 times ["AAA"], in base64) and
    whose other files hold ["hello"]. *)
Definition six_languages : list (jsstring * N) :=
  [ (js "A", 1%N); (js "B", 1%N); (js "C", 1%N); (js "D", 1%N);
    (js "E", 1%N); (js "F", 11%N) ].

Definition listing : list DirEntry :=
  [ file_entry "main.py"; file_entry "package.json"; dir_entry "src";
    file_entry "README.md"; file_entry "index.js";
    file_entry "requirements.txt"; file_entry "go.mod" ].

Definition repository (readme : Http FileEnvelope) : Services :=
  {| generateContent := fun _ _ => Thrown server_error;
     get_repo := fun o r =>
       HttpOk {| meta_name := r;
                 meta_html_url := js "https://github.com/" ++ o ++ js "/" ++ r |};
     get_languages := fun _ _ => HttpOk six_languages;
     get_contents := fun _ _ => HttpOk listing;
     get_file := fun _ _ path =>
       if str_eqb path (js "README.md") then readme
       else base64_file (js "aGVsbG8=") |}.

Definition long_readme : Services :=
  repository (base64_file (repeat_string (js "QUFB") 2667)).

(** An assistant that answers each schema with a fixed JSON text, the
    primary one inside a Markdown fence and after [quota_hits] quota
    rejections of the model as a whole. *)
Definition quoted (s : string) : jsstring := [34%N] ++ js s ++ [34%N].

Definition repo_analysis_json : jsstring :=
  js "{" ++ quoted "project_name" ++ js ":" ++ quoted "bar" ++ js ","
     ++ quoted "project_type" ++ js ":" ++ quoted "CLI" ++ js ","
     ++ quoted "short_description" ++ js ":" ++ quoted "A tool" ++ js ","
     ++ quoted "complexity_rating" ++ js ":3}".

Definition highlights_json : jsstring :=
  js "{" ++ quoted "overall_feedback" ++ js ":" ++ quoted "Solid" ++ js ","
     ++ quoted "segments" ++ js ":[]}".

Definition analysis_json : jsstring :=
  js "```json" ++ [10%N]
     ++ js "{" ++ quoted "overall_scores" ++ js ":{"
     ++ quoted "overall_match" ++ js ":72}}" ++ [10%N]
     ++ js "```".

Definition assistant (quota_hits : nat) : Services :=
  {| generateContent := fun k req =>
       match responseSchema req with
       | Some GITHUB_DEEP_ANALYSIS_SCHEMA =>
           Normal (response_text repo_analysis_json)
       | Some RESUME_HIGHLIGHTS_SCHEMA =>
           Normal (response_text highlights_json)
       | Some ANALYSIS_SCHEMA =>
           if Nat.ltb k quota_hits then Thrown quota_error
           else Normal (response_text analysis_json)
       | _ => Thrown server_error
       end;
     get_repo := get_repo (repository HttpNotOk);
     get_languages := get_languages (repository HttpNotOk);
     get_contents := get_contents (repository HttpNotOk);
     get_file := get_file (repository HttpNotOk) |}.

Definition resume_pdf : File :=
  {| file_base64 := Some (js "JVBERi0="); file_type := js "application/pdf" |}.

(** An event without the body of its request. *)
Inductive brief : Type :=
| Fetch (url : string)
| Call (schema : option Schema)
| Wait (ms : Z).

Definition text_of (s : jsstring) : string :=
  string_of_list_ascii (List.map ascii_of_N s).

Definition brief_of (ev : Event) : brief :=
  match ev with
  | EvFetch url => Fetch (text_of url)
  | EvGenerate req => Call (responseSchema req)
  | EvWait ms => Wait ms
  end.

(** The same repository when the request for the README fails. *)
Definition readme_unavailable : Services := repository HttpNotOk.

End Examples.

(** C6 as stated: the block of a README among the matched entries
    opens the bundle. *)
Definition readme_block_first (svc : Services) (owner repo : jsstring)
           (bundle : ArtifactBundle) : Prop :=
  forall contents item,
    get_contents svc owner repo = HttpOk contents ->
    In item contents -> is_found item = true -> is_readme item = true ->
    exists content rest,
      files_bundle bundle = file_block (entry_path item) content ++ rest.

(** The summary that lists the entries [top] of a language mapping. *)
Definition summary_of (langs top : list (jsstring * N)) : jsstring :=
  join (js ", ") (List.map (language_entry (language_total langs)) top).

(** C8 as stated: the summary lists the five languages of greatest
    share (all of them when there are fewer), that is, a selection [top]
    that no other language of the mapping exceeds. *)
Definition lists_greatest_shares (langs : list (jsstring * N))
           (summary : jsstring) : Prop :=
  exists top,
    summary = summary_of langs top /\
    incl top langs /\
    List.length top = Nat.min 5 (List.length langs) /\
    forall e a, In e langs -> ~ In e top -> In a top -> (snd e <= snd a)%N.

(** The events of [n] failed attempts of a request, the first of them at
    iteration [first] of the retry loop: each attempt is followed by
    its back-off wait. *)
Definition failed_attempts (params : Request) (initialDelay : Z)
           (first n : nat) : list Event :=
  flat_map (fun i => [EvGenerate params;
                      EvWait (initialDelay * 2 ^ Z.of_nat i)])
           (seq first n).

(** The invoker fails with a quota error at the calls [k], ..., [k+n-1]. *)
Definition quota_failures (svc : Services) (params : Request) (k n : nat) : Prop :=
  forall i, (i < n)%nat ->
    exists e, generateContent svc (k + i) params = Thrown e /\
              isQuotaError e = true.

(** A mock invoker that fails with a quota error [n] times and then
    succeeds. *)
Definition flaky (n : nat) (r : Response) : Services :=
  {| generateContent := fun k _ =>
       if Nat.ltb k n then Thrown Examples.quota_error else Normal r;
     get_repo := fun _ _ => HttpNotOk;
     get_languages := fun _ _ => HttpNotOk;
     get_contents := fun _ _ => HttpNotOk;
     get_file := fun _ _ _ => HttpNotOk |}.

(** A mock invoker that always fails with the given error. *)
Definition failing (e : JsError) : Services :=
  {| generateContent := fun _ _ => Thrown e;
     get_repo := fun _ _ => HttpNotOk;
     get_languages := fun _ _ => HttpNotOk;
     get_contents := fun _ _ => HttpNotOk;
     get_file := fun _ _ _ => HttpNotOk |}.

Definition some_request : Request :=
  plain_request (js "gemini-2.5-flash") [TextPart TranscribePrompt].

(** The parts the resume contributes to the primary request, when it is
    absent or readable. *)
Definition resume_parts (resume : option File) : option (list InlineData) :=
  match resume with
  | None => Some []
  | Some file =>
      match file_base64 file with
      | Some d => Some [ {| data := d; mimeType := file_type file |} ]
      | None => None
      end
  end.

(** The side-channel results overlaid on the parsed primary response. *)
Definition overlay (mainResult : JValue) (githubProjects : list GithubProject)
           (resumeHighlights : JValue) : completion JValue :=
  cbind (match githubProjects with
         | _ :: _ => set mainResult (js "github_projects")
                         (JArr (List.map project_value githubProjects) [])
         | [] => Normal mainResult
         end)
        (fun mainResult =>
           if truthy resumeHighlights
           then set mainResult (js "resume_highlights") resumeHighlights
           else Normal mainResult).

(** The results of the two side channels and the world in which the
    capstone stage starts. *)
Definition side_channels (P : Platform) (svc : Services) (resume : option File)
           (githubLinks : jsstring) (w : World)
  : list GithubProject * JValue * World :=
  match github_stage P svc githubLinks w with
  | (Normal githubProjects, w1) =>
      match highlights_stage P svc resume githubProjects w1 with
      | (Normal resumeHighlights, w2) => (githubProjects, resumeHighlights, w2)
      | (Thrown _, w2) => (githubProjects, JNull, w2)
      end
  | (Thrown _, w1) => ([], JNull, w1)
  end.

(** The top-level fields [ANALYSIS_SCHEMA] marks required. *)
Definition ANALYSIS_SCHEMA_required : list jsstring :=
  List.map js
    [ "overall_scores"; "market_analysis"; "skill_distribution"; "gap_skills";
      "competency_matrix"; "jd_breakdown"; "roadmap_effort"; "roadmap_details";
      "roadmap_timeline"; "employability_profile"; "text_summaries"; "assets";
      "portfolio_template"; "interview_topics" ]%string.

Definition has_required_fields (v : JValue) : bool :=
  forallb (fun k => has_field k v) ANALYSIS_SCHEMA_required.

(** A computation that completes normally in every world. *)
Definition never_throws {A : Type} (c : M A) : Prop :=
  forall w, exists a w', c w = (Normal a, w').

(** The events a computation adds to the log all satisfy [Q]. *)
Definition emits {A : Type} (Q : Event -> Prop) (c : M A) : Prop :=
  forall w, exists t, trace (snd (c w)) = trace w ++ t /\ Forall Q t.

(** The events of the three stages of the primary pipeline. *)
Definition github_event (ev : Event) : Prop :=
  match ev with
  | EvFetch _ => True
  | EvWait _ => True
  | EvGenerate req => responseSchema req = Some GITHUB_DEEP_ANALYSIS_SCHEMA
  end.

Definition highlights_event (ev : Event) : Prop :=
  match ev with
  | EvFetch _ => False
  | EvWait _ => True
  | EvGenerate req => responseSchema req = Some RESUME_HIGHLIGHTS_SCHEMA
  end.

Definition capstone_event (P : Platform) (jdText : jsstring)
           (githubProjects : list GithubProject) (ev : Event) : Prop :=
  match ev with
  | EvFetch _ => False
  | EvWait _ => True
  | EvGenerate req => exists ps, req = main_request P ps jdText githubProjects
  end.

From Stdlib Require Import Permutation.
From Stdlib Require Sorted.

(* ===================================================================== *)
(** * Further vocabulary: fences, budgets, selections                     *)
(* ===================================================================== *)

(** The Markdown code fence. *)
Definition fence : jsstring := js "```".

Definition backtick : N := 96%N.

Definition all_space (s : jsstring) : Prop :=
  Forall (fun c => is_space c = true) s.

(** The first character of a string, if any, satisfies [p]. *)
Definition head_is (p : N -> bool) (s : jsstring) : bool :=
  match s with
  | c :: _ => p c
  | [] => false
  end.

(** ** Budgets of a log: what a list of events spends *)

Definition waited (evs : list Event) : Z :=
  fold_right (fun ev acc => match ev with
                            | EvWait ms => (ms + acc)%Z
                            | _ => acc
                            end) 0%Z evs.

Definition calls (evs : list Event) : nat :=
  List.length (filter (fun ev => match ev with
                                 | EvGenerate _ => true
                                 | _ => false
                                 end) evs).

Definition fetches (evs : list Event) : nat :=
  List.length (filter (fun ev => match ev with
                                 | EvFetch _ => true
                                 | _ => false
                                 end) evs).

(** A log spends at most [f] requests, [g] model calls and [ms]
    milliseconds of waiting. *)
Definition spends (f g : nat) (ms : Z) (t : list Event) : Prop :=
  (fetches t <= f)%nat /\ (calls t <= g)%nat /\ (0 <= waited t <= ms)%Z.

(** Every run of [c] adds to the log events within the budget, counts
    the model calls it logs, and ends in a completion that satisfies
    [Q]. *)
Definition within {A : Type} (f g : nat) (ms : Z)
           (Q : completion A -> Prop) (c : M A) : Prop :=
  forall w, exists t,
    snd (c w) = {| gen_calls := gen_calls w + calls t;
                   trace := trace w ++ t |} /\
    spends f g ms t /\ Q (fst (c w)).

(** A normal completion whose value satisfies [R]. *)
Definition normal_with {A : Type} (R : A -> Prop) (c : completion A) : Prop :=
  exists a, c = Normal a /\ R a.

Definition any_completion {A : Type} (c : completion A) : Prop := True.

(** A completion whose value, when it is normal, satisfies [R]. *)
Definition on_normal {A : Type} (R : A -> Prop) (c : completion A) : Prop :=
  match c with
  | Normal a => R a
  | Thrown _ => True
  end.

Definition is_fetch (ev : Event) : Prop := exists url, ev = EvFetch url.

(** An analysis result with just the fields the projection of the
    candidate profile reads, and no project. *)
Definition minimal_analysis : JValue :=
  JObj [ (js "text_summaries", JObj []);
         (js "jd_breakdown", JObj [ (js "must_have_skills", JArr [] []) ]);
         (js "competency_matrix", JArr [] []);
         (js "github_projects", JArr [] []) ].

(** A response without text: the property is absent or empty. *)
Definition no_text (r : Response) : Prop :=
  text r = None \/ text r = Some [].

Definition no_audio (r : Response) : Prop :=
  inlineData r = None \/ inlineData r = Some [].

Definition empty_response : Response := {| text := None; inlineData := None |}.

(** ** Lists of links *)

(** The ways a link to a repository may begin. *)
Definition link_forms : list jsstring :=
  [ []; js "github.com/"; js "https://github.com/"; js "http://github.com/" ].

(** A link: how it begins, and the owner and the name of its
    repository. *)
Definition Link : Type := (jsstring * (jsstring * jsstring))%type.

Definition link_text (l : Link) : jsstring :=
  fst l +++ fst (snd l) +++ js "/" +++ snd (snd l).

Definition well_formed_link (l : Link) : Prop :=
  In (fst l) link_forms /\
  well_formed_owner (fst (snd l)) /\ well_formed_repo (snd (snd l)).

(** The reference to a repository, with its canonical URL. *)
Definition reference (p : jsstring * jsstring) : Github.RepoReference :=
  {| Github.owner := fst p; Github.repo := snd p;
     Github.url := canonical_url (fst p) (snd p) |}.

Definition same_repo (p q : jsstring * jsstring) : bool :=
  str_eqb (fst p) (fst q) && str_eqb (snd p) (snd q).

(** The elements of a list without the repetitions: each one at the
    place of its first occurrence. *)
Fixpoint first_occurrences (l : list (jsstring * jsstring))
  : list (jsstring * jsstring) :=
  match l with
  | [] => []
  | p :: l' =>
      p :: filter (fun q => negb (same_repo p q)) (first_occurrences l')
  end.

(* ===================================================================== *)
(** * Properties of strings and of the matcher                            *)
(* ===================================================================== *)

Section StringFacts.

Lemma str_eqb_eq (a b : jsstring) : str_eqb a b = true <-> a = b.
Proof.
  revert b; induction a as [|x a IH]; intros [|y b]; simpl;
    try (split; [discriminate | congruence]); try tauto.
  rewrite andb_true_iff, N.eqb_eq, IH.
  split; [intros [-> ->]; reflexivity | intros H; inversion H; auto].
Qed.

Lemma str_eqb_refl (a : jsstring) : str_eqb a a = true.
Proof. apply str_eqb_eq; reflexivity. Qed.

Lemma drop_prefix_app (p s r : jsstring) :
  drop_prefix p s = Some r <-> s = p ++ r.
Proof.
  revert s; induction p as [|c p IH]; intros s; simpl.
  - split; congruence.
  - destruct s as [|d s]; [split; discriminate|].
    destruct (N.eqb_spec c d) as [->|Hne].
    + rewrite IH. split; [intros ->; reflexivity | intros H; inversion H; auto].
    + split; [discriminate | intros H; inversion H; congruence].
Qed.

Lemma is_empty_nil (s : jsstring) : is_empty s = true <-> s = [].
Proof. destruct s; simpl; split; congruence. Qed.

End StringFacts.

(** What a successful run of the matcher tells: the continuation was
    entered, on a suffix of the input. *)
Section MatcherFacts.
Variable R : Type.

Lemma rep_class_inv (p : N -> bool) (k : cont R) :
    forall s min max pos caps res,
      rep_class p min max pos s caps k = Some res ->
      exists n,
        (min <= n <= List.length s)%nat /\
        match max with
        | Some m => (n <= m)%nat
        | None => True
        end /\
        Forall (fun c => p c = true) (firstn n s) /\
        k (pos + n)%nat (skipn n s) caps = Some res.
  Proof.
    induction s as [|c s IH]; intros min max pos caps res H; simpl in H.
    - destruct min; [|discriminate].
      exists 0%nat. rewrite Nat.add_0_r. simpl.
      repeat split; auto. destruct max; auto with arith.
    - assert (Hstop :
        match min with
        | O => k pos (c :: s) caps
        | S _ => None
        end = Some res ->
        exists n,
          (min <= n <= List.length (c :: s))%nat /\
          match max with
          | Some m => (n <= m)%nat
          | None => True
          end /\
          Forall (fun c => p c = true) (firstn n (c :: s)) /\
          k (pos + n)%nat (skipn n (c :: s)) caps = Some res).
      { intros Hs. destruct min; [|discriminate].
        exists 0%nat. rewrite Nat.add_0_r. simpl.
        repeat split; auto with arith. destruct max; auto with arith. }
      destruct (p c) eqn:Hp; simpl in H; [|auto].
      destruct max as [[|m]|]; simpl in H; auto.
      + unfold or_else in H.
        destruct (rep_class p (Nat.pred min) (Some m) (S pos) s caps k) eqn:E;
          [|auto].
        inversion H; subst r.
        apply IH in E. destruct E as (n & Hn & Hm & Hall & Hk).
        exists (S n). simpl. rewrite Nat.add_succ_r.
        repeat split; auto; lia.
      + unfold or_else in H.
        destruct (rep_class p (Nat.pred min) None (S pos) s caps k) eqn:E;
          [|auto].
        inversion H; subst r.
        apply IH in E. destruct E as (n & Hn & Hm & Hall & Hk).
        exists (S n). simpl. rewrite Nat.add_succ_r.
        repeat split; auto; lia.
  Qed.

  (** On a run of characters of the class that the next character ends,
      with a continuation that accepts, the repetition takes the whole
      run. *)
Lemma rep_class_run (p : N -> bool) (k : cont R) :
    forall run rest min pos caps res,
      Forall (fun c => p c = true) run ->
      match rest with
      | c :: _ => p c = false
      | [] => True
      end ->
      (min <= List.length run)%nat ->
      k (pos + List.length run)%nat rest caps = Some res ->
      rep_class p min None pos (run ++ rest) caps k = Some res.
  Proof.
    induction run as [|c run IH]; intros rest min pos caps res Hall Hrest Hmin Hk.
    - simpl in *. rewrite Nat.add_0_r in Hk.
      assert (min = 0)%nat by lia. subst min.
      destruct rest as [|d rest]; simpl; auto.
      rewrite Hrest. simpl. exact Hk.
    - inversion Hall; subst. simpl. rewrite H1. simpl.
      simpl in Hmin, Hk. rewrite Nat.add_succ_r in Hk.
      rewrite (IH rest (Nat.pred min) (S pos) caps res); auto.
      lia.
  Qed.

Lemma rep_class_none (p : N -> bool) (k : cont R) :
    forall s min max pos caps,
      (1 <= min)%nat ->
      match s with
      | c :: _ => p c = false
      | [] => True
      end ->
      rep_class p min max pos s caps k = None.
  Proof.
    intros [|c s] min max pos caps Hmin Hs; simpl;
      destruct min; try lia; auto.
    rewrite Hs. reflexivity.
  Qed.
End MatcherFacts.

(* ===================================================================== *)
(** * The reference parser: supporting facts                              *)
(* ===================================================================== *)

Section ParserFacts.

Lemma firstn_prefix_length (n : nat) (s : jsstring) :
  (n <= List.length s)%nat -> List.length (firstn n s) = n.
Proof. intros H. rewrite length_firstn. lia. Qed.

Lemma prefix_alt_inv (R : Type) (l : jsstring) (pos : nat) (s : jsstring)
      (caps : captures) (k : cont R) (res : R) :
  rmatch (Alt (Lit l) Bol) pos s caps k = Some res ->
  exists pre pos1 s1, s = pre ++ s1 /\ k pos1 s1 caps = Some res.
Proof.
  cbn [rmatch]. unfold or_else. intros H.
  destruct (drop_prefix l s) as [s1|] eqn:E.
  - destruct (k (pos + List.length l)%nat s1 caps) eqn:E1.
    + inversion H; subst. apply drop_prefix_app in E.
      eexists _, _, _; split; eauto.
    + destruct (Nat.eqb pos 0); [|discriminate].
      exists [], pos, s. auto.
  - destruct (Nat.eqb pos 0); [|discriminate].
    exists [], pos, s. auto.
Qed.

(** A match of the repository pattern at a position: the owner and the
    repository captured are well formed, and a slash separates them. *)
Lemma repo_re_match_at (pos : nat) (s : jsstring) (m : rmatch_result) :
  match_at Github.repo_re pos s = Some m ->
  exists o r,
    capture 1 (m_caps m) = o /\ capture 2 (m_caps m) = r /\
    well_formed_owner o /\ well_formed_repo r /\ In slash s.
Proof.
  unfold match_at, Github.repo_re.
  change (rmatch (Seq ?a ?b) pos s [] ?k)
    with (rmatch a pos s [] (fun pos' s' caps' => rmatch b pos' s' caps' k)).
  intros H. apply prefix_alt_inv in H.
  destruct H as (pre & pos1 & s1 & Hs & H).
  cbn [rmatch] in H.
  apply rep_class_inv in H.
  destruct H as (n1 & Hn1 & Hmax1 & Hall1 & H).
  destruct (drop_prefix (js "/") (skipn n1 s1)) as [s2|] eqn:E2; [|discriminate].
  apply drop_prefix_app in E2.
  apply rep_class_inv in H.
  destruct H as (n2 & Hn2 & _ & Hall2 & H).
  inversion H; subst m; clear H. simpl.
  replace (pos1 + n1 - pos1)%nat with n1 by lia.
  replace (pos1 + n1 + 1 + n2 - (pos1 + n1 + 1))%nat with n2 by lia.
  exists (firstn n1 s1), (firstn n2 s2).
  repeat split; auto.
  - rewrite firstn_prefix_length; lia.
  - rewrite firstn_prefix_length; lia.
  - rewrite firstn_prefix_length; lia.
  - subst s. rewrite <- (firstn_skipn n1 s1), E2.
    apply in_or_app; right. apply in_or_app; right. left. reflexivity.
Qed.

Lemma search_from_suffix (r : regex) :
  forall s pos m,
    search_from r pos s = Some m ->
    exists pre s' pos', s = pre ++ s' /\ match_at r pos' s' = Some m.
Proof.
  induction s as [|c s IH]; intros pos m H; simpl in H.
  - destruct (match_at r pos []) eqn:E; [|discriminate].
    inversion H; subst. exists [], [], pos. auto.
  - destruct (match_at r pos (c :: s)) eqn:E.
    + inversion H; subst. exists [], (c :: s), pos. auto.
    + apply IH in H. destruct H as (pre & s' & pos' & -> & H).
      exists (c :: pre), s', pos'. auto.
Qed.

(** What one link contributes: nothing, or one well-formed reference
    with its canonical URL. *)
Lemma parse_link_cases (link : jsstring) :
  Github.parse_link link = [] \/
  exists o r,
    Github.parse_link link =
      [ {| Github.owner := o; Github.repo := r; Github.url := canonical_url o r |} ]
    /\ well_formed_owner o /\ well_formed_repo r
    /\ In slash (replace_empty Github.trailing_slash_re (trim link)).
Proof.
  unfold Github.parse_link.
  destruct (exec Github.repo_re
              (replace_empty Github.trailing_slash_re (trim link))) as [m|] eqn:E;
    [|left; reflexivity].
  unfold exec in E. apply search_from_suffix in E.
  destruct E as (pre & s' & pos' & Hs & E).
  apply repo_re_match_at in E.
  destruct E as (o & r & Ho & Hr & Hwo & Hwr & Hin).
  rewrite Ho, Hr.
  destruct o as [|c o]; [destruct Hwo as [Hl _]; simpl in Hl; lia|].
  destruct r as [|d r]; [destruct Hwr as [Hl _]; simpl in Hl; lia|].
  right. exists (c :: o), (d :: r). simpl. repeat split; auto.
  - apply Hwo.
  - apply Hwo.
  - apply Hwo.
  - apply Hwr.
  - apply Hwr.
  - rewrite Hs. apply in_or_app; right. exact Hin.
Qed.

End ParserFacts.

(** ** Deduplication through the [Map] *)

Section DedupFacts.

Lemma map_set_keys (k : jsstring) (v : Github.RepoReference) m :
  List.map fst (Github.map_set k v m) =
    if existsb (str_eqb k) (List.map fst m)
    then List.map fst m
    else List.map fst m ++ [k].
Proof.
  induction m as [|[k' v'] m IH]; simpl; [reflexivity|].
  destruct (str_eqb k k') eqn:E; simpl; [reflexivity|].
  rewrite IH. destruct (existsb (str_eqb k) (List.map fst m)); reflexivity.
Qed.

Lemma map_set_nodup (k : jsstring) (v : Github.RepoReference) m :
  NoDup (List.map fst m) -> NoDup (List.map fst (Github.map_set k v m)).
Proof.
  intros H. rewrite map_set_keys.
  destruct (existsb (str_eqb k) (List.map fst m)) eqn:E; [exact H|].
  apply NoDup_app; [exact H | repeat constructor; simpl; tauto |].
  intros x Hx [<-|[]].
  assert (existsb (str_eqb k) (List.map fst m) = true); [|congruence].
  apply existsb_exists. exists k. split; [exact Hx | apply str_eqb_refl].
Qed.

Lemma map_set_in (k : jsstring) (v : Github.RepoReference) m kv :
  In kv (Github.map_set k v m) -> kv = (k, v) \/ In kv m.
Proof.
  induction m as [|[k' v'] m IH]; simpl.
  - intros [<-|[]]; auto.
  - destruct (str_eqb k k') eqn:E; simpl.
    + apply str_eqb_eq in E. subst k'. intros [<-|H]; auto.
    + intros [<-|H]; auto. destruct (IH H); auto.
Qed.

Lemma map_set_keyed (v : Github.RepoReference) m :
  keyed m -> keyed (Github.map_set (Github.url v) v m).
Proof.
  unfold keyed. rewrite !Forall_forall. intros H kv Hin.
  apply map_set_in in Hin. destruct Hin as [->|Hin]; auto.
Qed.

Lemma unique_invariant (repos : list Github.RepoReference) :
  forall m,
    keyed m -> NoDup (List.map fst m) ->
    let unique := fold_left (fun m r => Github.map_set (Github.url r) r m) repos m in
    keyed unique /\ NoDup (List.map fst unique) /\
    (forall kv, In kv unique -> In kv m \/ In (snd kv) repos).
Proof.
  induction repos as [|r repos IH]; intros m Hk Hn; simpl.
  - auto.
  - destruct (IH (Github.map_set (Github.url r) r m)) as (H1 & H2 & H3).
    + apply map_set_keyed; exact Hk.
    + apply map_set_nodup; exact Hn.
    + repeat split; auto.
      intros kv Hin. destruct (H3 kv Hin) as [H|H]; auto.
      apply map_set_in in H. destruct H as [->|H]; auto.
Qed.

Lemma keyed_urls m : keyed m -> List.map Github.url (List.map snd m) = List.map fst m.
Proof.
  induction 1 as [|kv m H _ IH]; simpl; [reflexivity|].
  rewrite IH, H. reflexivity.
Qed.

End DedupFacts.

(** ** Splitting on separators, trimming, the trailing slash *)

Section TokenFacts.

Lemma match_separators_none (pos : nat) (c : N) (s : jsstring) :
  Github.is_separator c = false ->
  match_at Github.separators_re pos (c :: s) = None.
Proof.
  intros H. unfold match_at, Github.separators_re. cbn [rmatch].
  apply rep_class_none; auto.
Qed.

Lemma match_separators_run (pos : nat) (sep rest : jsstring) :
  all_separators sep -> (1 <= List.length sep)%nat ->
  match rest with
  | c :: _ => Github.is_separator c = false
  | [] => True
  end ->
  match_at Github.separators_re pos (sep ++ rest) =
    Some {| m_start := pos; m_end := pos + List.length sep; m_caps := [] |}.
Proof.
  intros Hall Hlen Hrest. unfold match_at, Github.separators_re. cbn [rmatch].
  apply rep_class_run; auto.
Qed.

Lemma split_loop_token (pos : nat) (tok rest cur : jsstring) :
  no_separator tok ->
  split_loop Github.separators_re pos (tok ++ rest) cur 0 =
    split_loop Github.separators_re (pos + List.length tok) rest (rev tok ++ cur) 0.
Proof.
  revert pos cur. induction tok as [|c tok IH]; intros pos cur H; simpl.
  - rewrite Nat.add_0_r. reflexivity.
  - inversion H; subst. rewrite match_separators_none by assumption.
    rewrite IH by assumption. rewrite <- app_assoc. simpl.
    rewrite Nat.add_succ_r. reflexivity.
Qed.

Lemma split_loop_skip (pos : nat) (sep rest : jsstring) :
  split_loop Github.separators_re pos (sep ++ rest) [] (List.length sep) =
    split_loop Github.separators_re (pos + List.length sep) rest [] 0.
Proof.
  revert pos. induction sep as [|c sep IH]; intros pos; simpl.
  - rewrite Nat.add_0_r. reflexivity.
  - rewrite IH. rewrite Nat.add_succ_r. reflexivity.
Qed.

Lemma split_loop_separators (pos : nat) (sep rest cur : jsstring) :
  all_separators sep -> (1 <= List.length sep)%nat ->
  match rest with
  | c :: _ => Github.is_separator c = false
  | [] => True
  end ->
  split_loop Github.separators_re pos (sep ++ rest) cur 0 =
    rev cur :: split_loop Github.separators_re (pos + List.length sep) rest [] 0.
Proof.
  intros Hall Hlen Hrest.
  destruct sep as [|c sep]; [simpl in Hlen; lia|].
  change ((c :: sep) ++ rest) with (c :: (sep ++ rest)).
  cbn [split_loop].
  change (c :: (sep ++ rest)) with ((c :: sep) ++ rest).
  rewrite match_separators_run by assumption.
  cbn [m_end]. simpl List.length.
  replace (Nat.eqb (pos + S (List.length sep)) pos) with false
    by (symmetry; apply Nat.eqb_neq; lia).
  replace (pos + S (List.length sep) - pos - 1)%nat with (List.length sep) by lia.
  rewrite split_loop_skip. rewrite Nat.add_succ_r. reflexivity.
Qed.

(** A token alone, and two tokens around a run of separators. *)
Lemma split_one (x : jsstring) :
  x <> [] -> no_separator x -> split Github.separators_re x = [x].
Proof.
  intros Hne Hx. destruct x as [|c x]; [congruence|].
  unfold split.
  rewrite <- (app_nil_r (c :: x)) at 1.
  rewrite split_loop_token by assumption.
  rewrite app_nil_r. cbn [split_loop]. rewrite rev_involutive. reflexivity.
Qed.

Lemma split_two (x sep y : jsstring) :
  x <> [] -> no_separator x -> y <> [] -> no_separator y ->
  sep <> [] -> all_separators sep ->
  split Github.separators_re (x ++ sep ++ y) = [x; y].
Proof.
  intros Hx Hnx Hy Hny Hs Hsep.
  destruct x as [|c x]; [congruence|].
  unfold split. change ((c :: x) ++ sep ++ y) with (c :: (x ++ sep ++ y)).
  cbv iota. change (c :: (x ++ sep ++ y)) with ((c :: x) ++ sep ++ y).
  rewrite split_loop_token by assumption.
  rewrite split_loop_separators; auto.
  - rewrite app_nil_r, rev_involutive.
    rewrite <- (app_nil_r y) at 1.
    rewrite split_loop_token by assumption.
    rewrite app_nil_r. cbn [split_loop]. rewrite rev_involutive. reflexivity.
  - destruct sep; [congruence | simpl; lia].
  - destruct y as [|d y]; [congruence|]. inversion Hny; auto.
Qed.

Lemma separator_space (c : N) :
  Github.is_separator c = false -> is_space c = false.
Proof.
  unfold Github.is_separator. intros H.
  apply orb_false_iff in H. apply H.
Qed.

Lemma trimStart_id (s : jsstring) :
  Forall (fun c => is_space c = false) s -> trimStart s = s.
Proof. intros H. destruct H as [|c s Hc _]; simpl; [|rewrite Hc]; reflexivity. Qed.

Lemma trim_token (s : jsstring) : no_separator s -> trim s = s.
Proof.
  intros H.
  assert (Hs : Forall (fun c => is_space c = false) s).
  { eapply Forall_impl; [|exact H]. intros c; apply separator_space. }
  unfold trim, trimEnd. rewrite (trimStart_id Hs).
  rewrite (trimStart_id (Forall_rev Hs)). apply rev_involutive.
Qed.

Lemma match_trailing_slash (pos : nat) (s : jsstring) :
  match_at Github.trailing_slash_re pos s =
    match s with
    | [c] => if N.eqb slash c
             then Some {| m_start := pos; m_end := pos + 1; m_caps := [] |}
             else None
    | _ => None
    end.
Proof.
  unfold match_at, Github.trailing_slash_re. cbn [rmatch].
  destruct s as [|c [|d s]]; cbn [drop_prefix js List.map list_ascii_of_string];
    try reflexivity; unfold slash;
    change (N_of_ascii "/") with 47%N;
    destruct (N.eqb 47 c); reflexivity.
Qed.

Lemma search_from_cons (r : regex) (pos : nat) (c : N) (s : jsstring) :
  search_from r pos (c :: s) =
    match match_at r pos (c :: s) with
    | Some m => Some m
    | None => search_from r (S pos) s
    end.
Proof. reflexivity. Qed.

Lemma search_trailing_slash (x : jsstring) :
  forall pos,
    search_from Github.trailing_slash_re pos (x ++ js "/") =
      Some {| m_start := pos + List.length x;
              m_end := pos + List.length x + 1;
              m_caps := [] |}.
Proof.
  induction x as [|c x IH]; intros pos.
  - simpl List.length. rewrite Nat.add_0_r.
    change ([] ++ js "/") with [slash]. rewrite search_from_cons.
    rewrite match_trailing_slash. reflexivity.
  - change ((c :: x) ++ js "/") with (c :: (x ++ js "/")).
    rewrite search_from_cons, match_trailing_slash.
    assert (E : exists d rest, x ++ js "/" = d :: rest)
      by (destruct x; [exists slash, []; reflexivity | simpl; eauto]).
    destruct E as (d & rest & E). rewrite E at 1.
    rewrite IH. cbn [List.length].
    replace (S pos + List.length x)%nat with (pos + S (List.length x))%nat by lia.
    reflexivity.
Qed.

Lemma search_no_trailing_slash (x : jsstring) :
  forall pos,
    last x 0%N <> slash ->
    search_from Github.trailing_slash_re pos x = None.
Proof.
  induction x as [|c x IH]; intros pos Hlast.
  - reflexivity.
  - rewrite search_from_cons, match_trailing_slash.
    destruct x as [|d x].
    + simpl in Hlast. destruct (N.eqb_spec slash c); [congruence | reflexivity].
    + apply IH. exact Hlast.
Qed.

Lemma strip_trailing_slash (x : jsstring) :
  replace_empty Github.trailing_slash_re (x ++ js "/") = x.
Proof.
  unfold replace_empty, exec. rewrite search_trailing_slash.
  cbn [m_start m_end Nat.add].
  rewrite firstn_app, Nat.sub_diag, firstn_all.
  rewrite skipn_app, skipn_all2 by lia.
  replace (List.length x + 1 - List.length x)%nat with 1%nat by lia.
  change (skipn 1 (js "/")) with (@nil N).
  cbn [firstn]. rewrite !app_nil_r. reflexivity.
Qed.

Lemma keep_without_trailing_slash (x : jsstring) :
  last x 0%N <> slash -> replace_empty Github.trailing_slash_re x = x.
Proof.
  intros H. unfold replace_empty, exec.
  rewrite search_no_trailing_slash by exact H. reflexivity.
Qed.

End TokenFacts.

(** ** The reference parser: what the output is made of *)

Section ParserOutput.

Lemma split_loop_chars (r : regex) (c : N) :
  forall s pos cur skip piece,
    In piece (split_loop r pos s cur skip) -> In c piece ->
    In c s \/ In c cur.
Proof.
  induction s as [|d s IH]; intros pos cur skip piece Hp Hc.
  - simpl in Hp. destruct Hp as [<-|[]]. right. apply in_rev. exact Hc.
  - cbn [split_loop] in Hp. destruct skip as [|n].
    + destruct (match_at r pos (d :: s)) as [m|].
      * destruct (Nat.eqb (m_end m) pos).
        -- destruct cur as [|e cur].
           ++ destruct (IH _ _ _ _ Hp Hc) as [H|[<-|[]]]; simpl; auto.
           ++ destruct Hp as [<-|Hp].
              ** right. apply in_rev. exact Hc.
              ** destruct (IH _ _ _ _ Hp Hc) as [H|[<-|[]]]; simpl; auto.
        -- destruct Hp as [<-|Hp].
           ++ right. apply in_rev. exact Hc.
           ++ destruct (IH _ _ _ _ Hp Hc) as [H|[]]; simpl; auto.
      * destruct (IH _ _ _ _ Hp Hc) as [H|[<-|H]]; simpl; auto.
    + destruct (IH _ _ _ _ Hp Hc) as [H|[]]; simpl; auto.
Qed.

Lemma split_chars (r : regex) (c : N) (s piece : jsstring) :
  In piece (split r s) -> In c piece -> In c s.
Proof.
  unfold split. destruct s as [|d s].
  - destruct (match_at r 0 []); [intros []|intros [<-|[]] []].
  - intros Hp Hc. destruct (split_loop_chars r c _ _ _ _ _ Hp Hc) as [H|[]].
    exact H.
Qed.

Lemma trimStart_chars (c : N) (s : jsstring) : In c (trimStart s) -> In c s.
Proof.
  induction s as [|d s IH]; simpl; [tauto|].
  destruct (is_space d); simpl; auto.
Qed.

Lemma trim_chars (c : N) (s : jsstring) : In c (trim s) -> In c s.
Proof.
  unfold trim, trimEnd. intros H.
  apply in_rev in H. apply trimStart_chars in H. apply in_rev in H.
  apply trimStart_chars in H. exact H.
Qed.

Lemma replace_empty_chars (r : regex) (c : N) (s : jsstring) :
  In c (replace_empty r s) -> In c s.
Proof.
  unfold replace_empty. destruct (exec r s) as [m|]; [|tauto].
  intros H. apply in_app_or in H.
  destruct H as [H|H].
  - rewrite <- (firstn_skipn (m_start m) s). apply in_or_app; auto.
  - rewrite <- (firstn_skipn (m_end m) s). apply in_or_app; auto.
Qed.

Lemma parse_link_same_clean (a b : jsstring) :
  replace_empty Github.trailing_slash_re (trim a) =
    replace_empty Github.trailing_slash_re (trim b) ->
  Github.parse_link a = Github.parse_link b.
Proof. unfold Github.parse_link. intros ->. reflexivity. Qed.

(** Every element of the output was contributed by a token of the input. *)
Lemma parseGithubInput_origin (input : jsstring) (r : Github.RepoReference) :
  In r (Github.parseGithubInput input) ->
  exists link,
    In link (split Github.separators_re input) /\ In r (Github.parse_link link).
Proof.
  unfold Github.parseGithubInput.
  set (rawLinks := filter _ _). set (repos := flat_map _ _).
  intros H. apply in_map_iff in H. destruct H as (kv & <- & H).
  destruct (@unique_invariant repos [] (Forall_nil _) (NoDup_nil _))
    as (_ & _ & Hin).
  destruct (Hin kv H) as [[]|Hr].
  unfold repos in Hr. apply in_flat_map in Hr.
  destruct Hr as (link & Hl & Hr).
  exists link. split; [|exact Hr].
  unfold rawLinks in Hl. apply filter_In in Hl. apply Hl.
Qed.

Lemma parseGithubInput_elements (input : jsstring) :
  Forall (fun r =>
            Github.url r = canonical_url (Github.owner r) (Github.repo r)
            /\ well_formed_owner (Github.owner r)
            /\ well_formed_repo (Github.repo r)
            /\ In slash input)
         (Github.parseGithubInput input).
Proof.
  apply Forall_forall. intros r Hr.
  apply parseGithubInput_origin in Hr. destruct Hr as (link & Hl & Hr).
  destruct (parse_link_cases link) as [E|(o & p & E & Ho & Hp & Hs)];
    rewrite E in Hr; [destruct Hr|].
  destruct Hr as [<-|[]]; simpl.
  repeat split; try apply Ho; try apply Hp.
  apply replace_empty_chars, trim_chars in Hs.
  eapply split_chars; eauto.
Qed.

Lemma parseGithubInput_unique_urls (input : jsstring) :
  NoDup (List.map Github.url (Github.parseGithubInput input)).
Proof.
  unfold Github.parseGithubInput.
  set (repos := flat_map _ _).
  destruct (@unique_invariant repos [] (Forall_nil _) (NoDup_nil _))
    as (Hk & Hn & _).
  rewrite keyed_urls by exact Hk. exact Hn.
Qed.

Lemma parseGithubInput_of_links (input : jsstring) (x : jsstring) (n : nat) :
  flat_map Github.parse_link
           (filter (fun t => negb (is_empty t))
                   (split Github.separators_re input))
    = repeat_links (Github.parse_link x) n ->
  (1 <= n)%nat ->
  Github.parseGithubInput input = Github.parse_link x.
Proof.
  unfold Github.parseGithubInput. intros -> Hn.
  destruct (parse_link_cases x) as [E|(o & p & E & _)]; rewrite E.
  - clear. induction n; simpl; auto.
  - destruct n as [|n]; [lia|]. simpl. clear.
    induction n as [|n IH]; simpl; [reflexivity|].
    rewrite str_eqb_refl. exact IH.
Qed.

End ParserOutput.

(* ===================================================================== *)
(** * The cleaning of fenced model output                                 *)
(* ===================================================================== *)

Section FenceFacts.

Lemma trimStart_split (s : jsstring) :
  exists run,
    s = run ++ trimStart s /\ all_space run /\
    match trimStart s with
    | c :: _ => is_space c = false
    | [] => True
    end.
Proof.
  induction s as [|c s IH]; simpl.
  - exists []. repeat split. constructor.
  - destruct (is_space c) eqn:E.
    + destruct IH as (run & Hs & Hall & Hh). exists (c :: run).
      split; [simpl; rewrite <- Hs; reflexivity|].
      split; [constructor; assumption | exact Hh].
    + exists []. repeat split; [constructor | exact E].
Qed.

Lemma trimStart_app (a b : jsstring) :
  match b with
  | c :: _ => is_space c = false
  | [] => True
  end ->
  trimStart (a ++ b) = trimStart a ++ b.
Proof.
  intros Hb. induction a as [|c a IH]; simpl.
  - destruct b as [|d b]; simpl; [reflexivity | rewrite Hb; reflexivity].
  - destruct (is_space c); [exact IH | reflexivity].
Qed.

Lemma trimStart_spaces (a b : jsstring) :
  all_space a -> trimStart (a ++ b) = trimStart b.
Proof.
  induction 1 as [|c a Hc _ IH]; simpl; [reflexivity|].
  rewrite Hc. exact IH.
Qed.

Lemma trimStart_head (s : jsstring) :
  match s with
  | c :: _ => is_space c = false
  | [] => True
  end ->
  trimStart s = s.
Proof. destruct s as [|c s]; simpl; [reflexivity | intros ->; reflexivity]. Qed.

Lemma trimStart_idem (s : jsstring) : trimStart (trimStart s) = trimStart s.
Proof.
  destruct (trimStart_split s) as (_ & _ & _ & H). apply trimStart_head. exact H.
Qed.

Lemma trim_trimStart (s : jsstring) : trim (trimStart s) = trim s.
Proof. unfold trim. rewrite trimStart_idem. reflexivity. Qed.

Lemma drop_prefix_self (l s : jsstring) : drop_prefix l (l ++ s) = Some s.
Proof. apply drop_prefix_app. reflexivity. Qed.

Lemma startsWith_drop_prefix (l : jsstring) :
  forall s, startsWith s l = false -> drop_prefix l s = None.
Proof.
  induction l as [|c l IH]; intros [|d s]; simpl; try discriminate; auto.
  destruct (N.eqb c d); simpl; auto.
Qed.

Lemma startsWith_app_self (l s : jsstring) : startsWith (l ++ s) l = true.
Proof.
  induction l as [|c l IH]; simpl; [destruct s; reflexivity|].
  rewrite N.eqb_refl. exact IH.
Qed.

Lemma startsWith_longer (p q : jsstring) :
  forall s, startsWith s p = false -> startsWith s (p ++ q) = false.
Proof.
  induction p as [|c p IH]; intros [|d s]; simpl; try discriminate; auto.
  destruct (N.eqb c d); simpl; auto.
Qed.

Lemma search_from_here (r : regex) (pos : nat) (s : jsstring) (m : rmatch_result) :
  match_at r pos s = Some m -> search_from r pos s = Some m.
Proof. intros H. destruct s; simpl; rewrite H; reflexivity. Qed.

Lemma search_anchored_later (r : regex) :
  forall s pos, pos <> 0%nat -> search_from (Seq Bol r) pos s = None.
Proof.
  assert (Hm : forall s pos, pos <> 0%nat -> match_at (Seq Bol r) pos s = None).
  { intros s pos H. unfold match_at. cbn [rmatch].
    destruct (Nat.eqb_spec pos 0); [contradiction | reflexivity]. }
  induction s as [|c s IH]; intros pos H.
  - simpl. rewrite Hm by exact H. reflexivity.
  - rewrite search_from_cons, Hm by exact H. apply IH. discriminate.
Qed.

(** [/^l\s*/]: the literal at the start, with the white space after it. *)
Lemma match_open (l run rest : jsstring) :
  all_space run ->
  match rest with
  | c :: _ => is_space c = false
  | [] => True
  end ->
  match_at (Seq Bol (Seq (Lit l) (CharSet is_space 0 None))) 0 (l ++ run ++ rest)
  = Some {| m_start := 0; m_end := List.length l + List.length run; m_caps := [] |}.
Proof.
  intros Hrun Hrest. unfold match_at. cbn [rmatch Nat.eqb].
  rewrite drop_prefix_self.
  apply rep_class_run; auto. lia.
Qed.

Lemma replace_open (l s : jsstring) :
  replace_empty (Seq Bol (Seq (Lit l) (CharSet is_space 0 None))) (l ++ s)
  = trimStart s.
Proof.
  destruct (trimStart_split s) as (run & Hs & Hrun & Hrest).
  set (rest := trimStart s) in *. clearbody rest. subst s.
  unfold replace_empty, exec.
  rewrite (@search_from_here _ _ _ _ (@match_open l run rest Hrun Hrest)).
  cbn [m_start m_end firstn app].
  rewrite app_assoc, <- length_app, skipn_app, skipn_all, Nat.sub_diag.
  reflexivity.
Qed.

Lemma replace_open_none (l s : jsstring) :
  startsWith s l = false ->
  replace_empty (Seq Bol (Seq (Lit l) (CharSet is_space 0 None))) s = s.
Proof.
  intros H. unfold replace_empty, exec.
  assert (Hm : match_at (Seq Bol (Seq (Lit l) (CharSet is_space 0 None))) 0 s
               = None).
  { unfold match_at. cbn [rmatch Nat.eqb].
    rewrite startsWith_drop_prefix by exact H. reflexivity. }
  destruct s as [|c s].
  - simpl. rewrite Hm. reflexivity.
  - rewrite search_from_cons, Hm, search_anchored_later by discriminate.
    reflexivity.
Qed.

(** [/l$/]: the literal at the end of the input. *)
Lemma match_close (l : jsstring) (pos : nat) (s : jsstring) :
  match_at (Seq (Lit l) Eol) pos s =
    if str_eqb s l
    then Some {| m_start := pos; m_end := pos + List.length l; m_caps := [] |}
    else None.
Proof.
  unfold match_at. cbn [rmatch].
  destruct (drop_prefix l s) as [rest|] eqn:E.
  - apply drop_prefix_app in E. subst s.
    destruct rest as [|c rest].
    + rewrite app_nil_r, str_eqb_refl. reflexivity.
    + destruct (str_eqb (l ++ c :: rest) l) eqn:E2; [|reflexivity].
      apply str_eqb_eq in E2. apply (f_equal (@List.length N)) in E2.
      rewrite length_app in E2. simpl in E2. lia.
  - destruct (str_eqb s l) eqn:E2; [|reflexivity].
    apply str_eqb_eq in E2. subst s.
    rewrite <- (app_nil_r l) in E at 2. rewrite drop_prefix_self in E.
    discriminate.
Qed.

Lemma search_close (l : jsstring) :
  forall x pos,
    search_from (Seq (Lit l) Eol) pos (x ++ l) =
      Some {| m_start := pos + List.length x;
              m_end := pos + List.length x + List.length l;
              m_caps := [] |}.
Proof.
  induction x as [|c x IH]; intros pos.
  - simpl app. simpl List.length. rewrite Nat.add_0_r.
    apply search_from_here. rewrite match_close, str_eqb_refl. reflexivity.
  - change ((c :: x) ++ l) with (c :: (x ++ l)).
    rewrite search_from_cons, match_close.
    destruct (str_eqb (c :: x ++ l) l) eqn:E.
    + apply str_eqb_eq in E. apply (f_equal (@List.length N)) in E.
      simpl in E. rewrite length_app in E. lia.
    + rewrite IH. simpl List.length.
      replace (S pos + List.length x)%nat with (pos + S (List.length x))%nat
        by lia.
      reflexivity.
Qed.

Lemma search_close_none (l : jsstring) :
  l <> [] ->
  forall s pos,
    (forall x, s <> x ++ l) -> search_from (Seq (Lit l) Eol) pos s = None.
Proof.
  intros Hl. induction s as [|c s IH]; intros pos H.
  - simpl. rewrite match_close.
    destruct l; [congruence | reflexivity].
  - rewrite search_from_cons, match_close.
    destruct (str_eqb (c :: s) l) eqn:E.
    + apply str_eqb_eq in E. exfalso. apply (H []). exact E.
    + apply IH. intros x Hx. apply (H (c :: x)). rewrite Hx. reflexivity.
Qed.

Lemma replace_close (l x : jsstring) :
  replace_empty (Seq (Lit l) Eol) (x ++ l) = x.
Proof.
  unfold replace_empty, exec. rewrite search_close.
  cbn [m_start m_end Nat.add].
  rewrite firstn_app, Nat.sub_diag, firstn_all. cbn [firstn].
  rewrite <- length_app, skipn_all. rewrite !app_nil_r. reflexivity.
Qed.

Lemma replace_close_none (l s : jsstring) :
  l <> [] -> (forall x, s <> x ++ l) ->
  replace_empty (Seq (Lit l) Eol) s = s.
Proof.
  intros Hl H. unfold replace_empty, exec.
  rewrite search_close_none by assumption. reflexivity.
Qed.

(** A string whose reverse does not start with the reverse of [l] does
    not end with [l]. *)
Lemma not_suffix (l s : jsstring) :
  startsWith (rev s) (rev l) = false -> forall x, s <> x ++ l.
Proof.
  intros H x Hx. subst s. rewrite rev_app_distr, startsWith_app_self in H.
  discriminate.
Qed.

Lemma startsWith_app_cancel (l s p : jsstring) :
  startsWith (l ++ s) (l ++ p) = startsWith s p.
Proof.
  induction l as [|c l IH]; simpl; [reflexivity|].
  rewrite N.eqb_refl. exact IH.
Qed.

(** A body that does not start with the tag does not start with it
    either when a fence follows it. *)
Lemma startsWith_before_fence (tag : jsstring) :
  Forall (fun c => c <> backtick) tag ->
  forall body,
    startsWith body tag = false -> startsWith (body ++ fence) tag = false.
Proof.
  induction 1 as [|c tag Hc _ IH]; intros body Hb.
  - destruct body; discriminate Hb.
  - destruct body as [|d body].
    + change ([] ++ fence) with (backtick :: [backtick; backtick]).
      cbn [startsWith]. destruct (N.eqb_spec c backtick); [contradiction|].
      reflexivity.
    + cbn [startsWith app] in Hb |- *.
      destruct (N.eqb c d); [|reflexivity].
      cbn [andb] in Hb |- *. apply IH. exact Hb.
Qed.

Lemma fence_not_nil : fence <> [].
Proof. discriminate. Qed.

(** What follows the stripping of the tagged fence. *)
Lemma close_after_open (b : jsstring) :
  startsWith b fence = false ->
  match b with
  | c :: _ => is_space c = false
  | [] => True
  end ->
  trim (replace_empty fence_close_re (replace_empty fence_open_re (b ++ fence)))
  = trim b.
Proof.
  intros Hb Hh. unfold fence_close_re, fence_open_re. fold fence.
  destruct (startsWith (b ++ fence) fence) eqn:E.
  - (* [b] is made of fewer than three backticks *)
    change fence with [96%N; 96%N; 96%N] in Hb, E.
    destruct b as [|c1 [|c2 [|c3 b]]]; cbn [startsWith app] in Hb, E.
    + reflexivity.
    + destruct (N.eqb_spec 96 c1); [subst c1; reflexivity | discriminate E].
    + destruct (N.eqb_spec 96 c1); [subst c1 | discriminate E].
      destruct (N.eqb_spec 96 c2); [subst c2; reflexivity | discriminate E].
    + destruct (N.eqb 96 c1); [|discriminate E].
      destruct (N.eqb 96 c2); [|discriminate E].
      destruct (N.eqb 96 c3); [|discriminate E].
      destruct b; discriminate Hb.
  - rewrite replace_open_none by exact E.
    rewrite replace_close. reflexivity.
Qed.

End FenceFacts.

(* ===================================================================== *)
(** * The reference parser recognizes the usual forms of a link           *)
(* ===================================================================== *)

Section RecognizerFacts.

Local Abbreviation owner_repo_re :=
  (Seq (Group 1 (CharSet Github.is_owner_char 1 (Some 39)))
       (Seq (Lit (js "/")) (Group 2 (CharSet Github.is_repo_char 1 None)))).

Local Abbreviation found start :=
  (fun (e : nat) (_ : jsstring) (caps : captures) =>
     Some {| m_start := start; m_end := e; m_caps := caps |}).

Lemma owner_is_repo_char (c : N) :
  Github.is_owner_char c = true -> Github.is_repo_char c = true.
Proof.
  unfold Github.is_owner_char, Github.is_repo_char. intros H.
  apply orb_true_iff in H. destruct H as [-> | ->]; [reflexivity|].
  rewrite !orb_true_r. reflexivity.
Qed.

Lemma repo_not_separator (c : N) :
  Github.is_repo_char c = true -> Github.is_separator c = false.
Proof.
  unfold Github.is_repo_char, Github.is_separator, Github.is_alnum,
    Github.is_lower, Github.is_upper, Github.is_digit, is_space.
  intros H. apply not_true_is_false. intros E.
  repeat rewrite ?orb_true_iff, ?andb_true_iff, ?N.leb_le, ?N.eqb_eq in H.
  repeat rewrite ?orb_true_iff, ?andb_true_iff, ?N.leb_le, ?N.eqb_eq in E.
  lia.
Qed.

Lemma owner_not_separator (c : N) :
  Github.is_owner_char c = true -> Github.is_separator c = false.
Proof. intros H. apply repo_not_separator, owner_is_repo_char, H. Qed.

(** Greedy repetition over a run the next character ends, within the
    bounds. *)
Lemma rep_class_greedy (R : Type) (p : N -> bool) (k : cont R) :
  forall run rest min max pos caps res,
    Forall (fun c => p c = true) run ->
    match rest with
    | c :: _ => p c = false
    | [] => True
    end ->
    (min <= List.length run)%nat ->
    match max with
    | Some m => (List.length run <= m)%nat
    | None => True
    end ->
    k (pos + List.length run)%nat rest caps = Some res ->
    rep_class p min max pos (run ++ rest) caps k = Some res.
Proof.
  induction run as [|c run IH];
    intros rest min max pos caps res Hall Hrest Hmin Hmax Hk.
  - simpl in *. rewrite Nat.add_0_r in Hk.
    assert (min = 0)%nat by lia. subst min.
    destruct rest as [|d rest]; simpl; auto.
    rewrite Hrest. simpl. exact Hk.
  - inversion Hall; subst. simpl. rewrite H1.
    simpl in Hmin, Hk. rewrite Nat.add_succ_r in Hk.
    destruct max as [[|m]|]; simpl in Hmax; [lia| |]; simpl.
    + rewrite (IH rest (Nat.pred min) (Some m) (S pos) caps res); auto; lia.
    + rewrite (IH rest (Nat.pred min) None (S pos) caps res); auto; lia.
Qed.

(** The literal [github.com/] is not a prefix of an owner followed by
    a slash: its first character that cannot be in an owner is a dot. *)
Lemma find_after_run (p : N -> bool) (run : jsstring) (c : N) (rest : jsstring) :
  Forall (fun d => p d = true) run -> p c = false ->
  find (fun d => negb (p d)) (run ++ c :: rest) = Some c.
Proof.
  intros Hrun Hc. induction Hrun as [|d run Hd _ IH]; simpl.
  - rewrite Hc. reflexivity.
  - rewrite Hd. exact IH.
Qed.

Lemma host_not_owner (o rest : jsstring) :
  Forall (fun c => Github.is_owner_char c = true) o ->
  drop_prefix (js "github.com/") (o ++ js "/" ++ rest) = None.
Proof.
  intros Ho.
  destruct (drop_prefix (js "github.com/") (o ++ js "/" ++ rest)) as [s1|] eqn:E;
    [|reflexivity].
  apply drop_prefix_app in E.
  apply (f_equal (find (fun d => negb (Github.is_owner_char d)))) in E.
  change (js "/" ++ rest) with (slash :: rest) in E.
  rewrite find_after_run in E by (assumption || reflexivity).
  discriminate E.
Qed.

(** The owner, the slash and the repository, up to a character that
    cannot be in a repository name. *)
Lemma owner_repo_match (o r t : jsstring) (pos start : nat) :
  well_formed_owner o -> well_formed_repo r ->
  match t with
  | c :: _ => Github.is_repo_char c = false
  | [] => True
  end ->
  rmatch owner_repo_re pos (o ++ js "/" ++ r ++ t) [] (found start)
  = Some {| m_start := start;
            m_end := pos + List.length o + 1 + List.length r;
            m_caps := [(2%nat, r); (1%nat, o)] |}.
Proof.
  intros [Hlo Ho] [Hlr Hr] Ht. cbn [rmatch].
  apply rep_class_greedy; [exact Ho | reflexivity | lia | lia |].
  rewrite drop_prefix_self.
  apply rep_class_greedy; [exact Hr | exact Ht | lia | exact I |].
  change (List.length (js "/")) with 1%nat.
  replace (pos + List.length o + 1 + List.length r - (pos + List.length o + 1))%nat
    with (List.length r) by lia.
  replace (pos + List.length o - pos)%nat with (List.length o) by lia.
  rewrite !firstn_app, !Nat.sub_diag, !firstn_all. cbn [firstn].
  rewrite !app_nil_r. reflexivity.
Qed.

Lemma repo_re_unfold (pos : nat) (s : jsstring) :
  match_at Github.repo_re pos s =
    or_else
      match drop_prefix (js "github.com/") s with
      | Some s1 => rmatch owner_repo_re (pos + 11) s1 [] (found pos)
      | None => None
      end
      (if Nat.eqb pos 0 then rmatch owner_repo_re pos s [] (found pos) else None).
Proof. reflexivity. Qed.

(** No match starts inside the scheme of a URL. *)
Lemma search_after_scheme (s : jsstring) :
  search_from Github.repo_re 0 (js "https://" ++ s)
    = search_from Github.repo_re 8 s
  /\ search_from Github.repo_re 0 (js "http://" ++ s)
      = search_from Github.repo_re 7 s.
Proof. split; reflexivity. Qed.

Lemma match_at_host (o r t : jsstring) (pos : nat) :
  well_formed_owner o -> well_formed_repo r ->
  match t with
  | c :: _ => Github.is_repo_char c = false
  | [] => True
  end ->
  match_at Github.repo_re pos (js "github.com/" ++ o ++ js "/" ++ r ++ t)
  = Some {| m_start := pos;
            m_end := pos + 11 + List.length o + 1 + List.length r;
            m_caps := [(2%nat, r); (1%nat, o)] |}.
Proof.
  intros Ho Hr Ht. rewrite repo_re_unfold, drop_prefix_self.
  rewrite owner_repo_match by assumption. reflexivity.
Qed.

Lemma match_at_bare (o r t : jsstring) :
  well_formed_owner o -> well_formed_repo r ->
  match t with
  | c :: _ => Github.is_repo_char c = false
  | [] => True
  end ->
  match_at Github.repo_re 0 (o ++ js "/" ++ r ++ t)
  = Some {| m_start := 0;
            m_end := 0 + List.length o + 1 + List.length r;
            m_caps := [(2%nat, r); (1%nat, o)] |}.
Proof.
  intros Ho Hr Ht. rewrite repo_re_unfold.
  rewrite host_not_owner by apply Ho.
  cbn [or_else Nat.eqb]. apply owner_repo_match; assumption.
Qed.

Lemma exec_repo_re (prefix o r t : jsstring) :
  In prefix [ []; js "github.com/"; js "https://github.com/";
              js "http://github.com/" ] ->
  well_formed_owner o -> well_formed_repo r ->
  match t with
  | c :: _ => Github.is_repo_char c = false
  | [] => True
  end ->
  exists m,
    exec Github.repo_re (prefix ++ o ++ js "/" ++ r ++ t) = Some m /\
    m_caps m = [(2%nat, r); (1%nat, o)].
Proof.
  intros Hp Ho Hr Ht. unfold exec.
  destruct Hp as [<-|[<-|[<-|[<-|[]]]]].
  - eexists. split;
      [apply search_from_here; apply match_at_bare; assumption | reflexivity].
  - eexists. split;
      [apply search_from_here; apply match_at_host; assumption | reflexivity].
  - change (js "https://github.com/" ++ ?x)
      with (js "https://" ++ js "github.com/" ++ x).
    rewrite (proj1 (search_after_scheme _)).
    eexists. split;
      [apply search_from_here; apply match_at_host; assumption | reflexivity].
  - change (js "http://github.com/" ++ ?x)
      with (js "http://" ++ js "github.com/" ++ x).
    rewrite (proj2 (search_after_scheme _)).
    eexists. split;
      [apply search_from_here; apply match_at_host; assumption | reflexivity].
Qed.

Lemma no_separator_link (prefix o r tail : jsstring) :
  In prefix [ []; js "github.com/"; js "https://github.com/";
              js "http://github.com/" ] ->
  well_formed_owner o -> well_formed_repo r -> no_separator tail ->
  no_separator (prefix ++ o ++ js "/" ++ r ++ tail).
Proof.
  intros Hp [_ Ho] [_ Hr] Ht. unfold no_separator.
  repeat (apply Forall_app; split).
  - destruct Hp as [<-|[<-|[<-|[<-|[]]]]]; repeat constructor.
  - eapply Forall_impl; [|exact Ho]. apply owner_not_separator.
  - repeat constructor.
  - eapply Forall_impl; [|exact Hr]. apply repo_not_separator.
  - exact Ht.
Qed.

Lemma no_trailing_slash (x r : jsstring) :
  well_formed_repo r -> forall y, x ++ r <> y ++ js "/".
Proof.
  intros [Hl Hr] y Hy.
  destruct (@exists_last _ r) as (r' & d & E);
    [destruct r; [simpl in Hl; lia | discriminate]|].
  subst r. rewrite app_assoc in Hy. change (js "/") with [slash] in Hy.
  apply app_inj_tail in Hy. destruct Hy as [_ Hd]. subst d.
  apply Forall_app in Hr. destruct Hr as [_ Hr].
  inversion Hr as [|? ? Hs _]. cbv in Hs. discriminate Hs.
Qed.

(** What the removal of one trailing slash leaves of a link. *)
Lemma strip_slash_tail (p : N -> bool) (base tail : jsstring) :
  (forall y, base <> y ++ js "/") ->
  head_is p tail = false ->
  exists t,
    replace_empty Github.trailing_slash_re (base ++ tail) = base ++ t /\
    head_is p t = false.
Proof.
  intros Hbase Ht. unfold Github.trailing_slash_re.
  destruct (rev tail) as [|c rt] eqn:E;
    apply (f_equal (@rev N)) in E; rewrite rev_involutive in E; simpl in E;
    subst tail.
  - exists []. rewrite app_nil_r. split; [|reflexivity].
    apply replace_close_none; [discriminate | exact Hbase].
  - destruct (N.eqb_spec c slash) as [->|Hc].
    + exists (rev rt). split.
      * rewrite app_assoc. apply (replace_close (js "/")).
      * destruct (rev rt); [reflexivity | exact Ht].
    + exists (rev rt ++ [c]). split; [|exact Ht].
      apply replace_close_none; [discriminate|].
      intros y Hy. rewrite app_assoc in Hy. change (js "/") with [slash] in Hy.
      apply app_inj_tail in Hy. destruct Hy as [_ Hy]. congruence.
Qed.

Lemma parse_link_recognizes (prefix o r tail : jsstring) :
  In prefix [ []; js "github.com/"; js "https://github.com/";
              js "http://github.com/" ] ->
  well_formed_owner o -> well_formed_repo r -> no_separator tail ->
  head_is Github.is_repo_char tail = false ->
  Github.parse_link (prefix ++ o ++ js "/" ++ r ++ tail)
  = [ {| Github.owner := o; Github.repo := r;
         Github.url := canonical_url o r |} ].
Proof.
  intros Hp Ho Hr Hns Ht. unfold Github.parse_link.
  rewrite trim_token by (apply no_separator_link; assumption).
  replace (prefix ++ o ++ js "/" ++ r ++ tail)
    with (((prefix ++ o ++ js "/") ++ r) ++ tail)
    by (rewrite <- !app_assoc; reflexivity).
  destruct (@strip_slash_tail Github.is_repo_char
              ((prefix ++ o ++ js "/") ++ r) tail
              (no_trailing_slash _ Hr) Ht) as (t & -> & Ht').
  rewrite <- !app_assoc.
  destruct (@exec_repo_re prefix o r t Hp Ho Hr) as (m & -> & Hcaps).
  { destruct t; [exact I | exact Ht']. }
  rewrite Hcaps. cbn [capture Nat.eqb].
  destruct Ho as [Hlo _], Hr as [Hlr _].
  destruct o; [simpl in Hlo; lia|]. destruct r; [simpl in Hlr; lia|].
  reflexivity.
Qed.

Lemma parseGithubInput_token (x : jsstring) :
  x <> [] -> no_separator x ->
  Github.parseGithubInput x = Github.parse_link x.
Proof.
  intros Hx Hnx. apply (@parseGithubInput_of_links x x 1); [|lia].
  rewrite split_one by assumption.
  destruct x; [congruence|]. simpl. rewrite !app_nil_r. reflexivity.
Qed.

End RecognizerFacts.

(* ===================================================================== *)
(** * C7: the reference parser                                            *)
(* ===================================================================== *)

Lemma slash_not_separator : Github.is_separator slash = false.
Proof. reflexivity. Qed.

Lemma no_separator_with_slash (x : jsstring) :
  no_separator x -> no_separator (x ++ js "/").
Proof.
  intros H. apply Forall_app. split; [exact H|].
  repeat constructor.
Qed.

(** The same link, bare and with a trailing slash, cleans to the same
    text, so both mentions contribute the same reference. *)
Lemma parse_link_trailing_slash (x : jsstring) :
  no_separator x -> last x 0%N <> slash ->
  Github.parse_link (x ++ js "/") = Github.parse_link x.
Proof.
  intros Hx Hlast. apply parse_link_same_clean.
  rewrite (trim_token (no_separator_with_slash Hx)), (trim_token Hx).
  rewrite strip_trailing_slash, keep_without_trailing_slash by exact Hlast.
  reflexivity.
Qed.

(** A token fed twice, once bare and once with a trailing slash,
    contributes what its one mention contributes. *)
Lemma parseGithubInput_twice (x sep : jsstring) :
  x <> [] -> no_separator x -> last x 0%N <> slash ->
  sep <> [] -> all_separators sep ->
  Github.parseGithubInput (x ++ sep ++ x ++ js "/") = Github.parse_link x.
Proof.
  intros Hx Hnx Hlast Hsep Hall.
  apply (@parseGithubInput_of_links (x ++ sep ++ x ++ js "/") x 2); [|lia].
  rewrite split_two; auto.
  - assert (E1 : is_empty x = false)
      by (destruct x; [congruence | reflexivity]).
    assert (E2 : is_empty (x ++ js "/") = false)
      by (destruct x; [congruence | reflexivity]).
    cbn [filter]. rewrite E1, E2. cbn [negb flat_map repeat_links].
    rewrite parse_link_trailing_slash by assumption. reflexivity.
  - destruct x; discriminate.
  - apply no_separator_with_slash; assumption.
Qed.

(** A link does not end with a slash: its last character is one of the
    name of the repository. *)
Lemma link_last_not_slash (a r : jsstring) :
  well_formed_repo r -> last (a ++ r) 0%N <> slash.
Proof.
  intros [Hl Hr].
  destruct (@exists_last _ r) as (r' & d & E);
    [destruct r; [simpl in Hl; lia | discriminate]|].
  subst r. rewrite app_assoc, last_last.
  apply Forall_app in Hr. destruct Hr as [_ Hr].
  inversion Hr as [|? ? Hs _]. intros ->. cbv in Hs. discriminate Hs.
Qed.

(** C7. For every input string of the reference parser
    [parseGithubInput]: each (owner, repo) pair appears at most once in
    the output; the URL of every output element is
    ["https://github.com/"] followed by its owner, a slash and its repo,
    and both are well formed (owner: 1 to 39 characters of
    [[a-zA-Z0-9-]], repo: at least one character of [[a-zA-Z0-9-_.]]);
    malformed tokens yield nothing: an input without a slash, such as
    ["not a url"], and ["///"] give the empty output; a token [x] fed
    twice, once bare and once with a trailing slash, separated by any
    run of white space and commas, gives what [x] alone gives, which is
    at most one element; and a link fed so (a well-formed owner and
    repository name joined by a slash, alone or after ["github.com/"],
    ["https://github.com/"] or ["http://github.com/"]) gives exactly one
    element: the reference to its repository. *)
Theorem parseGithubInput_unique_canonical :
  (forall input,
     NoDup (List.map (fun r => (Github.owner r, Github.repo r))
                     (Github.parseGithubInput input)) /\
     Forall (fun r =>
               Github.url r =
                 js "https://github.com/" +++ Github.owner r +++ js "/"
                    +++ Github.repo r
               /\ well_formed_owner (Github.owner r)
               /\ well_formed_repo (Github.repo r))
            (Github.parseGithubInput input)) /\
  (forall input, ~ In slash input -> Github.parseGithubInput input = []) /\
  Github.parseGithubInput (js "not a url") = [] /\
  Github.parseGithubInput (js "///") = [] /\
  (forall x sep,
     x <> [] -> no_separator x -> last x 0%N <> slash ->
     sep <> [] -> all_separators sep ->
     Github.parseGithubInput (x ++ sep ++ x ++ js "/")
       = Github.parseGithubInput x
     /\ (List.length (Github.parseGithubInput x) <= 1)%nat) /\
  (forall prefix o r sep,
     In prefix [ []; js "github.com/"; js "https://github.com/";
                 js "http://github.com/" ] ->
     well_formed_owner o -> well_formed_repo r ->
     sep <> [] -> all_separators sep ->
     Github.parseGithubInput
       ((prefix +++ o +++ js "/" +++ r) +++ sep
          +++ (prefix +++ o +++ js "/" +++ r) +++ js "/")
     = [ {| Github.owner := o; Github.repo := r;
            Github.url := js "https://github.com/" +++ o +++ js "/" +++ r |} ]
     /\ List.length
          (Github.parseGithubInput
             ((prefix +++ o +++ js "/" +++ r) +++ sep
                +++ (prefix +++ o +++ js "/" +++ r) +++ js "/")) = 1%nat).
Proof.
  split; [|split; [|split; [|split; [|split]]]].
  - intros input. pose proof (parseGithubInput_elements input) as Hel.
    split.
    + pose proof (parseGithubInput_unique_urls input) as Hn.
      replace (List.map Github.url (Github.parseGithubInput input))
        with (List.map (fun p => canonical_url (fst p) (snd p))
                (List.map (fun r => (Github.owner r, Github.repo r))
                          (Github.parseGithubInput input))) in Hn.
      * apply NoDup_map_inv in Hn. exact Hn.
      * rewrite map_map. apply map_ext_in. intros r Hr.
        rewrite Forall_forall in Hel. symmetry. apply (Hel r Hr).
    + eapply Forall_impl; [|exact Hel]. intros r (H1 & H2 & H3 & _). auto.
  - intros input Hno. pose proof (parseGithubInput_elements input) as Hel.
    destruct (Github.parseGithubInput input) as [|r out]; [reflexivity|].
    inversion Hel as [|? ? (_ & _ & _ & Hin) _]. contradiction.
  - reflexivity.
  - reflexivity.
  - intros x sep Hx Hnx Hlast Hsep Hall.
    rewrite parseGithubInput_twice, parseGithubInput_token by assumption.
    split; [reflexivity|].
    destruct (parse_link_cases x) as [E|(o & p & E & _)]; rewrite E; simpl; lia.
  - intros prefix o r sep Hp Ho Hr Hsep Hall.
    assert (Hlink : Github.parseGithubInput
                      ((prefix +++ o +++ js "/" +++ r) +++ sep
                         +++ (prefix +++ o +++ js "/" +++ r) +++ js "/")
                    = [ {| Github.owner := o; Github.repo := r;
                           Github.url := canonical_url o r |} ]).
    { rewrite parseGithubInput_twice; auto.
      - replace (prefix +++ o +++ js "/" +++ r)
          with (prefix ++ o ++ js "/" ++ r ++ [])
          by (rewrite app_nil_r; reflexivity).
        apply parse_link_recognizes; auto; first [constructor | reflexivity].
      - destruct Ho as [Hlo _]. destruct o; [simpl in Hlo; lia|].
        destruct prefix; discriminate.
      - replace (prefix +++ o +++ js "/" +++ r)
          with (prefix ++ o ++ js "/" ++ r ++ [])
          by (rewrite app_nil_r; reflexivity).
        apply no_separator_link; auto. constructor.
      - rewrite !app_assoc. apply link_last_not_slash. exact Hr. }
    rewrite Hlink. split; reflexivity.
Qed.

Lemma parseGithubInput_unique_canonical_witness :
  Github.parseGithubInput
    ((js "github.com/" +++ js "foo" +++ js "/" +++ js "bar") +++ js ", "
       +++ (js "github.com/" +++ js "foo" +++ js "/" +++ js "bar") +++ js "/")
  = [ {| Github.owner := js "foo"; Github.repo := js "bar";
         Github.url := js "https://github.com/" +++ js "foo" +++ js "/"
                          +++ js "bar" |} ]
  /\ List.length
       (Github.parseGithubInput
          ((js "github.com/" +++ js "foo" +++ js "/" +++ js "bar") +++ js ", "
             +++ (js "github.com/" +++ js "foo" +++ js "/" +++ js "bar")
             +++ js "/")) = 1%nat.
Proof.
  apply (proj2 (proj2 (proj2 (proj2 (proj2 parseGithubInput_unique_canonical))))).
  - right; left; reflexivity.
  - split; [simpl; lia | repeat constructor].
  - split; [simpl; lia | repeat constructor].
  - discriminate.
  - repeat constructor.
Defined.

(** The first end-to-end scenario of the parser: two mentions of one
    repository, with and without scheme and trailing slash. *)
Example parseGithubInput_scenario_1 :
  Github.parseGithubInput (js "https://github.com/foo/bar, github.com/foo/bar/")
  = [ {| Github.owner := js "foo"; Github.repo := js "bar";
         Github.url := js "https://github.com/foo/bar" |} ].
Proof. reflexivity. Qed.

(* ===================================================================== *)
(** * Running the monad                                                   *)
(* ===================================================================== *)

Section MonadFacts.

Lemma bind_run (A B : Type) (c : M A) (f : A -> M B) (w : World) :
  bind c f w =
    match c w with
    | (Normal a, w') => f a w'
    | (Thrown e, w') => (Thrown e, w')
    end.
Proof. reflexivity. Qed.

Lemma try_catch_run (A : Type) (c : M A) (h : JsError -> M A) (w : World) :
  try_catch c h w =
    match c w with
    | (Normal a, w') => (Normal a, w')
    | (Thrown e, w') => h e w'
    end.
Proof. reflexivity. Qed.

Lemma ret_run (A : Type) (a : A) (w : World) : ret a w = (Normal a, w).
Proof. reflexivity. Qed.

Lemma throw_run (A : Type) (e : JsError) (w : World) :
  @throw A e w = (Thrown e, w).
Proof. reflexivity. Qed.

Lemma wait_run (ms : Z) (w : World) : wait ms w = (Normal tt, log w [EvWait ms]).
Proof. reflexivity. Qed.

Lemma fetch_run (A : Type) (url : jsstring) (answer : Http A) (w : World) :
  fetch url answer w = (Normal answer, log w [EvFetch url]).
Proof. reflexivity. Qed.

Lemma call_model_run (svc : Services) (req : Request) (w : World) :
  call_model svc req w =
    (generateContent svc (gen_calls w) req,
     {| gen_calls := S (gen_calls w); trace := trace w ++ [EvGenerate req] |}).
Proof. reflexivity. Qed.

Lemma lift_run (A : Type) (c : completion A) (w : World) : lift c w = (c, w).
Proof. destruct c; reflexivity. Qed.

Lemma log_log (w : World) (a b : list Event) : log (log w a) b = log w (a ++ b).
Proof. unfold log. simpl. rewrite app_assoc. reflexivity. Qed.

Lemma log_nil (w : World) : log w [] = w.
Proof. destruct w. unfold log. simpl. rewrite app_nil_r. reflexivity. Qed.

Lemma world_eq (g1 g2 : nat) (t1 t2 : list Event) :
  g1 = g2 -> t1 = t2 ->
  {| gen_calls := g1; trace := t1 |} = {| gen_calls := g2; trace := t2 |}.
Proof. intros -> ->. reflexivity. Qed.

End MonadFacts.

(** One step of symbolic execution. *)
Ltac mstep :=
  first [ rewrite bind_run | rewrite try_catch_run | rewrite fetch_run
        | rewrite wait_run | rewrite ret_run | rewrite throw_run
        | rewrite lift_run ];
  cbv beta iota.

Ltac mrun := repeat mstep.

(* ===================================================================== *)
(** * The artifact fetcher: supporting facts                              *)
(* ===================================================================== *)

Section FetcherFacts.
Variable P : Platform.
Variable svc : Services.

Lemma fetchGithubFileContent_run (owner repo path : jsstring) (w : World) :
  fetchGithubFileContent P svc owner repo path w =
    (Normal (file_content P svc owner repo path),
     log w [EvFetch (file_url owner repo path)]).
Proof.
  unfold fetchGithubFileContent, file_content. mrun. fold (file_url owner repo path).
  destruct (get_file svc owner repo path) as [e| |data]; mrun; try reflexivity.
  destruct (env_content data) as [content|], (env_encoding data) as [encoding|];
    mrun; try reflexivity.
  destruct (negb (is_empty content) && str_eqb encoding (js "base64"));
    mrun; [|reflexivity].
  destruct (atob P content); mrun; reflexivity.
Qed.

Lemma fetch_blocks_run (owner repo : jsstring) (files : list DirEntry) :
  forall w,
    fetch_blocks P svc owner repo files w =
      (Normal (List.map (fun pc => file_block (fst pc) (snd pc))
                        (fetched_files P svc owner repo files)),
       log w (List.map (fun f => EvFetch (file_url owner repo (entry_path f)))
                       files)).
Proof.
  induction files as [|file rest IH]; intros w.
  - simpl. mrun. rewrite log_nil. reflexivity.
  - cbn [fetch_blocks fetched_files List.map].
    rewrite bind_run, fetchGithubFileContent_run. cbv beta iota.
    rewrite bind_run, IH. cbv beta iota.
    rewrite log_log. simpl app.
    destruct (file_content P svc owner repo (entry_path file)) as [c|];
      [|reflexivity].
    destruct (negb (is_empty c)); reflexivity.
Qed.

(** What a successful fetch of a repository was made of. *)
Lemma fetchGithubRepoData_some (owner repo : jsstring) (w w' : World)
      (bundle : ArtifactBundle) :
  fetchGithubRepoData P svc owner repo w = (Normal (Some bundle), w') ->
  exists meta,
    get_repo svc owner repo = HttpOk meta /\
    repo_name bundle = meta_name meta /\
    repo_url bundle = meta_html_url meta /\
    language_summary bundle =
      match get_languages svc owner repo with
      | HttpOk langs => langSummary langs
      | _ => []
      end /\
    files_bundle bundle =
      match get_contents svc owner repo with
      | HttpOk contents =>
          List.concat
            (List.map (fun pc => file_block (fst pc) (snd pc))
                      (fetched_files P svc owner repo (targetFiles contents)))
      | _ => []
      end.
Proof.
  unfold fetchGithubRepoData. mrun.
  destruct (get_repo svc owner repo) as [e| |meta]; mrun; try discriminate.
  destruct (get_languages svc owner repo) as [e| |langs]; mrun;
    try discriminate;
    (destruct (get_contents svc owner repo) as [e| |contents]; mrun;
     try discriminate; try rewrite fetch_blocks_run; mrun;
     intros H; inversion H; subst; clear H;
     exists meta; repeat split; reflexivity).
Qed.

End FetcherFacts.

(* ===================================================================== *)
(** * C5: truncation of the fetched contents                              *)
(* ===================================================================== *)

Lemma truncated_long (content : jsstring) :
  (8000 < str_length content)%Z ->
  truncated content = slice0 8000 content +++ truncation_marker /\
  str_length (truncated content) = (8000 + str_length truncation_marker)%Z.
Proof.
  intros H. unfold truncated.
  destruct (Z.ltb_spec 8000 (str_length content)) as [_|H']; [|lia].
  split; [reflexivity|].
  unfold str_length, slice0 in *. rewrite length_app, length_firstn.
  lia.
Qed.

Lemma truncated_short (content : jsstring) :
  (str_length content <= 8000)%Z -> truncated content = content.
Proof.
  intros H. unfold truncated.
  destruct (Z.ltb_spec 8000 (str_length content)) as [H'|_]; [lia|reflexivity].
Qed.

Lemma fetched_files_content (P : Platform) (svc : Services)
      (owner repo : jsstring) (files : list DirEntry) :
  Forall (fun pc => file_content P svc owner repo (fst pc) = Some (snd pc)
                    /\ snd pc <> []
                    /\ exists file, In file files /\ entry_path file = fst pc)
         (fetched_files P svc owner repo files).
Proof.
  induction files as [|file rest IH]; simpl; [constructor|].
  assert (IH' : Forall (fun pc =>
                  file_content P svc owner repo (fst pc) = Some (snd pc)
                  /\ snd pc <> []
                  /\ exists f, (file = f \/ In f rest) /\ entry_path f = fst pc)
                (fetched_files P svc owner repo rest)).
  { eapply Forall_impl; [|exact IH].
    intros pc (H1 & H2 & f & H3 & H4). eauto 6. }
  destruct (file_content P svc owner repo (entry_path file)) as [c|] eqn:E;
    [|exact IH'].
  destruct c as [|d c]; simpl; [exact IH'|].
  constructor; [|exact IH'].
  simpl. repeat split; [exact E | discriminate | eauto].
Qed.

(** C5. For every repository whose fetch succeeds, the files bundle is
    the concatenation of the blocks ["FILE: " path "\n" kept "\n\n"] of
    the selected files whose content was fetched and is not empty, in
    order, where for a fetched content of length L the kept content is,
    if L > 8000, the first 8000 characters of the content followed by
    the truncation marker (so its length is 8000 plus the length of the
    marker) and, if L <= 8000, the content unchanged. *)
Theorem fetched_content_truncated (P : Platform) (svc : Services)
        (owner repo : jsstring) (w w' : World) (bundle : ArtifactBundle) :
  fetchGithubRepoData P svc owner repo w = (Normal (Some bundle), w') ->
  exists stored : list (jsstring * jsstring * jsstring),
    files_bundle bundle =
      List.concat
        (List.map (fun t => js "FILE: " +++ fst (fst t) +++ newline
                              +++ snd t +++ newline +++ newline)
                  stored) /\
    (forall contents,
       get_contents svc owner repo = HttpOk contents ->
       List.map fst stored
         = fetched_files P svc owner repo (targetFiles contents)) /\
    Forall (fun t =>
              let path := fst (fst t) in
              let content := snd (fst t) in
              let kept := snd t in
              file_content P svc owner repo path = Some content /\
              ((8000 < str_length content)%Z ->
               kept = slice0 8000 content +++ truncation_marker /\
               str_length kept = (8000 + str_length truncation_marker)%Z) /\
              ((str_length content <= 8000)%Z -> kept = content))
           stored.
Proof.
  intros H. apply fetchGithubRepoData_some in H.
  destruct H as (meta & _ & _ & _ & _ & Hfiles).
  destruct (get_contents svc owner repo) as [e| |contents];
    try (exists []; split; [exact Hfiles|]; split;
         [intros ?; discriminate | constructor]).
  exists (List.map (fun pc => (fst pc, snd pc, truncated (snd pc)))
                   (fetched_files P svc owner repo (targetFiles contents))).
  split; [|split].
  - rewrite Hfiles, map_map. reflexivity.
  - intros contents' Heq. inversion Heq; subst contents'.
    rewrite map_map. simpl.
    rewrite <- (map_id (fetched_files P svc owner repo (targetFiles contents)))
      at 2.
    apply map_ext. intros [path content]. reflexivity.
  - apply Forall_map.
    eapply Forall_impl; [|apply fetched_files_content].
    intros [path content] (Hc & _ & _). simpl.
    split; [exact Hc|]. split.
    + apply truncated_long.
    + apply truncated_short.
Qed.

Lemma fetched_content_truncated_witness :
  exists bundle w',
    fetchGithubRepoData Reference.platform Examples.long_readme
                        (js "foo") (js "bar") initial_world
      = (Normal (Some bundle), w') /\
    exists stored : list (jsstring * jsstring * jsstring),
      files_bundle bundle =
        List.concat
          (List.map (fun t => js "FILE: " +++ fst (fst t) +++ newline
                                +++ snd t +++ newline +++ newline)
                    stored) /\
      (forall contents,
         get_contents Examples.long_readme (js "foo") (js "bar")
           = HttpOk contents ->
         List.map fst stored
           = fetched_files Reference.platform Examples.long_readme
                           (js "foo") (js "bar") (targetFiles contents)) /\
      Forall (fun t =>
                let path := fst (fst t) in
                let content := snd (fst t) in
                let kept := snd t in
                file_content Reference.platform Examples.long_readme
                             (js "foo") (js "bar") path = Some content /\
                ((8000 < str_length content)%Z ->
                 kept = slice0 8000 content +++ truncation_marker /\
                 str_length kept = (8000 + str_length truncation_marker)%Z) /\
                ((str_length content <= 8000)%Z -> kept = content))
             stored.
Proof.
  destruct (fetchGithubRepoData Reference.platform Examples.long_readme
              (js "foo") (js "bar") initial_world)
    as [[[bundle|]|e] w'] eqn:E.
  - exists bundle, w'. split; [reflexivity|].
    exact (fetched_content_truncated _ _ _ _ _ E).
  - exfalso. vm_compute in E. discriminate.
  - exfalso. vm_compute in E. discriminate.
Defined.

(** The README of the example is 8001 characters long: its block holds
    8000 of them and the marker. *)
Example long_readme_block :
  match fst (fetchGithubRepoData Reference.platform Examples.long_readme
               (js "foo") (js "bar") initial_world) with
  | Normal (Some bundle) =>
      firstn (16 + Z.to_nat 8000 + 18) (files_bundle bundle)
      = js "FILE: README.md" +++ newline
           +++ Examples.repeat_string (js "A") (Z.to_nat 8000)
           +++ truncation_marker
  | _ => False
  end.
Proof. vm_compute. reflexivity. Qed.

(* ===================================================================== *)
(** * C6: the cap on the bundle and the place of the README               *)
(* ===================================================================== *)

Section SortFacts.

Lemma insert_sorted_in (A : Type) (cmp : A -> A -> Z) (x y : A) (l : list A) :
  In y (insert_sorted cmp x l) <-> y = x \/ In y l.
Proof.
  induction l as [|z l IH]; simpl.
  - intuition.
  - destruct (cmp x z <=? 0)%Z; simpl; rewrite ?IH; intuition.
Qed.

Lemma sort_in (A : Type) (cmp : A -> A -> Z) (y : A) (l : list A) :
  In y (sort cmp l) <-> In y l.
Proof.
  induction l as [|x l IH]; simpl; [tauto|].
  rewrite insert_sorted_in, IH. intuition.
Qed.

Lemma score_range (n : jsstring) : (0 <= score n <= 2)%Z.
Proof.
  unfold score. destruct (startsWith n (js "README")); [lia|].
  destruct (includes n (js "json") || includes n (js "txt")); lia.
Qed.

Lemma score_readme (item : DirEntry) :
  score (entry_name item) = 0%Z <-> is_readme item = true.
Proof.
  unfold score, is_readme.
  destruct (startsWith (entry_name item) (js "README")); [tauto|].
  destruct (includes (entry_name item) (js "json")
            || includes (entry_name item) (js "txt"));
    split; (discriminate || lia).
Qed.

(** The first element of the sorted list has the least score. *)
Lemma sort_head_least (l : list DirEntry) :
  match sort compare_files l with
  | [] => l = []
  | h :: _ =>
      Forall (fun y => (score (entry_name h) <= score (entry_name y))%Z) l
  end.
Proof.
  induction l as [|x l IH]; simpl; [reflexivity|].
  destruct (sort compare_files l) as [|h t]; simpl.
  - subst l. repeat constructor. lia.
  - unfold compare_files at 1.
    destruct (Z.leb_spec (score (entry_name x) - score (entry_name h)) 0).
    + constructor; [lia|].
      eapply Forall_impl; [|exact IH]. simpl. intros; lia.
    + constructor; [lia | exact IH].
Qed.

Lemma targetFiles_length (contents : list DirEntry) :
  (List.length (targetFiles contents) <= 4)%nat.
Proof. unfold targetFiles. rewrite length_firstn. lia. Qed.

Lemma targetFiles_found (contents : list DirEntry) (item : DirEntry) :
  In item (targetFiles contents) -> In item contents /\ is_found item = true.
Proof.
  unfold targetFiles. intros H.
  assert (H' : In item (sort compare_files (filter is_found contents))).
  { rewrite <- (firstn_skipn 4). apply in_or_app. left. exact H. }
  apply sort_in, filter_In in H'. exact H'.
Qed.

(** With a README among the matched entries, a README is the first file
    of the selection. *)
Lemma targetFiles_readme_first (contents : list DirEntry) (item : DirEntry) :
  In item contents -> is_found item = true -> is_readme item = true ->
  exists readme rest,
    targetFiles contents = readme :: rest /\ is_readme readme = true.
Proof.
  intros Hin Hfound Hreadme. unfold targetFiles.
  pose proof (sort_head_least (filter is_found contents)) as Hhead.
  assert (Hitem : In item (filter is_found contents))
    by (apply filter_In; auto).
  destruct (sort compare_files (filter is_found contents)) as [|h t].
  - rewrite Hhead in Hitem. destruct Hitem.
  - exists h, (firstn 3 t). split; [reflexivity|].
    rewrite Forall_forall in Hhead. specialize (Hhead item Hitem).
    apply score_readme in Hreadme. apply score_readme.
    pose proof (score_range (entry_name h)). lia.
Qed.

Lemma fetched_files_length (P : Platform) (svc : Services)
      (owner repo : jsstring) (files : list DirEntry) :
  (List.length (fetched_files P svc owner repo files) <= List.length files)%nat.
Proof.
  induction files as [|file rest IH]; simpl; [lia|].
  destruct (file_content P svc owner repo (entry_path file)) as [c|];
    [destruct (negb (is_empty c)); simpl|]; lia.
Qed.

End SortFacts.

(** C6 as stated fails when the request for the README fails (or its
    content is empty): with [README.md] among the matched entries, the
    bundle then opens with the block of [package.json]. *)
Lemma readme_block_not_first :
  exists bundle w',
    fetchGithubRepoData Reference.platform Examples.readme_unavailable
                        (js "foo") (js "bar") initial_world
      = (Normal (Some bundle), w') /\
    ~ readme_block_first Examples.readme_unavailable (js "foo") (js "bar") bundle.
Proof.
  destruct (fetchGithubRepoData Reference.platform Examples.readme_unavailable
              (js "foo") (js "bar") initial_world)
    as [[[bundle|]|e] w'] eqn:E;
    [|exfalso; vm_compute in E; discriminate
     |exfalso; vm_compute in E; discriminate].
  exists bundle, w'. split; [reflexivity|].
  intros H.
  destruct (H Examples.listing (Examples.file_entry "README.md") eq_refl)
    as (content & rest & Hb); [simpl; tauto | reflexivity | reflexivity |].
  vm_compute in E. inversion E; subst bundle.
  vm_compute in Hb. discriminate Hb.
Qed.

Section SelectionFacts.

(** Every block stored comes from a file of the selection whose content
    was fetched and is not empty. *)
Lemma fetched_files_origin (P : Platform) (svc : Services)
      (owner repo : jsstring) (files : list DirEntry) :
  Forall (fun pc =>
            exists file,
              In file files /\ fst pc = entry_path file /\
              file_content P svc owner repo (entry_path file) = Some (snd pc) /\
              snd pc <> [])
         (fetched_files P svc owner repo files).
Proof.
  induction files as [|file rest IH]; simpl; [constructor|].
  assert (IH' : Forall (fun pc =>
            exists f,
              (file = f \/ In f rest) /\ fst pc = entry_path f /\
              file_content P svc owner repo (entry_path f) = Some (snd pc) /\
              snd pc <> [])
         (fetched_files P svc owner repo rest)).
  { eapply Forall_impl; [|exact IH].
    intros pc (f & Hin & H). exists f. split; [right; exact Hin | exact H]. }
  destruct (file_content P svc owner repo (entry_path file)) as [c|] eqn:E;
    [|exact IH'].
  destruct c as [|d c]; simpl; [exact IH'|].
  constructor; [|exact IH'].
  exists file. simpl. repeat split; [left; reflexivity | exact E | discriminate].
Qed.

End SelectionFacts.

(** C6 (amended). For every repository whose fetch succeeds, the files
    bundle is the concatenation of the [FILE:] blocks of the files of
    the selection (the first files of the sorted matches of the
    directory listing; no file when the listing is not available) whose
    content was fetched and is not empty, in the order of the selection;
    the selection has at most 4 files, so the bundle has at most 4
    blocks.  If a README is among the matched directory entries, a
    README is the first file of the selection, and its block is the
    first block of the bundle whenever its content is fetched and is not
    empty. *)
Theorem files_bundle_cap_and_readme (P : Platform) (svc : Services)
        (owner repo : jsstring) (w w' : World) (bundle : ArtifactBundle) :
  fetchGithubRepoData P svc owner repo w = (Normal (Some bundle), w') ->
  exists selection : list DirEntry,
    selection = match get_contents svc owner repo with
                | HttpOk contents => targetFiles contents
                | _ => []
                end /\
    (List.length selection <= 4)%nat /\
    files_bundle bundle =
      List.concat (List.map (fun pc => file_block (fst pc) (snd pc))
                            (fetched_files P svc owner repo selection)) /\
    (List.length (fetched_files P svc owner repo selection)
     <= List.length selection)%nat /\
    (List.length (fetched_files P svc owner repo selection) <= 4)%nat /\
    Forall (fun pc =>
              exists file,
                In file selection /\ fst pc = entry_path file /\
                file_content P svc owner repo (entry_path file)
                  = Some (snd pc) /\
                snd pc <> [])
           (fetched_files P svc owner repo selection) /\
    forall contents item,
      get_contents svc owner repo = HttpOk contents ->
      In item contents -> is_found item = true -> is_readme item = true ->
      exists readme rest,
        selection = readme :: rest /\
        In readme contents /\ is_found readme = true /\
        is_readme readme = true /\
        forall content,
          file_content P svc owner repo (entry_path readme) = Some content ->
          content <> [] ->
          exists others,
            fetched_files P svc owner repo selection
            = (entry_path readme, content) :: others.
Proof.
  intros H. apply fetchGithubRepoData_some in H.
  destruct H as (meta & _ & _ & _ & _ & Hfiles).
  eexists. split; [reflexivity|].
  assert (Hcap : (List.length
                    match get_contents svc owner repo with
                    | HttpOk contents => targetFiles contents
                    | _ => []
                    end <= 4)%nat).
  { destruct (get_contents svc owner repo);
      [simpl; lia | simpl; lia | apply targetFiles_length]. }
  split; [exact Hcap|]. split.
  { rewrite Hfiles. destruct (get_contents svc owner repo); reflexivity. }
  split; [apply fetched_files_length|].
  split; [etransitivity; [apply fetched_files_length | exact Hcap]|].
  split; [apply fetched_files_origin|].
  intros contents item Heq Hin Hfound Hreadme. rewrite Heq.
  destruct (targetFiles_readme_first contents item Hin Hfound Hreadme)
    as (readme & rest & Ht & Hr).
  exists readme, rest. split; [exact Ht|].
  assert (Hin' : In readme (targetFiles contents))
    by (rewrite Ht; left; reflexivity).
  apply targetFiles_found in Hin'. destruct Hin' as [Hi Hf].
  repeat split; auto.
  intros content Hcontent Hne. rewrite Ht. simpl. rewrite Hcontent.
  destruct content as [|c content]; [congruence|]. simpl. eauto.
Qed.

Lemma files_bundle_cap_and_readme_witness :
  exists bundle w',
    fetchGithubRepoData Reference.platform Examples.long_readme
                        (js "foo") (js "bar") initial_world
      = (Normal (Some bundle), w') /\
    exists selection : list DirEntry,
      selection = match get_contents Examples.long_readme (js "foo") (js "bar") with
                  | HttpOk contents => targetFiles contents
                  | _ => []
                  end /\
      (List.length selection <= 4)%nat /\
      files_bundle bundle =
        List.concat (List.map (fun pc => file_block (fst pc) (snd pc))
                              (fetched_files Reference.platform
                                 Examples.long_readme (js "foo") (js "bar")
                                 selection)) /\
      (List.length (fetched_files Reference.platform Examples.long_readme
                      (js "foo") (js "bar") selection)
       <= List.length selection)%nat /\
      (List.length (fetched_files Reference.platform Examples.long_readme
                      (js "foo") (js "bar") selection) <= 4)%nat /\
      Forall (fun pc =>
                exists file,
                  In file selection /\ fst pc = entry_path file /\
                  file_content Reference.platform Examples.long_readme
                               (js "foo") (js "bar") (entry_path file)
                    = Some (snd pc) /\
                  snd pc <> [])
             (fetched_files Reference.platform Examples.long_readme
                (js "foo") (js "bar") selection) /\
      forall contents item,
        get_contents Examples.long_readme (js "foo") (js "bar") = HttpOk contents ->
        In item contents -> is_found item = true -> is_readme item = true ->
        exists readme rest,
          selection = readme :: rest /\
          In readme contents /\ is_found readme = true /\
          is_readme readme = true /\
          forall content,
            file_content Reference.platform Examples.long_readme
                         (js "foo") (js "bar") (entry_path readme) = Some content ->
            content <> [] ->
            exists others,
              fetched_files Reference.platform Examples.long_readme
                (js "foo") (js "bar") selection
              = (entry_path readme, content) :: others.
Proof.
  destruct (fetchGithubRepoData Reference.platform Examples.long_readme
              (js "foo") (js "bar") initial_world)
    as [[[bundle|]|e] w'] eqn:E.
  - exists bundle, w'. split; [reflexivity|].
    exact (files_bundle_cap_and_readme _ _ _ _ _ E).
  - exfalso. vm_compute in E. discriminate.
  - exfalso. vm_compute in E. discriminate.
Defined.

(* ===================================================================== *)
(** * C8: the language summary                                            *)
(* ===================================================================== *)

Section SummaryFacts.

Lemma join_chars (sep : jsstring) (c : N) (x : jsstring) (l : list jsstring) :
  In x l -> In c x -> In c (join sep l).
Proof.
  induction l as [|y l IH]; intros Hx Hc; [destruct Hx|].
  destruct Hx as [->|Hx].
  - destruct l; simpl; [exact Hc | apply in_or_app; auto].
  - destruct l as [|z l]; [destruct Hx|].
    change (In c (y ++ sep ++ join sep (z :: l))).
    apply in_or_app; right. apply in_or_app; right. auto.
Qed.

Lemma summary_of_names (langs top : list (jsstring * N)) (e : jsstring * N) (c : N) :
  In e top -> In c (fst e) -> In c (summary_of langs top).
Proof.
  intros He Hc. unfold summary_of.
  apply join_chars with (x := language_entry (language_total langs) e).
  - apply in_map. exact He.
  - unfold language_entry. apply in_or_app. auto.
Qed.

Lemma entry_eq_dec (a b : jsstring * N) : {a = b} + {a <> b}.
Proof. decide equality; [apply N.eq_dec | apply (list_eq_dec N.eq_dec)]. Qed.

Lemma langSummary_first_five (langs : list (jsstring * N)) :
  langSummary langs = summary_of langs (firstn 5 langs).
Proof. unfold langSummary, summary_of. rewrite firstn_map. reflexivity. Qed.

(** [Math.round] of a finite double [n * 2^e] with a negative exponent
    is the integer [z] with [z <= n * 2^e + 1/2 < z + 1]. *)
Lemma Math_round_nearest (s : bool) (m : positive) (e : Z) :
  (e < 0)%Z ->
  let n := (if s then Z.neg m else Z.pos m) in
  let d := (2 ^ (- e))%Z in
  exists z,
    Math_round (S754_finite s m e) = RInt z /\
    (2 * d * z <= 2 * n + d < 2 * d * (z + 1))%Z.
Proof.
  intros He n d. unfold Math_round.
  destruct (Z.leb_spec 0 e); [lia|].
  exists ((2 * n + d) / (2 * d))%Z. split; [reflexivity|].
  assert (Hd : (0 < d)%Z) by (apply Z.pow_pos_nonneg; lia).
  pose proof (Z.mul_div_le (2 * n + d) (2 * d) ltac:(lia)).
  pose proof (Z.mul_succ_div_gt (2 * n + d) (2 * d) ltac:(lia)).
  lia.
Qed.

End SummaryFacts.

(** C8 as stated fails on a mapping that does not enumerate its
    languages by decreasing size: of six languages the summary lists the
    first five and leaves out the sixth, which has the greatest share. *)
Lemma summary_misses_greatest_share :
  langSummary Examples.six_languages = js "A 6%, B 6%, C 6%, D 6%, E 6%" /\
  ~ lists_greatest_shares Examples.six_languages
      (langSummary Examples.six_languages).
Proof.
  split; [vm_compute; reflexivity|].
  intros (top & Hsum & Hincl & Hlen & Hmax).
  assert (HF : In (js "F", 11%N) top).
  { destruct (in_dec entry_eq_dec (js "F", 11%N) top) as [Hin|Hout]; [exact Hin|].
    exfalso. destruct top as [|a top]; [discriminate Hlen|].
    assert (Ha : In a Examples.six_languages) by (apply Hincl; left; reflexivity).
    assert (Hle : (11 <= snd a)%N).
    { apply (Hmax (js "F", 11%N) a);
        [simpl; tauto | exact Hout | left; reflexivity]. }
    simpl in Ha.
    destruct Ha as [<-|[<-|[<-|[<-|[<-|[<-|[]]]]]]];
      try (simpl in Hle; lia).
    apply Hout. left. reflexivity. }
  assert (Hc : In 70%N (summary_of Examples.six_languages top)).
  { apply summary_of_names with (e := (js "F", 11%N)); [exact HF|].
    left. reflexivity. }
  rewrite <- Hsum in Hc. vm_compute in Hc.
  repeat (destruct Hc as [Hc|Hc]; [discriminate Hc|]). exact Hc.
Qed.

(** C8 (amended). For every successful languages fetch returning a
    mapping, the language summary lists the first 5 languages in the
    order the mapping enumerates them (all of them when there are fewer;
    they are not sorted by share), each followed by
    [Math.round((bytes / total) * 100)] and a percent sign, joined by
    [", "]. *)
Theorem language_summary_first_five (P : Platform) (svc : Services)
        (owner repo : jsstring) (w w' : World) (bundle : ArtifactBundle)
        (langs : list (jsstring * N)) :
  fetchGithubRepoData P svc owner repo w = (Normal (Some bundle), w') ->
  get_languages svc owner repo = HttpOk langs ->
  language_summary bundle =
    join (js ", ")
         (List.map
            (fun e =>
               fst e +++ js " "
                   +++ rounded_to_string
                         (Math_round
                            (double_mul
                               (double_div (double_of_N (snd e))
                                           (language_total langs))
                               (double_of_N 100)))
                   +++ js "%")
            (firstn 5 langs)).
Proof.
  intros H Hl. apply fetchGithubRepoData_some in H.
  destruct H as (meta & _ & _ & _ & Hsum & _).
  rewrite Hl in Hsum. rewrite Hsum, langSummary_first_five. reflexivity.
Qed.

Lemma language_summary_first_five_witness :
  exists bundle w',
    fetchGithubRepoData Reference.platform Examples.long_readme
                        (js "foo") (js "bar") initial_world
      = (Normal (Some bundle), w') /\
    get_languages Examples.long_readme (js "foo") (js "bar")
      = HttpOk Examples.six_languages /\
    language_summary bundle =
      join (js ", ")
           (List.map
              (fun e =>
                 fst e +++ js " "
                     +++ rounded_to_string
                           (Math_round
                              (double_mul
                                 (double_div (double_of_N (snd e))
                                             (language_total Examples.six_languages))
                                 (double_of_N 100)))
                     +++ js "%")
              (firstn 5 Examples.six_languages)).
Proof.
  destruct (fetchGithubRepoData Reference.platform Examples.long_readme
              (js "foo") (js "bar") initial_world)
    as [[[bundle|]|e] w'] eqn:E.
  - exists bundle, w'. split; [reflexivity|]. split; [reflexivity|].
    exact (language_summary_first_five _ _ _ _ _ E eq_refl).
  - exfalso. vm_compute in E. discriminate.
  - exfalso. vm_compute in E. discriminate.
Defined.

(* ===================================================================== *)
(** * C3 and C10: the retry wrapper                                       *)
(* ===================================================================== *)

Section RetryFacts.
Variable svc : Services.
Variable params : Request.
Variable retries : nat.
Variable initialDelay : Z.

Lemma retry_loop_step (remaining i : nat) (w : World) :
  retry_loop svc params retries initialDelay (S remaining) i w =
    let w1 := {| gen_calls := S (gen_calls w);
                 trace := trace w ++ [EvGenerate params] |} in
    match generateContent svc (gen_calls w) params with
    | Normal r => (Normal r, w1)
    | Thrown error =>
        if isQuotaError error && (Z.of_nat i <? Z.of_nat retries - 1)%Z
        then retry_loop svc params retries initialDelay remaining (S i)
               (log w1 [EvWait (initialDelay * 2 ^ Z.of_nat i)])
        else (Thrown error, w1)
    end.
Proof.
  cbn [retry_loop]. rewrite try_catch_run, call_model_run.
  destruct (generateContent svc (gen_calls w) params) as [r|error];
    [reflexivity|].
  destruct (isQuotaError error && (Z.of_nat i <? Z.of_nat retries - 1)%Z);
    [|reflexivity].
  rewrite bind_run, wait_run. reflexivity.
Qed.

(** [n] quota failures, then a success. *)
Lemma retry_loop_quota (r : Response) :
  forall n i w,
    (i + n < retries)%nat ->
    quota_failures svc params (gen_calls w) n ->
    generateContent svc (gen_calls w + n) params = Normal r ->
    retry_loop svc params retries initialDelay (retries - i) i w =
      (Normal r,
       {| gen_calls := gen_calls w + n + 1;
          trace := trace w ++ failed_attempts params initialDelay i n
                           ++ [EvGenerate params] |}).
Proof.
  induction n as [|n IH]; intros i w Hi Hq Hr.
  - replace (retries - i)%nat with (S (retries - i - 1)) by lia.
    rewrite retry_loop_step. rewrite Nat.add_0_r in Hr. rewrite Hr.
    cbv zeta. f_equal. apply world_eq; [lia | reflexivity].
  - replace (retries - i)%nat with (S (retries - S i)) by lia.
    rewrite retry_loop_step.
    destruct (Hq 0%nat ltac:(lia)) as (e & He & Hquota).
    rewrite Nat.add_0_r in He. rewrite He, Hquota.
    replace (Z.of_nat i <? Z.of_nat retries - 1)%Z with true
      by (symmetry; apply Z.ltb_lt; lia).
    cbv zeta. cbn [andb].
    rewrite IH.
    + unfold log. cbn [gen_calls trace]. f_equal. apply world_eq; [lia|].
      unfold failed_attempts. cbn [seq flat_map].
      rewrite <- !app_assoc. reflexivity.
    + lia.
    + intros j Hj. destruct (Hq (S j) ltac:(lia)) as (e' & He' & Hq').
      exists e'. split; [|exact Hq'].
      unfold log. cbn [gen_calls].
      rewrite <- He'. f_equal. lia.
    + unfold log. cbn [gen_calls]. rewrite <- Hr. f_equal. lia.
Qed.

(** The completion of the loop is the completion of the last call of the
    invoker, and between one and [retries - i] calls are made. *)
Lemma retry_loop_last :
  forall remaining i w,
    remaining = (retries - i)%nat -> (i < retries)%nat ->
    let run := retry_loop svc params retries initialDelay remaining i w in
    (gen_calls w < gen_calls (snd run) <= gen_calls w + remaining)%nat /\
    fst run = generateContent svc (gen_calls (snd run) - 1) params /\
    exists t, trace (snd run) = trace w ++ t ++ [EvGenerate params].
Proof.
  induction remaining as [|remaining IH]; intros i w Hrem Hi; [lia|].
  cbv zeta. rewrite retry_loop_step. cbv zeta.
  destruct (generateContent svc (gen_calls w) params) as [r|error] eqn:E.
  - cbn [fst snd gen_calls trace]. rewrite Nat.sub_succ, Nat.sub_0_r.
    repeat split; try lia; auto. exists []. reflexivity.
  - destruct (isQuotaError error) eqn:Hq; cbn [andb].
    + destruct (Z.ltb_spec (Z.of_nat i) (Z.of_nat retries - 1)).
      * specialize (IH (S i)
                       (log {| gen_calls := S (gen_calls w);
                               trace := trace w ++ [EvGenerate params] |}
                            [EvWait (initialDelay * 2 ^ Z.of_nat i)])
                       ltac:(lia) ltac:(lia)).
        cbv zeta in IH. destruct IH as (H1 & H2 & t & H3).
        unfold log in *. cbn [gen_calls trace] in *.
        repeat split; try lia; auto.
        exists ([EvGenerate params; EvWait (initialDelay * 2 ^ Z.of_nat i)] ++ t).
        rewrite H3. rewrite <- !app_assoc. reflexivity.
      * cbn [fst snd gen_calls trace]. rewrite Nat.sub_succ, Nat.sub_0_r.
        repeat split; try lia; auto. exists []. reflexivity.
    + cbn [fst snd gen_calls trace]. rewrite Nat.sub_succ, Nat.sub_0_r.
      repeat split; try lia; auto. exists []. reflexivity.
Qed.

End RetryFacts.

(** An error that is not a quota error is rethrown at once. *)
Lemma retry_non_quota (svc : Services) (params : Request) (R : nat) (D : Z)
      (w : World) (e : JsError) :
  (1 <= R)%nat ->
  generateContent svc (gen_calls w) params = Thrown e ->
  isQuotaError e = false ->
  generateContentWithRetry svc params R D w =
    (Thrown e,
     {| gen_calls := gen_calls w + 1;
        trace := trace w ++ [EvGenerate params] |}).
Proof.
  intros HR He Hq. unfold generateContentWithRetry.
  destruct R as [|R']; [lia|].
  rewrite retry_loop_step, He, Hq. cbv zeta. cbn [andb].
  f_equal. apply world_eq; [lia | reflexivity].
Qed.

(** C3. For the retry wrapper with retry count R and initial delay D:
    if the invoker fails with a quota error exactly N times and then
    succeeds, with N < R, the wrapper returns that success after exactly
    N + 1 calls of the invoker, its events being, for i = 0 .. N-1, the
    i-th call followed by a wait of D * 2^i, and then the last call
    (so nothing is waited before the first attempt); and if the first
    call of the invoker throws an error that is not a quota error, the
    wrapper throws that error after this one call and no wait. *)
Theorem retry_backoff (svc : Services) (params : Request) (R : nat) (D : Z)
        (w : World) :
  (forall N r,
     (N < R)%nat ->
     quota_failures svc params (gen_calls w) N ->
     generateContent svc (gen_calls w + N) params = Normal r ->
     generateContentWithRetry svc params R D w =
       (Normal r,
        {| gen_calls := gen_calls w + N + 1;
           trace := trace w ++ failed_attempts params D 0 N
                            ++ [EvGenerate params] |})) /\
  (forall e,
     (1 <= R)%nat ->
     generateContent svc (gen_calls w) params = Thrown e ->
     isQuotaError e = false ->
     generateContentWithRetry svc params R D w =
       (Thrown e,
        {| gen_calls := gen_calls w + 1;
           trace := trace w ++ [EvGenerate params] |})).
Proof.
  split.
  - intros N r HN Hq Hr. unfold generateContentWithRetry.
    rewrite <- (Nat.sub_0_r R) at 2. apply retry_loop_quota; auto.
  - intros e HR He Hq. apply retry_non_quota; assumption.
Qed.

(** With the default delay, three quota failures are followed by waits
    of 2, 4 and 8 seconds. *)
Example default_backoff (params : Request) :
  failed_attempts params 2000 0 3 =
    [ EvGenerate params; EvWait 2000; EvGenerate params; EvWait 4000;
      EvGenerate params; EvWait 8000 ].
Proof. reflexivity. Qed.

Lemma retry_backoff_witness :
  generateContentWithRetry (flaky 3 (Examples.response_text (js "ok")))
                           some_request 4 3000 initial_world =
    (Normal (Examples.response_text (js "ok")),
     {| gen_calls := 4;
        trace := failed_attempts some_request 3000 0 3
                   ++ [EvGenerate some_request] |}) /\
  generateContentWithRetry (failing Examples.server_error)
                           some_request 4 3000 initial_world =
    (Thrown Examples.server_error,
     {| gen_calls := 1; trace := [EvGenerate some_request] |}).
Proof.
  split.
  - refine (proj1 (retry_backoff (flaky 3 (Examples.response_text (js "ok")))
                                 some_request 4 3000 initial_world)
                  3%nat _ _ _ _).
    + lia.
    + intros i Hi. exists Examples.quota_error. split; [|reflexivity].
      simpl. destruct (Nat.ltb_spec i 3); [reflexivity | lia].
    + reflexivity.
  - refine (proj2 (retry_backoff (failing Examples.server_error)
                                 some_request 4 3000 initial_world)
                  _ _ _ _).
    + lia.
    + reflexivity.
    + reflexivity.
Defined.

(** C10. For every retry count R >= 1 the wrapper makes between 1 and
    R calls of the invoker, and its completion is the completion of the
    last of them: the value that call returned, or the error that call
    threw.  Hence the error of the final line, "Max retries exceeded for
    Gemini API", is thrown by the wrapper only if the invoker itself
    threw it. *)
Theorem retry_outcome_is_invoker_outcome (svc : Services) (params : Request)
        (R : nat) (D : Z) (w : World) :
  (1 <= R)%nat ->
  let run := generateContentWithRetry svc params R D w in
  (gen_calls w < gen_calls (snd run) <= gen_calls w + R)%nat /\
  fst run = generateContent svc (gen_calls (snd run) - 1) params /\
  ((forall k, generateContent svc k params <> Thrown max_retries_error) ->
   fst run <> Thrown max_retries_error).
Proof.
  intros HR run.
  destruct (@retry_loop_last svc params R D R 0 w ltac:(lia) ltac:(lia))
    as (H1 & H2 & _).
  fold (generateContentWithRetry svc params R D w) in H1, H2. fold run in H1, H2.
  repeat split; try apply H1; [exact H2|].
  intros Hk. rewrite H2. apply Hk.
Qed.

Lemma retry_outcome_is_invoker_outcome_witness :
  let run := generateContentWithRetry (failing Examples.quota_error)
                                      some_request 3 2000 initial_world in
  (0 < gen_calls (snd run) <= 0 + 3)%nat /\
  fst run = generateContent (failing Examples.quota_error)
                            (gen_calls (snd run) - 1) some_request /\
  ((forall k, generateContent (failing Examples.quota_error) k some_request
              <> Thrown max_retries_error) ->
   fst run <> Thrown max_retries_error).
Proof.
  apply (@retry_outcome_is_invoker_outcome (failing Examples.quota_error)
           some_request 3 2000 initial_world).
  lia.
Defined.

(** With a retry count of 0 the loop body never runs and the final line
    is reached. *)
Lemma zero_retries (svc : Services) (params : Request) (D : Z) (w : World) :
  generateContentWithRetry svc params 0 D w = (Thrown max_retries_error, w).
Proof. reflexivity. Qed.

(** Exhausted retries rethrow the quota error of the last attempt. *)
Example exhausted_retries :
  generateContentWithRetry (failing Examples.quota_error) some_request 3 2000
                           initial_world =
    (Thrown Examples.quota_error,
     {| gen_calls := 3;
        trace := failed_attempts some_request 2000 0 2
                   ++ [EvGenerate some_request] |}).
Proof. reflexivity. Qed.

(* ===================================================================== *)
(** * The primary pipeline: supporting facts                              *)
(* ===================================================================== *)

Section PipelineFacts.
Variable P : Platform.
Variable svc : Services.

Lemma try_catch_default (A : Type) (c : M A) (d : A) :
  never_throws (try_catch c (fun _ => ret d)).
Proof.
  intros w. rewrite try_catch_run.
  destruct (c w) as [[a|e] w']; [eauto | exists d, w'; reflexivity].
Qed.

Lemma github_stage_normal (githubLinks : jsstring) :
  never_throws (github_stage P svc githubLinks).
Proof. apply try_catch_default. Qed.

Lemma highlights_stage_normal (resume : option File)
      (githubProjects : list GithubProject) :
  never_throws (highlights_stage P svc resume githubProjects).
Proof. apply try_catch_default. Qed.

(** The pipeline is the capstone stage run on the results of the side
    channels. *)
Lemma analyzeProfile_stages (resume : option File) (jdText githubLinks : jsstring)
      (w : World) :
  analyzeProfile P svc resume jdText githubLinks w =
    let '(githubProjects, resumeHighlights, w2) :=
      side_channels P svc resume githubLinks w in
    main_stage P svc resume jdText githubProjects resumeHighlights w2.
Proof.
  unfold analyzeProfile, side_channels. rewrite bind_run.
  destruct (github_stage_normal githubLinks w) as (gh & w1 & E1). rewrite E1.
  rewrite bind_run.
  destruct (highlights_stage_normal resume gh w1) as (rh & w2 & E2). rewrite E2.
  reflexivity.
Qed.

Lemma main_stage_unreadable (file : File) (jdText : jsstring)
      (githubProjects : list GithubProject) (resumeHighlights : JValue)
      (w : World) :
  file_base64 file = None ->
  main_stage P svc (Some file) jdText githubProjects resumeHighlights w
    = (Thrown read_error, w).
Proof.
  intros H. unfold main_stage, fileToGenerativePart. rewrite H. reflexivity.
Qed.

(** The capstone stage, by cases on what the retry wrapper and the
    parser yield. *)
Lemma main_stage_run (resume : option File) (jdText : jsstring)
      (githubProjects : list GithubProject) (resumeHighlights : JValue)
      (ps : list InlineData) (w : World) :
  resume_parts resume = Some ps ->
  main_stage P svc resume jdText githubProjects resumeHighlights w =
    match generateContentWithRetry svc (main_request P ps jdText githubProjects)
                                   4 3000 (log w [EvWait 2000]) with
    | (Thrown e, w') => (Thrown e, w')
    | (Normal mainResponse, w') =>
        match text mainResponse with
        | None => (Thrown (Error (js "No response from AI")), w')
        | Some t =>
            if is_empty t
            then (Thrown (Error (js "No response from AI")), w')
            else match JSON_parse P (cleanJson t) with
                 | None => (Thrown SyntaxError, w')
                 | Some mainResult =>
                     (overlay mainResult githubProjects resumeHighlights, w')
                 end
        end
    end.
Proof.
  intros Hps. unfold main_stage.
  assert (Hparts :
    forall w0,
      match resume with
      | Some file => part <- fileToGenerativePart file ;; ret [part]
      | None => ret []
      end w0 = (Normal ps, w0)).
  { intros w0. unfold resume_parts in Hps. destruct resume as [file|].
    - unfold fileToGenerativePart.
      destruct (file_base64 file); [|discriminate].
      inversion Hps; subst. reflexivity.
    - inversion Hps; subst. reflexivity. }
  rewrite bind_run, Hparts. rewrite bind_run, wait_run. rewrite bind_run.
  destruct (generateContentWithRetry svc
              (main_request P ps jdText githubProjects) 4 3000
              (log w [EvWait 2000])) as [[mainResponse|e] w']; [|reflexivity].
  destruct (text mainResponse) as [t|]; [|reflexivity].
  destruct (is_empty t); [reflexivity|].
  rewrite bind_run. unfold parse_json.
  destruct (JSON_parse P (cleanJson t)) as [mainResult|]; [|reflexivity].
  rewrite ret_run. unfold overlay.
  destruct githubProjects as [|p gh].
  - rewrite bind_run, ret_run. cbn [cbind].
    destruct (truthy resumeHighlights).
    + rewrite bind_run, lift_run.
      destruct (set mainResult (js "resume_highlights") resumeHighlights);
        reflexivity.
    + rewrite bind_run, ret_run. reflexivity.
  - rewrite bind_run, lift_run.
    destruct (set mainResult (js "github_projects")
                  (JArr (List.map project_value (p :: gh)) [])) as [v|e];
      [|reflexivity].
    cbn [cbind]. destruct (truthy resumeHighlights).
    + rewrite bind_run, lift_run.
      destruct (set v (js "resume_highlights") resumeHighlights); reflexivity.
    + rewrite bind_run, ret_run. reflexivity.
Qed.

Lemma resume_parts_cases (resume : option File) :
  (exists ps, resume_parts resume = Some ps) \/
  (exists file, resume = Some file /\ file_base64 file = None).
Proof.
  destruct resume as [file|]; simpl; [|eauto].
  destruct (file_base64 file) eqn:E; eauto.
Qed.

End PipelineFacts.

(* ===================================================================== *)
(** * C4: the capstone stage is all-or-nothing                            *)
(* ===================================================================== *)

(** C4. In every execution of [analyzeProfile], with the side-channel
    results and the world in which the capstone stage starts: if the
    first attempt of the primary synthesis call throws an error that is
    not a quota error, [analyzeProfile] throws that same error after
    this single attempt (the retry budget being 4); whatever error the
    retry wrapper throws, [analyzeProfile] throws it; if the primary
    call returns an absent or empty text, [analyzeProfile] throws "No
    response from AI"; if it returns a text that does not parse,
    [analyzeProfile] throws the parser's error; an unreadable resume
    also makes it throw.  It returns a value only when the primary call
    returned a non-empty text that parses, and the value is then the
    parsed response with the side-channel results overlaid: no partial
    result is ever returned. *)
Theorem capstone_all_or_nothing (P : Platform) (svc : Services)
        (resume : option File) (jdText githubLinks : jsstring) (w : World) :
  let '(githubProjects, resumeHighlights, w2) :=
    side_channels P svc resume githubLinks w in
  let run := analyzeProfile P svc resume jdText githubLinks w in
  (resume_parts resume = None -> run = (Thrown read_error, w2)) /\
  forall ps,
    resume_parts resume = Some ps ->
    let request := main_request P ps jdText githubProjects in
    let w3 := log w2 [EvWait 2000] in
    (forall e,
       generateContent svc (gen_calls w3) request = Thrown e ->
       isQuotaError e = false ->
       run = (Thrown e,
              {| gen_calls := gen_calls w3 + 1;
                 trace := trace w3 ++ [EvGenerate request] |})) /\
    (forall e w4,
       generateContentWithRetry svc request 4 3000 w3 = (Thrown e, w4) ->
       run = (Thrown e, w4)) /\
    (forall response w4,
       generateContentWithRetry svc request 4 3000 w3 = (Normal response, w4) ->
       (text response = None \/ text response = Some [] ->
        run = (Thrown (Error (js "No response from AI")), w4)) /\
       (forall t,
          text response = Some t -> t <> [] ->
          JSON_parse P (cleanJson t) = None ->
          run = (Thrown SyntaxError, w4))) /\
    (forall v w',
       run = (Normal v, w') ->
       exists response t parsed,
         generateContentWithRetry svc request 4 3000 w3 = (Normal response, w') /\
         text response = Some t /\ t <> [] /\
         JSON_parse P (cleanJson t) = Some parsed /\
         overlay parsed githubProjects resumeHighlights = Normal v).
Proof.
  pose proof (analyzeProfile_stages P svc resume jdText githubLinks w) as Hrun.
  destruct (side_channels P svc resume githubLinks w) as [[gh rh] w2].
  cbv zeta. rewrite Hrun. clear Hrun. split.
  - intros Hnone.
    destruct (resume_parts_cases resume) as [(ps & E)|(file & -> & E)];
      [congruence|].
    apply main_stage_unreadable. exact E.
  - intros ps Hps. rewrite (main_stage_run P svc _ jdText gh rh _ Hps).
    repeat split.
    + intros e He Hq.
      rewrite (@retry_non_quota svc (main_request P ps jdText gh)
                 4 3000 (log w2 [EvWait 2000]) e ltac:(lia) He Hq).
      reflexivity.
    + intros e w4 ->. reflexivity.
    + intros [Ht|Ht]; rewrite H, Ht; reflexivity.
    + intros t Ht Hne Hparse. rewrite H, Ht.
      destruct t; [congruence|]. cbn [is_empty].
      rewrite Hparse. reflexivity.
    + intros v w' Hv.
      destruct (generateContentWithRetry svc (main_request P ps jdText gh)
                  4 3000 (log w2 [EvWait 2000])) as [[response|e] w4];
        [|discriminate].
      destruct (text response) as [t|] eqn:Ht; [|discriminate].
      destruct t as [|c t]; [discriminate|]. cbn [is_empty] in Hv.
      destruct (JSON_parse P (cleanJson (c :: t))) as [parsed|] eqn:Hp;
        [|discriminate].
      inversion Hv; subst. exists response, (c :: t), parsed.
      repeat split; auto. discriminate.
Qed.

(** The fourth end-to-end scenario: the primary call throws an error
    that is not a quota error on its first attempt, with a retry budget
    of 4; one attempt is made and the error reaches the caller.  (The
    resume analyzer, which runs before, fails in the same way and
    yields null.) *)
Lemma capstone_all_or_nothing_witness :
  analyzeProfile Reference.platform (failing Examples.server_error)
                 (Some Examples.resume_pdf) [] [] initial_world
  = (Thrown Examples.server_error,
     {| gen_calls := 2;
        trace :=
          [ EvGenerate
              (highlights_request
                 {| data := js "JVBERi0="; mimeType := js "application/pdf" |});
            EvWait 2000;
            EvGenerate
              (main_request Reference.platform
                 [ {| data := js "JVBERi0="; mimeType := js "application/pdf" |} ]
                 [] []) ] |}).
Proof.
  pose proof (capstone_all_or_nothing Reference.platform
                (failing Examples.server_error) (Some Examples.resume_pdf)
                [] [] initial_world) as H.
  change (side_channels Reference.platform (failing Examples.server_error)
            (Some Examples.resume_pdf) [] initial_world)
    with (@nil GithubProject, JNull,
          {| gen_calls := 1;
             trace :=
               [ EvGenerate
                   (highlights_request
                      {| data := js "JVBERi0=";
                         mimeType := js "application/pdf" |}) ] |}) in H.
  cbv beta iota zeta in H. destruct H as [_ H].
  destruct (H _ eq_refl) as (H1 & _).
  exact (H1 Examples.server_error eq_refl eq_refl).
Defined.

(* ===================================================================== *)
(** * C1: the required fields of the primary response                     *)
(* ===================================================================== *)

Section OverlayFacts.

Lemma lookup_assign_other (k k' : jsstring) (x : JValue)
      (props : list (jsstring * JValue)) :
  str_eqb k k' = false -> lookup k (assign k' x props) = lookup k props.
Proof.
  intros Hne. induction props as [|[k0 v0] props IH]; simpl.
  - rewrite Hne. reflexivity.
  - destruct (str_eqb k' k0) eqn:E; simpl.
    + apply str_eqb_eq in E. subst k0. rewrite Hne. reflexivity.
    + rewrite IH. reflexivity.
Qed.

Lemma has_field_set (k k' : jsstring) (x : JValue)
      (props : list (jsstring * JValue)) :
  str_eqb k k' = false ->
  has_field k (JObj (assign k' x props)) = has_field k (JObj props).
Proof. intros H. simpl. rewrite lookup_assign_other by exact H. reflexivity. Qed.

Lemma required_not_overlaid :
  Forall (fun k => str_eqb k (js "github_projects") = false /\
                   str_eqb k (js "resume_highlights") = false)
         ANALYSIS_SCHEMA_required.
Proof. repeat constructor. Qed.

(** On an object the overlay succeeds and leaves the required fields as
    they are. *)
Lemma overlay_object (props : list (jsstring * JValue))
      (githubProjects : list GithubProject) (resumeHighlights : JValue) :
  exists props',
    overlay (JObj props) githubProjects resumeHighlights = Normal (JObj props') /\
    forall k, In k ANALYSIS_SCHEMA_required ->
              has_field k (JObj props') = has_field k (JObj props).
Proof.
  pose proof required_not_overlaid as Hreq. rewrite Forall_forall in Hreq.
  unfold overlay.
  destruct githubProjects as [|p gh]; cbn [set cbind];
    destruct (truthy resumeHighlights); cbn [set];
      eexists; (split; [reflexivity|]); intros k Hk;
        destruct (Hreq k Hk) as [H1 H2];
        rewrite ?has_field_set by assumption; reflexivity.
Qed.

End OverlayFacts.

(** C1 as stated fails on a response that parses but lacks required
    fields: the model answers [{}] to every call, and [analyzeProfile]
    returns the empty object with the resume highlights overlaid, which
    holds none of the required fields. *)
Lemma incomplete_response_returned :
  exists w',
    analyzeProfile Reference.platform
                   (flaky 0 (Examples.response_text (js "{}")))
                   (Some Examples.resume_pdf) [] [] initial_world
    = (Normal (JObj [ (js "resume_highlights", JObj []) ]), w')
    /\ has_required_fields (JObj [ (js "resume_highlights", JObj []) ]) = false
    /\ Forall (fun k =>
                 has_field k (JObj [ (js "resume_highlights", JObj []) ]) = false)
              ANALYSIS_SCHEMA_required.
Proof.
  eexists. split; [reflexivity|]. split; [reflexivity|]. repeat constructor.
Qed.

(** C1 (amended). [analyzeProfile] treats the primary call as failed
    when the text it returns is absent or empty, or does not parse as
    JSON once the code fences are stripped.  It makes no check of the
    fields the schema marks required: when the text parses to an object,
    [analyzeProfile] returns that object with the side-channel results
    overlaid, and the result holds a required top-level field exactly
    when the parsed response holds it. *)
Theorem analysis_result_is_parsed_response (P : Platform) (svc : Services)
        (resume : option File) (jdText githubLinks : jsstring) (w : World) :
  let '(githubProjects, resumeHighlights, w2) :=
    side_channels P svc resume githubLinks w in
  let run := analyzeProfile P svc resume jdText githubLinks w in
  forall ps response w4,
    resume_parts resume = Some ps ->
    generateContentWithRetry svc (main_request P ps jdText githubProjects)
                             4 3000 (log w2 [EvWait 2000])
      = (Normal response, w4) ->
    (text response = None \/ text response = Some [] ->
     run = (Thrown (Error (js "No response from AI")), w4)) /\
    (forall t,
       text response = Some t -> t <> [] ->
       JSON_parse P (cleanJson t) = None ->
       run = (Thrown SyntaxError, w4)) /\
    (forall t props,
       text response = Some t -> t <> [] ->
       JSON_parse P (cleanJson t) = Some (JObj props) ->
       exists props',
         run = (Normal (JObj props'), w4) /\
         overlay (JObj props) githubProjects resumeHighlights
           = Normal (JObj props') /\
         forall k, In k ANALYSIS_SCHEMA_required ->
                   has_field k (JObj props') = has_field k (JObj props)).
Proof.
  pose proof (analyzeProfile_stages P svc resume jdText githubLinks w) as Hrun.
  destruct (side_channels P svc resume githubLinks w) as [[gh rh] w2].
  cbv zeta. rewrite Hrun. clear Hrun.
  intros ps response w4 Hps Hcall.
  rewrite (main_stage_run P svc _ jdText gh rh _ Hps), Hcall.
  repeat split.
  - intros [Ht|Ht]; rewrite Ht; reflexivity.
  - intros t Ht Hne Hparse. rewrite Ht.
    destruct t; [congruence|]. cbn [is_empty].
    rewrite Hparse. reflexivity.
  - intros t props Ht Hne Hparse. rewrite Ht.
    destruct t; [congruence|]. cbn [is_empty].
    rewrite Hparse.
    destruct (overlay_object props gh rh) as (props' & Ho & Hf).
    exists props'. rewrite Ho. auto.
Qed.

Lemma analysis_result_is_parsed_response_witness :
  exists props',
    analyzeProfile Reference.platform
                   (flaky 0 (Examples.response_text (js "{}")))
                   (Some Examples.resume_pdf) [] [] initial_world
    = (Normal (JObj props'),
       {| gen_calls := 2;
          trace :=
            [ EvGenerate
                (highlights_request
                   {| data := js "JVBERi0="; mimeType := js "application/pdf" |});
              EvWait 2000;
              EvGenerate
                (main_request Reference.platform
                   [ {| data := js "JVBERi0=";
                        mimeType := js "application/pdf" |} ]
                   [] []) ] |})
    /\ overlay (JObj []) [] (JObj []) = Normal (JObj props')
    /\ forall k, In k ANALYSIS_SCHEMA_required ->
                 has_field k (JObj props') = has_field k (JObj []).
Proof.
  pose proof (analysis_result_is_parsed_response Reference.platform
                (flaky 0 (Examples.response_text (js "{}")))
                (Some Examples.resume_pdf) [] [] initial_world) as H.
  change (side_channels Reference.platform
            (flaky 0 (Examples.response_text (js "{}")))
            (Some Examples.resume_pdf) [] initial_world)
    with (@nil GithubProject, JObj [],
          {| gen_calls := 1;
             trace :=
               [ EvGenerate
                   (highlights_request
                      {| data := js "JVBERi0=";
                         mimeType := js "application/pdf" |}) ] |}) in H.
  cbv beta iota zeta in H.
  destruct (H _ (Examples.response_text (js "{}")) _ eq_refl eq_refl)
    as (_ & _ & H3).
  exact (H3 (js "{}") [] eq_refl ltac:(discriminate) eq_refl).
Defined.

(* ===================================================================== *)
(** * C2: the staging of the primary pipeline                             *)
(* ===================================================================== *)

Section EmitFacts.
Variable Q : Event -> Prop.

Lemma emits_ret (A : Type) (a : A) : emits Q (ret a).
Proof. intros w. exists []. rewrite app_nil_r. auto. Qed.

Lemma emits_throw (A : Type) (e : JsError) : emits Q (@throw A e).
Proof. intros w. exists []. rewrite app_nil_r. auto. Qed.

Lemma emits_lift (A : Type) (c : completion A) : emits Q (lift c).
Proof. destruct c; [apply emits_ret | apply emits_throw]. Qed.

Lemma emits_event (ev : Event) : Q ev -> emits Q (emit ev).
Proof. intros H w. exists [ev]. auto. Qed.

Lemma emits_wait (ms : Z) : Q (EvWait ms) -> emits Q (wait ms).
Proof. apply emits_event. Qed.

Lemma emits_call_model (svc : Services) (req : Request) :
  Q (EvGenerate req) -> emits Q (call_model svc req).
Proof. intros H w. exists [EvGenerate req]. auto. Qed.

Lemma emits_bind (A B : Type) (c : M A) (f : A -> M B) :
  emits Q c -> (forall a, emits Q (f a)) -> emits Q (bind c f).
Proof.
  intros Hc Hf w. rewrite bind_run.
  destruct (Hc w) as (t1 & E1 & F1).
  destruct (c w) as [[a|e] w1]; simpl in E1.
  - destruct (Hf a w1) as (t2 & E2 & F2).
    exists (t1 ++ t2). rewrite E2, E1, app_assoc. split; [reflexivity|].
    apply Forall_app; auto.
  - exists t1. auto.
Qed.

Lemma emits_try_catch (A : Type) (c : M A) (h : JsError -> M A) :
  emits Q c -> (forall e, emits Q (h e)) -> emits Q (try_catch c h).
Proof.
  intros Hc Hh w. rewrite try_catch_run.
  destruct (Hc w) as (t1 & E1 & F1).
  destruct (c w) as [[a|e] w1]; simpl in E1.
  - exists t1. auto.
  - destruct (Hh e w1) as (t2 & E2 & F2).
    exists (t1 ++ t2). rewrite E2, E1, app_assoc. split; [reflexivity|].
    apply Forall_app; auto.
Qed.

Lemma emits_fetch (A : Type) (url : jsstring) (answer : Http A) :
  Q (EvFetch url) -> emits Q (fetch url answer).
Proof.
  intros H. apply emits_bind; [apply emits_event; exact H|].
  intros _. apply emits_ret.
Qed.

Lemma emits_retry_loop (svc : Services) (params : Request) (R : nat) (D : Z) :
  Q (EvGenerate params) -> (forall ms, Q (EvWait ms)) ->
  forall remaining i, emits Q (retry_loop svc params R D remaining i).
Proof.
  intros Hg Hw.
  induction remaining as [|n IH]; intros i; cbn [retry_loop].
  - apply emits_throw.
  - apply emits_try_catch; [apply emits_call_model; exact Hg|].
    intros e.
    destruct (isQuotaError e && (Z.of_nat i <? Z.of_nat R - 1)%Z);
      [|apply emits_throw].
    apply emits_bind; [apply emits_wait, Hw | intros _; apply IH].
Qed.

Lemma emits_retry (svc : Services) (params : Request) (R : nat) (D : Z) :
  Q (EvGenerate params) -> (forall ms, Q (EvWait ms)) ->
  emits Q (generateContentWithRetry svc params R D).
Proof. intros Hg Hw. apply emits_retry_loop; assumption. Qed.

End EmitFacts.

(** Symbolic execution for [emits]: the combinators, then the case
    analyses of the code. *)
Ltac emits_step :=
  match goal with
  | |- emits _ (bind _ _) => apply emits_bind; [|intros ?]
  | |- emits _ (try_catch _ _) => apply emits_try_catch; [|intros ?]
  | |- emits _ (ret _) => apply emits_ret
  | |- emits _ (throw _) => apply emits_throw
  | |- emits _ (lift _) => apply emits_lift
  | |- emits _ (wait _) => apply emits_wait; exact I
  | |- emits _ (fetch _ _) => apply emits_fetch; exact I
  | |- emits _ (match ?x with _ => _ end) => destruct x
  end.

Section StageFacts.
Variable P : Platform.
Variable svc : Services.

Lemma fetchGithubFileContent_emits (owner repo path : jsstring) :
  emits github_event (fetchGithubFileContent P svc owner repo path).
Proof. unfold fetchGithubFileContent. repeat emits_step. Qed.

Lemma fetch_blocks_emits (owner repo : jsstring) (files : list DirEntry) :
  emits github_event (fetch_blocks P svc owner repo files).
Proof.
  induction files as [|file rest IH]; cbn [fetch_blocks].
  - apply emits_ret.
  - apply emits_bind; [apply fetchGithubFileContent_emits|]. intros content.
    apply emits_bind; [exact IH|]. intros blocks.
    repeat emits_step.
Qed.

Lemma fetchGithubRepoData_emits (owner repo : jsstring) :
  emits github_event (fetchGithubRepoData P svc owner repo).
Proof.
  unfold fetchGithubRepoData.
  repeat first [apply fetch_blocks_emits | emits_step].
Qed.

Lemma fetch_repos_emits (targetRepos : list Github.RepoReference) :
  emits github_event (fetch_repos P svc targetRepos).
Proof.
  induction targetRepos as [|r rest IH]; cbn [fetch_repos].
  - apply emits_ret.
  - apply emits_bind; [apply fetchGithubRepoData_emits|]. intros data.
    apply emits_bind; [exact IH|]. intros valid.
    repeat emits_step.
Qed.

Lemma analyze_repo_emits (repoData : ArtifactBundle) :
  emits github_event (analyze_repo P svc repoData).
Proof.
  unfold analyze_repo, generateContentWithRetry_default, parse_json.
  repeat first [apply emits_retry; [reflexivity | intros; exact I] | emits_step].
Qed.

Lemma analyze_repos_emits (validRepoData : list ArtifactBundle) :
  emits github_event (analyze_repos P svc validRepoData).
Proof.
  induction validRepoData as [|d rest IH]; cbn [analyze_repos].
  - apply emits_ret.
  - apply emits_bind; [apply analyze_repo_emits|]. intros pushed.
    apply emits_bind; [exact IH|]. intros results. apply emits_ret.
Qed.

Lemma github_stage_emits (githubLinks : jsstring) :
  emits github_event (github_stage P svc githubLinks).
Proof.
  unfold github_stage, analyzeGithubReposWithAPI.
  repeat first [apply fetch_repos_emits | apply analyze_repos_emits | emits_step].
Qed.

Lemma highlights_stage_emits (resume : option File)
      (githubProjects : list GithubProject) :
  emits highlights_event (highlights_stage P svc resume githubProjects).
Proof.
  unfold highlights_stage, analyzeResumeHighlights, fileToGenerativePart,
    generateContentWithRetry_default, parse_json.
  repeat first [apply emits_retry; [reflexivity | intros; exact I] | emits_step].
Qed.

Lemma main_stage_emits (resume : option File) (jdText : jsstring)
      (githubProjects : list GithubProject) (resumeHighlights : JValue) :
  emits (capstone_event P jdText githubProjects)
        (main_stage P svc resume jdText githubProjects resumeHighlights).
Proof.
  unfold main_stage, fileToGenerativePart, parse_json.
  repeat first [apply emits_retry; [simpl; eauto | intros; exact I]
               | emits_step].
Qed.

End StageFacts.

(** C2. In the primary pipeline the log of every execution is made of
    three consecutive segments: first the events of the GitHub analysis
    batch (HTTP requests, per-artifact model calls, waits), which
    completes normally with a list of projects whatever fails inside
    it; then the events of the resume segment analyzer (its model calls
    and waits), which completes normally as well; and only then the
    events of the capstone stage, whose model calls carry the main
    prompt built from the projects the first stage returned. *)
Theorem sequential_staging (P : Platform) (svc : Services)
        (resume : option File) (jdText githubLinks : jsstring) (w : World) :
  exists githubProjects resumeHighlights w1 w2 t1 t2 t3,
    github_stage P svc githubLinks w = (Normal githubProjects, w1) /\
    highlights_stage P svc resume githubProjects w1
      = (Normal resumeHighlights, w2) /\
    analyzeProfile P svc resume jdText githubLinks w
      = main_stage P svc resume jdText githubProjects resumeHighlights w2 /\
    trace w1 = trace w ++ t1 /\ Forall github_event t1 /\
    trace w2 = trace w1 ++ t2 /\ Forall highlights_event t2 /\
    trace (snd (analyzeProfile P svc resume jdText githubLinks w))
      = trace w ++ t1 ++ t2 ++ t3 /\
    Forall (capstone_event P jdText githubProjects) t3.
Proof.
  destruct (github_stage_normal P svc githubLinks w) as (gh & w1 & E1).
  destruct (highlights_stage_normal P svc resume gh w1) as (rh & w2 & E2).
  destruct (github_stage_emits P svc githubLinks w) as (t1 & T1 & F1).
  destruct (highlights_stage_emits P svc resume gh w1) as (t2 & T2 & F2).
  destruct (main_stage_emits P svc resume jdText gh rh w2) as (t3 & T3 & F3).
  rewrite E1 in T1. rewrite E2 in T2. simpl in T1, T2.
  assert (Hrun : analyzeProfile P svc resume jdText githubLinks w
                 = main_stage P svc resume jdText gh rh w2).
  { rewrite analyzeProfile_stages. unfold side_channels.
    rewrite E1, E2. reflexivity. }
  exists gh, rh, w1, w2, t1, t2, t3.
  repeat split; auto.
  rewrite Hrun, T3, T2, T1. rewrite <- !app_assoc. reflexivity.
Qed.

(* ===================================================================== *)
(** * C9: the best-effort components                                      *)
(* ===================================================================== *)

Section BestEffort.
Variable P : Platform.
Variable svc : Services.

Lemma try_catch_fallback (A : Type) (c : M A) (d : A) (e : JsError)
      (w w' : World) :
  c w = (Thrown e, w') -> try_catch c (fun _ => ret d) w = (Normal d, w').
Proof. intros H. rewrite try_catch_run, H. reflexivity. Qed.

Lemma bind_thrown (A B : Type) (c : M A) (f : A -> M B) (e : JsError)
      (w w' : World) :
  c w = (Thrown e, w') -> bind c f w = (Thrown e, w').
Proof. intros H. rewrite bind_run, H. reflexivity. Qed.



End BestEffort.




(** Before their handler is installed, the resume segment analyzer
    reads the resume and the portfolio generator projects the candidate
    profile; a failure there reaches the caller. *)
Example unreadable_resume_propagates (svc : Services) (w : World) :
  analyzeResumeHighlights Reference.platform svc
    (Some {| file_base64 := None; file_type := js "application/pdf" |}) w
  = (Thrown read_error, w).
Proof. reflexivity. Qed.

Example portfolio_of_empty_result_propagates (svc : Services) (w : World) :
  generatePortfolioHtml svc (JObj []) (JObj []) w
  = (Thrown TypeError, w).
Proof. reflexivity. Qed.

(* ===================================================================== *)
(** * End-to-end runs                                                     *)
(* ===================================================================== *)

(** The third end-to-end scenario: a text wrapped in a Markdown fence
    is stripped of both fences and parses. *)
Example fenced_json_parses :
  cleanJson Examples.analysis_json
  = js "{" +++ Examples.quoted "overall_scores" +++ js ":{"
       +++ Examples.quoted "overall_match" +++ js ":72}}"
  /\ Reference.JSON_parse (cleanJson Examples.analysis_json)
     = Some (JObj [ (js "overall_scores",
                     JObj [ (js "overall_match", JNum (double_of_N 72)) ]) ]).
Proof. split; vm_compute; reflexivity. Qed.

(** A run of the whole pipeline on one repository link, a readable
    resume and an assistant that rejects the primary request for quota
    during the first three calls of the session: the repository is
    fetched (the README is requested first and its request fails), the
    one artifact is analyzed, the resume is analyzed after the pause,
    and the primary call succeeds on its second attempt after a back-off
    of 3 seconds.  The result is the parsed response with both
    overlays. *)
Example pipeline_run :
  let run := analyzeProfile Reference.platform (Examples.assistant 3)
               (Some Examples.resume_pdf) [] (js "github.com/foo/bar")
               initial_world in
  List.map Examples.brief_of (trace (snd run))
  = [ Examples.Fetch "https://api.github.com/repos/foo/bar";
      Examples.Fetch "https://api.github.com/repos/foo/bar/languages";
      Examples.Fetch "https://api.github.com/repos/foo/bar/contents";
      Examples.Fetch "https://api.github.com/repos/foo/bar/contents/README.md";
      Examples.Fetch "https://api.github.com/repos/foo/bar/contents/package.json";
      Examples.Fetch "https://api.github.com/repos/foo/bar/contents/requirements.txt";
      Examples.Fetch "https://api.github.com/repos/foo/bar/contents/main.py";
      Examples.Call (Some GITHUB_DEEP_ANALYSIS_SCHEMA);
      Examples.Wait 2000;
      Examples.Wait 1500;
      Examples.Call (Some RESUME_HIGHLIGHTS_SCHEMA);
      Examples.Wait 2000;
      Examples.Call (Some ANALYSIS_SCHEMA);
      Examples.Wait 3000;
      Examples.Call (Some ANALYSIS_SCHEMA) ]%string
  /\ match fst run with
     | Normal (JObj props) =>
         List.map fst props
         = [ js "overall_scores"; js "github_projects"; js "resume_highlights" ]
         /\ lookup (js "github_projects") props
            = Some (JArr [ JObj [ (js "name", JStr (js "bar"));
                                  (js "summary", JStr (js "CLI: A tool"));
                                  (js "tech_stack", JUndefined);
                                  (js "complexity_rating", JNum (double_of_N 3));
                                  (js "resume_bullets", JUndefined);
                                  (js "improvement_suggestions", JUndefined) ] ]
                         [])
     | _ => False
     end.
Proof. vm_compute. repeat split; reflexivity. Qed.

(** A mapping whose byte counts are all zero has total zero, and the
    shares are not numbers. *)
Example summary_of_empty_files :
  langSummary [ (js "Text", 0%N) ] = js "Text NaN%".
Proof. vm_compute. reflexivity. Qed.

(** The quota test reads the status, the code and the text of the
    error. *)
Example quota_errors :
  isQuotaError Examples.quota_error = true
  /\ isQuotaError (Error (js "You exceeded your current quota")) = true
  /\ isQuotaError (Error (js "RESOURCE_EXHAUSTED")) = true
  /\ isQuotaError {| err_status := None; err_code := Some 429%Z;
                     err_message := []; err_json := js "{}" |} = true
  /\ isQuotaError Examples.server_error = false.
Proof. repeat split; reflexivity. Qed.
(* ===================================================================== *)
(** * The cleaning of fenced model output: what is removed               *)
(* ===================================================================== *)

(** X1. [cleanJson] removes one Markdown fence.  A text that opens with
    the tagged fence [```json] and ends with the closing fence cleans to
    its body, trimmed, provided the body does not itself begin with a
    fence; so does a text between two plain fences, provided its body
    does not begin with ["json"]; and a text that neither starts nor
    ends with a fence is only trimmed. *)
Theorem cleanJson_removes_fence :
  (forall body,
     startsWith (trimStart body) fence = false ->
     cleanJson (js "```json" +++ body +++ fence) = trim body) /\
  (forall body,
     startsWith body (js "json") = false ->
     cleanJson (fence +++ body +++ fence) = trim body) /\
  (forall text,
     startsWith text fence = false ->
     startsWith (rev text) fence = false ->
     cleanJson text = trim text).
Proof.
  split; [|split].
  - intros body Hb. unfold cleanJson.
    change (is_empty (js "```json" +++ body +++ fence)) with false. cbv iota.
    unfold fence_json_re. rewrite replace_open.
    rewrite trimStart_app by reflexivity.
    destruct (trimStart_split body) as (_ & _ & _ & Hh).
    rewrite close_after_open by assumption. apply trim_trimStart.
  - intros body Hb. unfold cleanJson.
    change (is_empty (fence +++ body +++ fence)) with false. cbv iota.
    unfold fence_json_re.
    rewrite replace_open_none.
    + unfold fence_open_re. fold fence. rewrite replace_open.
      rewrite trimStart_app by reflexivity.
      unfold fence_close_re. fold fence. rewrite replace_close.
      apply trim_trimStart.
    + change (js "```json") with (fence ++ js "json").
      rewrite startsWith_app_cancel. apply startsWith_before_fence; [|exact Hb].
      repeat constructor; discriminate.
  - intros text Hs He. unfold cleanJson.
    destruct text as [|c text]; [reflexivity|]. cbv iota. cbn [is_empty].
    unfold fence_json_re. change (js "```json") with (fence ++ js "json").
    rewrite replace_open_none by (apply startsWith_longer; exact Hs).
    unfold fence_open_re. fold fence. rewrite replace_open_none by exact Hs.
    unfold fence_close_re. fold fence.
    rewrite replace_close_none; [reflexivity | apply fence_not_nil |].
    apply not_suffix. exact He.
Qed.

Lemma cleanJson_removes_fence_witness :
  cleanJson (js "```json" +++ (newline +++ js "{}" +++ newline) +++ fence)
    = trim (newline +++ js "{}" +++ newline)
  /\ cleanJson (fence +++ (newline +++ js "[1]" +++ newline) +++ fence)
     = trim (newline +++ js "[1]" +++ newline)
  /\ cleanJson (js " {} ") = trim (js " {} ").
Proof.
  destruct cleanJson_removes_fence as (H1 & H2 & H3).
  split; [|split].
  - apply H1. reflexivity.
  - apply H2. reflexivity.
  - apply H3; reflexivity.
Defined.

(** X2. A closing fence that is followed by white space (a final line
    break, say) is not removed: the pattern [/```$/] is tried before the
    text is trimmed, and [$] is the end of the input.  The cleaned text
    then still ends with the fence. *)
Theorem cleanJson_keeps_fence_before_space (body ws : jsstring) :
  ws <> [] -> all_space ws ->
  head_is (fun c => negb (N.eqb c backtick)) (trimStart body) = true ->
  cleanJson (js "```json" +++ body +++ fence +++ ws)
  = trimStart body +++ fence.
Proof.
  intros Hne Hws Hhead. unfold cleanJson.
  change (is_empty (js "```json" +++ body +++ fence +++ ws)) with false.
  cbv iota. unfold fence_json_re. rewrite replace_open.
  rewrite trimStart_app by reflexivity.
  destruct (trimStart_split body) as (_ & _ & _ & Hh).
  set (b := trimStart body) in *. clearbody b.
  destruct b as [|c b]; [discriminate|]. simpl in Hhead.
  apply negb_true_iff, N.eqb_neq in Hhead. unfold backtick in Hhead.
  unfold fence_open_re. fold fence.
  rewrite replace_open_none.
  2:{ change fence with [96%N; 96%N; 96%N]. cbn [startsWith app].
      destruct (N.eqb_spec 96 c); [congruence | reflexivity]. }
  unfold fence_close_re. fold fence.
  assert (Hrev : exists d ws', rev ws = d :: ws' /\ is_space d = true).
  { pose proof (Forall_rev Hws) as Hr.
    destruct (rev ws) as [|d ws'] eqn:E.
    - apply (f_equal (@rev N)) in E. rewrite rev_involutive in E.
      simpl in E. congruence.
    - inversion Hr; subst. eauto. }
  destruct Hrev as (d & ws' & Hrev & Hd).
  rewrite replace_close_none; [|apply fence_not_nil|].
  - unfold trim. rewrite (trimStart_head ((c :: b) ++ fence ++ ws)) by exact Hh.
    unfold trimEnd. rewrite !app_assoc, rev_app_distr.
    rewrite trimStart_spaces by (apply Forall_rev; exact Hws).
    rewrite trimStart_head, rev_involutive; [reflexivity|].
    rewrite rev_app_distr. reflexivity.
  - intros x Hx. apply (f_equal (@rev N)) in Hx.
    rewrite !app_assoc, !rev_app_distr, Hrev in Hx.
    simpl in Hx. inversion Hx; subst d. discriminate Hd.
Qed.

Lemma cleanJson_keeps_fence_before_space_witness :
  cleanJson (js "```json" +++ (newline +++ js "{}" +++ newline) +++ fence
                +++ newline)
  = trimStart (newline +++ js "{}" +++ newline) +++ fence.
Proof.
  apply cleanJson_keeps_fence_before_space.
  - discriminate.
  - repeat constructor.
  - reflexivity.
Defined.

(** X3. [cleanHtml] removes one Markdown fence in the same way, its
    tagged fence being [```html]. *)
Theorem cleanHtml_removes_fence :
  (forall body,
     startsWith (trimStart body) fence = false ->
     cleanHtml (js "```html" +++ body +++ fence) = trim body) /\
  (forall body,
     startsWith body (js "html") = false ->
     cleanHtml (fence +++ body +++ fence) = trim body) /\
  (forall text,
     startsWith text fence = false ->
     startsWith (rev text) fence = false ->
     cleanHtml text = trim text).
Proof.
  split; [|split].
  - intros body Hb. unfold cleanHtml.
    change (is_empty (js "```html" +++ body +++ fence)) with false. cbv iota.
    unfold fence_html_re. rewrite replace_open.
    rewrite trimStart_app by reflexivity.
    destruct (trimStart_split body) as (_ & _ & _ & Hh).
    rewrite close_after_open by assumption. apply trim_trimStart.
  - intros body Hb. unfold cleanHtml.
    change (is_empty (fence +++ body +++ fence)) with false. cbv iota.
    unfold fence_html_re.
    rewrite replace_open_none.
    + unfold fence_open_re. fold fence. rewrite replace_open.
      rewrite trimStart_app by reflexivity.
      unfold fence_close_re. fold fence. rewrite replace_close.
      apply trim_trimStart.
    + change (js "```html") with (fence ++ js "html").
      rewrite startsWith_app_cancel. apply startsWith_before_fence; [|exact Hb].
      repeat constructor; discriminate.
  - intros text Hs He. unfold cleanHtml.
    destruct text as [|c text]; [reflexivity|]. cbv iota. cbn [is_empty].
    unfold fence_html_re. change (js "```html") with (fence ++ js "html").
    rewrite replace_open_none by (apply startsWith_longer; exact Hs).
    unfold fence_open_re. fold fence. rewrite replace_open_none by exact Hs.
    unfold fence_close_re. fold fence.
    rewrite replace_close_none; [reflexivity | apply fence_not_nil |].
    apply not_suffix. exact He.
Qed.

Lemma cleanHtml_removes_fence_witness :
  cleanHtml (js "```html" +++ (newline +++ js "<p>x</p>" +++ newline) +++ fence)
    = trim (newline +++ js "<p>x</p>" +++ newline)
  /\ cleanHtml (fence +++ (js "<p>x</p>") +++ fence) = trim (js "<p>x</p>")
  /\ cleanHtml (js "<p>x</p>") = trim (js "<p>x</p>").
Proof.
  destruct cleanHtml_removes_fence as (H1 & H2 & H3).
  split; [|split].
  - apply H1. reflexivity.
  - apply H2. reflexivity.
  - apply H3; reflexivity.
Defined.
(* ===================================================================== *)
(** * The reference parser on one link                                   *)
(* ===================================================================== *)

(** X4. The reference parser recognizes a repository link in its usual
    forms.  For a well-formed owner and repository name, the bare
    [owner/repo], [github.com/owner/repo] and the same after [https://]
    or [http://] all give the one reference to that repository with its
    canonical URL, also when the link goes on (with a path, a query, a
    fragment or a final slash): what follows the repository name is
    ignored, provided it has no white space or comma and does not begin
    with a character a repository name may contain. *)
Theorem parseGithubInput_recognizes (prefix o r tail : jsstring) :
  In prefix [ []; js "github.com/"; js "https://github.com/";
              js "http://github.com/" ] ->
  well_formed_owner o -> well_formed_repo r ->
  no_separator tail -> head_is Github.is_repo_char tail = false ->
  Github.parseGithubInput (prefix +++ o +++ js "/" +++ r +++ tail)
  = [ {| Github.owner := o; Github.repo := r;
         Github.url := js "https://github.com/" +++ o +++ js "/" +++ r |} ].
Proof.
  intros Hp Ho Hr Hns Ht.
  rewrite parseGithubInput_token.
  - apply parse_link_recognizes; assumption.
  - destruct Ho as [Hlo _]. destruct o; [simpl in Hlo; lia|].
    destruct prefix; discriminate.
  - apply no_separator_link; assumption.
Qed.

Lemma parseGithubInput_recognizes_witness :
  Github.parseGithubInput
    (js "https://github.com/" +++ js "foo" +++ js "/" +++ js "bar"
        +++ js "/tree/main/")
  = [ {| Github.owner := js "foo"; Github.repo := js "bar";
         Github.url := js "https://github.com/" +++ js "foo" +++ js "/"
                          +++ js "bar" |} ].
Proof.
  apply parseGithubInput_recognizes.
  - right; right; left; reflexivity.
  - split; [simpl; lia | repeat constructor].
  - split; [simpl; lia | repeat constructor].
  - repeat constructor.
  - reflexivity.
Defined.
(* ===================================================================== *)
(** * The reference parser on a list of links                             *)
(* ===================================================================== *)

Section LinkLists.

Local Abbreviation ok_token :=
  (fun t : jsstring => t <> [] /\ no_separator t).

Lemma join_cons2 (sep x y : jsstring) (l : list jsstring) :
  join sep (x :: y :: l) = x ++ sep ++ join sep (y :: l).
Proof. reflexivity. Qed.

Lemma join_head (sep x : jsstring) (l : list jsstring) :
  exists rest, join sep (x :: l) = x ++ rest.
Proof.
  destruct l as [|y l].
  - exists []. simpl. rewrite app_nil_r. reflexivity.
  - eexists. apply join_cons2.
Qed.

Lemma split_loop_join (sep : jsstring) :
  sep <> [] -> all_separators sep ->
  forall ts t pos,
    Forall ok_token (t :: ts) ->
    split_loop Github.separators_re pos (join sep (t :: ts)) [] 0 = t :: ts.
Proof.
  intros Hs Hsep. induction ts as [|t' ts IH]; intros t pos H.
  - inversion H as [|? ? [Hne Hns] _]; subst. cbn [join].
    rewrite <- (app_nil_r t) at 1.
    rewrite split_loop_token by assumption.
    rewrite app_nil_r. cbn [split_loop]. rewrite rev_involutive. reflexivity.
  - inversion H as [|? ? [Hne Hns] Hrest]; subst.
    rewrite join_cons2.
    rewrite split_loop_token by assumption.
    rewrite split_loop_separators; auto.
    + rewrite app_nil_r, rev_involutive. f_equal. apply IH. exact Hrest.
    + destruct sep; [congruence | simpl; lia].
    + inversion Hrest as [|? ? [Hne' Hns'] _]; subst.
      destruct (join_head sep t' ts) as (rest & ->).
      destruct t' as [|c t']; [congruence|]. inversion Hns'; auto.
Qed.

Lemma split_join (sep : jsstring) (ts : list jsstring) :
  sep <> [] -> all_separators sep -> ts <> [] ->
  Forall ok_token ts ->
  split Github.separators_re (join sep ts) = ts.
Proof.
  intros Hs Hsep Hne H. destruct ts as [|t ts]; [congruence|].
  unfold split.
  destruct (join sep (t :: ts)) as [|c s] eqn:E.
  - exfalso. destruct (join_head sep t ts) as (rest & Hj).
    rewrite Hj in E. inversion H as [|? ? [Ht _] _]; subst.
    destruct t; [congruence | discriminate E].
  - rewrite <- E. apply split_loop_join; assumption.
Qed.

Lemma filter_nonempty (ts : list jsstring) :
  Forall ok_token ts -> filter (fun t => negb (is_empty t)) ts = ts.
Proof.
  induction 1 as [|t ts [Hne _] _ IH]; [reflexivity|].
  simpl. destruct t; [congruence|]. simpl. rewrite IH. reflexivity.
Qed.

Lemma link_text_token (l : Link) : well_formed_link l -> ok_token (link_text l).
Proof.
  intros (Hp & Ho & Hr). unfold link_text. split.
  - destruct Ho as [Hlo _]. destruct (fst (snd l)); [simpl in Hlo; lia|].
    destruct (fst l); discriminate.
  - rewrite <- (app_nil_r (snd (snd l))).
    apply no_separator_link; auto. constructor.
Qed.

Lemma parse_links (links : list Link) :
  Forall well_formed_link links ->
  flat_map Github.parse_link (List.map link_text links)
  = List.map reference (List.map snd links).
Proof.
  induction 1 as [|l links (Hp & Ho & Hr) _ IH]; [reflexivity|].
  cbn [List.map flat_map]. rewrite IH. unfold link_text at 1.
  rewrite <- (app_nil_r (snd (snd l))) at 1.
  rewrite (@parse_link_recognizes (fst l) (fst (snd l)) (snd (snd l)) [])
    by (auto; first [constructor | reflexivity]).
  reflexivity.
Qed.

(** The canonical URL tells the repositories apart. *)
Lemma app_slash_inj (o o' r r' : jsstring) :
  ~ In slash o -> ~ In slash o' ->
  o ++ slash :: r = o' ++ slash :: r' -> o = o' /\ r = r'.
Proof.
  revert o'. induction o as [|c o IH]; intros [|c' o'] Ho Ho' H; simpl in *.
  - inversion H. auto.
  - inversion H; subst. exfalso. apply Ho'. left. reflexivity.
  - inversion H; subst. exfalso. apply Ho. left. reflexivity.
  - inversion H; subst. destruct (IH o') as [-> ->]; auto.
Qed.

Lemma owner_no_slash (o : jsstring) : well_formed_owner o -> ~ In slash o.
Proof.
  intros [_ H] Hin. rewrite Forall_forall in H. apply H in Hin.
  discriminate Hin.
Qed.

Lemma same_repo_eq (p q : jsstring * jsstring) :
  same_repo p q = true <-> p = q.
Proof.
  unfold same_repo. rewrite andb_true_iff, !str_eqb_eq.
  destruct p, q; simpl. split; [intros [-> ->]; reflexivity|].
  intros H; inversion H; auto.
Qed.

Lemma same_repo_sym (p q : jsstring * jsstring) :
  same_repo p q = same_repo q p.
Proof.
  destruct (same_repo p q) eqn:E; symmetry.
  - apply same_repo_eq. symmetry. apply same_repo_eq. exact E.
  - apply not_true_is_false. intros H. apply same_repo_eq in H.
    symmetry in H. apply same_repo_eq in H. congruence.
Qed.

Local Abbreviation wf_pair :=
  (fun p : jsstring * jsstring =>
     well_formed_owner (fst p) /\ well_formed_repo (snd p)).

Lemma url_same_repo (p q : jsstring * jsstring) :
  wf_pair p -> wf_pair q ->
  str_eqb (Github.url (reference p)) (Github.url (reference q))
  = same_repo p q.
Proof.
  intros [Hp _] [Hq _]. simpl. unfold canonical_url.
  destruct (same_repo p q) eqn:E.
  - apply same_repo_eq in E. subst q. apply str_eqb_refl.
  - apply not_true_is_false. intros H. apply str_eqb_eq in H.
    apply app_slash_inj in H; auto using owner_no_slash.
    destruct H as [H1 H2]. destruct p, q; simpl in *; subst.
    assert (F : same_repo (j1, j2) (j1, j2) = true)
      by (apply same_repo_eq; reflexivity).
    congruence.
Qed.

Local Abbreviation entry :=
  (fun p : jsstring * jsstring => (Github.url (reference p), reference p)).

Local Abbreviation member :=
  (fun (acc : list (jsstring * jsstring)) (p : jsstring * jsstring) =>
     existsb (same_repo p) acc).

Lemma map_set_entry (p : jsstring * jsstring)
      (acc : list (jsstring * jsstring)) :
  wf_pair p -> Forall wf_pair acc ->
  Github.map_set (Github.url (reference p)) (reference p) (List.map entry acc)
  = List.map entry (if member acc p then acc else acc ++ [p]).
Proof.
  intros Hp. induction 1 as [|q acc Hq _ IH]; [reflexivity|].
  cbn [List.map Github.map_set existsb].
  change (fst (entry q)) with (Github.url (reference q)).
  rewrite url_same_repo by assumption.
  destruct (same_repo p q) eqn:E.
  - apply same_repo_eq in E. subst q. reflexivity.
  - cbn [orb]. rewrite IH. destruct (existsb (same_repo p) acc); reflexivity.
Qed.

Lemma filter_filter (A : Type) (f g : A -> bool) (l : list A) :
  filter f (filter g l) = filter (fun x => f x && g x) l.
Proof.
  induction l as [|x l IH]; [reflexivity|]. simpl.
  destruct (g x); simpl; [destruct (f x)|rewrite andb_false_r];
    rewrite ?IH; reflexivity.
Qed.

Lemma unique_first_occurrences (ps : list (jsstring * jsstring)) :
  Forall wf_pair ps ->
  forall acc,
    Forall wf_pair acc ->
    fold_left (fun m r => Github.map_set (Github.url r) r m)
              (List.map reference ps) (List.map entry acc)
    = List.map entry
        (acc ++ filter (fun q => negb (member acc q)) (first_occurrences ps)).
Proof.
  induction 1 as [|p ps Hp _ IH]; intros acc Hacc.
  - simpl. rewrite app_nil_r. reflexivity.
  - cbn [List.map fold_left first_occurrences filter].
    rewrite map_set_entry by assumption.
    destruct (existsb (same_repo p) acc) eqn:E.
    + rewrite IH by assumption. cbn [negb].
      rewrite filter_filter. do 2 f_equal. apply filter_ext. intros q.
      destruct (same_repo p q) eqn:Epq; [|rewrite andb_true_r; reflexivity].
      apply same_repo_eq in Epq. subst q. rewrite E. reflexivity.
    + rewrite IH by (apply Forall_app; split;
                          [assumption | constructor; [exact Hp | constructor]]).
      cbn [negb]. rewrite <- app_assoc. cbn [app].
      rewrite filter_filter. do 3 f_equal. apply filter_ext. intros q.
      rewrite existsb_app. cbn [existsb]. rewrite orb_false_r.
      rewrite negb_orb. rewrite (same_repo_sym q p). reflexivity.
Qed.

Lemma unique_of_references (ps : list (jsstring * jsstring)) :
  Forall wf_pair ps ->
  List.map snd (fold_left (fun m r => Github.map_set (Github.url r) r m)
                          (List.map reference ps) [])
  = List.map reference (first_occurrences ps).
Proof.
  intros H.
  change (@nil (jsstring * Github.RepoReference)) with (List.map entry []).
  rewrite unique_first_occurrences by (assumption || constructor).
  cbn [app existsb negb]. rewrite List.map_map. cbn [snd].
  f_equal. induction (first_occurrences ps) as [|x xs IH]; [reflexivity|].
  simpl. rewrite IH. reflexivity.
Qed.

End LinkLists.

(** X5. On a list of links separated by white space or commas, the
    reference parser returns one reference for each repository, in the
    order in which the repositories are first mentioned.  Each link may
    be written in any of the usual forms; the links of one repository,
    however written, give one reference, at the place of the first. *)
Theorem parseGithubInput_first_occurrences (links : list Link)
        (sep : jsstring) :
  Forall well_formed_link links ->
  sep <> [] -> all_separators sep ->
  Github.parseGithubInput (join sep (List.map link_text links))
  = List.map reference (first_occurrences (List.map snd links)).
Proof.
  intros Hl Hs Hsep.
  destruct links as [|l links]; [reflexivity|].
  unfold Github.parseGithubInput.
  rewrite split_join; auto; try discriminate.
  2:{ apply Forall_map. eapply Forall_impl; [|exact Hl].
      apply link_text_token. }
  rewrite filter_nonempty.
  2:{ apply Forall_map. eapply Forall_impl; [|exact Hl].
      apply link_text_token. }
  rewrite parse_links by exact Hl.
  apply unique_of_references.
  apply Forall_map. eapply Forall_impl; [|exact Hl].
  intros a (_ & Ho & Hr). split; assumption.
Qed.

Lemma parseGithubInput_first_occurrences_witness :
  Github.parseGithubInput
    (join (js ", ")
       (List.map link_text
          [ (js "https://github.com/", (js "foo", js "bar"));
            ([], (js "baz", js "qux"));
            (js "github.com/", (js "foo", js "bar")) ]))
  = [ reference (js "foo", js "bar"); reference (js "baz", js "qux") ].
Proof.
  apply (@parseGithubInput_first_occurrences
           [ (js "https://github.com/", (js "foo", js "bar"));
             ([], (js "baz", js "qux"));
             (js "github.com/", (js "foo", js "bar")) ]
           (js ", ")).
  - repeat (apply Forall_cons;
            [ split; [simpl; auto 10|];
              split; (split; [simpl; lia | repeat constructor]) |]).
    apply Forall_nil.
  - discriminate.
  - repeat constructor.
Defined.
(* ===================================================================== *)
(** * The retry wrapper: giving up, and the shape of its log              *)
(* ===================================================================== *)

Section RetryShape.
Variable svc : Services.
Variable params : Request.
Variable retries : nat.
Variable initialDelay : Z.

Lemma failed_attempts_succ (i n : nat) :
  failed_attempts params initialDelay i (S n) =
    [EvGenerate params; EvWait (initialDelay * 2 ^ Z.of_nat i)]
      ++ failed_attempts params initialDelay (S i) n.
Proof. reflexivity. Qed.

(** [n] quota failures, then a failure that ends the loop: one that is
    not a quota error, or the failure of the last attempt. *)
Lemma retry_loop_failure (e : JsError) :
  forall n i w,
    (i + n < retries)%nat ->
    quota_failures svc params (gen_calls w) n ->
    generateContent svc (gen_calls w + n) params = Thrown e ->
    isQuotaError e = false \/ (i + n = retries - 1)%nat ->
    retry_loop svc params retries initialDelay (retries - i) i w =
      (Thrown e,
       {| gen_calls := gen_calls w + n + 1;
          trace := trace w ++ failed_attempts params initialDelay i n
                           ++ [EvGenerate params] |}).
Proof.
  induction n as [|n IH]; intros i w Hi Hq He Hend.
  - replace (retries - i)%nat with (S (retries - i - 1)) by lia.
    rewrite retry_loop_step. rewrite Nat.add_0_r in He. rewrite He.
    cbv zeta.
    replace (isQuotaError e && (Z.of_nat i <? Z.of_nat retries - 1)%Z)
      with false.
    + f_equal. apply world_eq; [lia | reflexivity].
    + symmetry. destruct Hend as [-> | Hlast]; [reflexivity|].
      apply andb_false_iff. right. apply Z.ltb_ge. lia.
  - replace (retries - i)%nat with (S (retries - S i)) by lia.
    rewrite retry_loop_step.
    destruct (Hq 0%nat ltac:(lia)) as (e0 & He0 & Hquota).
    rewrite Nat.add_0_r in He0. rewrite He0, Hquota.
    replace (Z.of_nat i <? Z.of_nat retries - 1)%Z with true
      by (symmetry; apply Z.ltb_lt; lia).
    cbv zeta. cbn [andb].
    rewrite IH.
    + unfold log. cbn [gen_calls trace]. f_equal. apply world_eq; [lia|].
      rewrite failed_attempts_succ, <- !app_assoc. reflexivity.
    + lia.
    + intros j Hj. destruct (Hq (S j) ltac:(lia)) as (e' & He' & Hq').
      exists e'. split; [|exact Hq'].
      unfold log. cbn [gen_calls]. rewrite <- He'. f_equal. lia.
    + unfold log. cbn [gen_calls]. rewrite <- He. f_equal. lia.
    + destruct Hend as [Hend|Hend]; [left; exact Hend | right; lia].
Qed.

(** The log of a run of the loop: some failed attempts with their
    waits, then one last call. *)
Lemma retry_loop_shape :
  forall remaining i w,
    remaining = (retries - i)%nat -> (i < retries)%nat ->
    let run := retry_loop svc params retries initialDelay remaining i w in
    exists n,
      (i + n < retries)%nat /\
      trace (snd run) = trace w ++ failed_attempts params initialDelay i n
                                ++ [EvGenerate params] /\
      gen_calls (snd run) = (gen_calls w + n + 1)%nat /\
      quota_failures svc params (gen_calls w) n.
Proof.
  induction remaining as [|remaining IH]; intros i w Hrem Hi; [lia|].
  cbv zeta. rewrite retry_loop_step. cbv zeta.
  assert (Hstop : forall c : completion Response,
    exists n,
      (i + n < retries)%nat /\
      trace (snd (c, {| gen_calls := S (gen_calls w);
                        trace := trace w ++ [EvGenerate params] |}))
        = trace w ++ failed_attempts params initialDelay i n
                  ++ [EvGenerate params] /\
      gen_calls (snd (c, {| gen_calls := S (gen_calls w);
                            trace := trace w ++ [EvGenerate params] |}))
        = (gen_calls w + n + 1)%nat /\
      quota_failures svc params (gen_calls w) n).
  { intros c. exists 0%nat. cbn [snd gen_calls trace].
    repeat split; [lia | lia |]. intros j Hj. lia. }
  destruct (generateContent svc (gen_calls w) params) as [r|error] eqn:E;
    [apply Hstop|].
  destruct (isQuotaError error) eqn:Hq; cbn [andb]; [|apply Hstop].
  destruct (Z.ltb_spec (Z.of_nat i) (Z.of_nat retries - 1)); [|apply Hstop].
  specialize (IH (S i)
                 (log {| gen_calls := S (gen_calls w);
                         trace := trace w ++ [EvGenerate params] |}
                      [EvWait (initialDelay * 2 ^ Z.of_nat i)])
                 ltac:(lia) ltac:(lia)).
  cbv zeta in IH. destruct IH as (n & Hn & Ht & Hg & Hf).
  unfold log in *. cbn [gen_calls trace] in *.
  exists (S n). repeat split.
  - lia.
  - rewrite Ht, failed_attempts_succ, <- !app_assoc. reflexivity.
  - rewrite Hg. lia.
  - intros [|j] Hj.
    + exists error. rewrite Nat.add_0_r. auto.
    + destruct (Hf j ltac:(lia)) as (e' & He' & Hq').
      exists e'. split; [|exact Hq'].
      rewrite <- He'. f_equal. lia.
Qed.

Lemma waited_failed_attempts :
  forall n i,
    waited (failed_attempts params initialDelay i n)
    = (initialDelay * 2 ^ Z.of_nat i * (2 ^ Z.of_nat n - 1))%Z.
Proof.
  induction n as [|n IH]; intros i.
  - simpl. ring.
  - rewrite failed_attempts_succ. cbn [app waited fold_right].
    fold (waited (failed_attempts params initialDelay (S i) n)).
    rewrite IH. rewrite !Nat2Z.inj_succ, !Z.pow_succ_r by lia. ring.
Qed.

Lemma waited_app (a b : list Event) : waited (a ++ b) = (waited a + waited b)%Z.
Proof.
  induction a as [|ev a IH]; simpl; [reflexivity|].
  fold (waited (a ++ b)). fold (waited a). rewrite IH.
  destruct ev; lia.
Qed.

Lemma calls_app (a b : list Event) : calls (a ++ b) = (calls a + calls b)%nat.
Proof. unfold calls. rewrite filter_app, length_app. reflexivity. Qed.

Lemma fetches_app (a b : list Event) :
  fetches (a ++ b) = (fetches a + fetches b)%nat.
Proof. unfold fetches. rewrite filter_app, length_app. reflexivity. Qed.

Lemma calls_failed_attempts :
  forall n i, calls (failed_attempts params initialDelay i n) = n.
Proof.
  induction n as [|n IH]; intros i; [reflexivity|].
  rewrite failed_attempts_succ, calls_app, IH. reflexivity.
Qed.

Lemma fetches_failed_attempts :
  forall n i, fetches (failed_attempts params initialDelay i n) = 0%nat.
Proof.
  induction n as [|n IH]; intros i; [reflexivity|].
  rewrite failed_attempts_succ, fetches_app, IH. reflexivity.
Qed.

End RetryShape.

(** X6. The retry wrapper gives up at once on an error that is not a
    quota error, at whatever attempt it comes, and on any error of its
    last attempt.  After N quota failures (N < R), if the next call
    throws an error that is not a quota error, or if that call is the
    R-th, the wrapper throws that same error after N + 1 calls, having
    waited D * 2^i after the i-th failure only: nothing is waited after
    the last call. *)
Theorem retry_rethrows (svc : Services) (params : Request) (R : nat) (D : Z)
        (w : World) (N : nat) (e : JsError) :
  (N < R)%nat ->
  quota_failures svc params (gen_calls w) N ->
  generateContent svc (gen_calls w + N) params = Thrown e ->
  isQuotaError e = false \/ N = (R - 1)%nat ->
  generateContentWithRetry svc params R D w =
    (Thrown e,
     {| gen_calls := gen_calls w + N + 1;
        trace := trace w ++ failed_attempts params D 0 N
                         ++ [EvGenerate params] |}).
Proof.
  intros HN Hq He Hend. unfold generateContentWithRetry.
  rewrite <- (Nat.sub_0_r R) at 2. apply retry_loop_failure; auto.
Qed.

Lemma retry_rethrows_witness :
  generateContentWithRetry (failing Examples.quota_error) some_request 3 2000
                           initial_world =
    (Thrown Examples.quota_error,
     {| gen_calls := 3;
        trace := failed_attempts some_request 2000 0 2
                   ++ [EvGenerate some_request] |}).
Proof.
  apply (@retry_rethrows (failing Examples.quota_error) some_request 3 2000
           initial_world 2 Examples.quota_error).
  - lia.
  - intros i Hi. exists Examples.quota_error. split; reflexivity.
  - reflexivity.
  - right. reflexivity.
Defined.

(** X7. The log of every run of the retry wrapper (R >= 1) is made of
    n < R failed attempts, all of them quota failures, each followed by
    its back-off wait D * 2^i, and then of one last call; so the wrapper
    makes n + 1 <= R calls and waits D * (2^n - 1) in all, which is at
    most D * (2^(R-1) - 1): 6 seconds with the default arguments. *)
Theorem retry_log_shape (svc : Services) (params : Request) (R : nat) (D : Z)
        (w : World) :
  (1 <= R)%nat ->
  let run := generateContentWithRetry svc params R D w in
  exists n,
    (n < R)%nat /\
    trace (snd run) = trace w ++ failed_attempts params D 0 n
                              ++ [EvGenerate params] /\
    gen_calls (snd run) = (gen_calls w + n + 1)%nat /\
    quota_failures svc params (gen_calls w) n /\
    waited (failed_attempts params D 0 n ++ [EvGenerate params])
      = (D * (2 ^ Z.of_nat n - 1))%Z /\
    ((0 <= D)%Z ->
     (waited (failed_attempts params D 0 n ++ [EvGenerate params])
      <= D * (2 ^ (Z.of_nat R - 1) - 1))%Z).
Proof.
  intros HR run.
  destruct (@retry_loop_shape svc params R D R 0 w ltac:(lia) ltac:(lia))
    as (n & Hn & Ht & Hg & Hq).
  fold (generateContentWithRetry svc params R D w) in Ht, Hg. fold run in Ht, Hg.
  exists n.
  assert (Hw : waited (failed_attempts params D 0 n ++ [EvGenerate params])
               = (D * (2 ^ Z.of_nat n - 1))%Z).
  { rewrite waited_app, waited_failed_attempts. simpl. ring. }
  repeat split; auto; try lia.
  intros HD. rewrite Hw.
  apply Z.mul_le_mono_nonneg_l; [exact HD|].
  assert (2 ^ Z.of_nat n <= 2 ^ (Z.of_nat R - 1))%Z; [|lia].
  apply Z.pow_le_mono_r; lia.
Qed.

Lemma retry_log_shape_witness :
  let run := generateContentWithRetry
               (flaky 2 (Examples.response_text (js "ok")))
               some_request 3 2000 initial_world in
  exists n,
    (n < 3)%nat /\
    trace (snd run) = trace initial_world
                        ++ failed_attempts some_request 2000 0 n
                        ++ [EvGenerate some_request] /\
    gen_calls (snd run) = (gen_calls initial_world + n + 1)%nat /\
    quota_failures (flaky 2 (Examples.response_text (js "ok")))
                   some_request (gen_calls initial_world) n /\
    waited (failed_attempts some_request 2000 0 n ++ [EvGenerate some_request])
      = (2000 * (2 ^ Z.of_nat n - 1))%Z /\
    ((0 <= 2000)%Z ->
     (waited (failed_attempts some_request 2000 0 n
                ++ [EvGenerate some_request])
      <= 2000 * (2 ^ (Z.of_nat 3 - 1) - 1))%Z).
Proof.
  apply (@retry_log_shape (flaky 2 (Examples.response_text (js "ok")))
           some_request 3 2000 initial_world).
  lia.
Defined.
(* ===================================================================== *)
(** * The artifact fetcher: requests, failures, the selection             *)
(* ===================================================================== *)

(** X8. [fetchGithubFileContent] never throws and makes exactly one
    request, to the contents endpoint of the path.  It returns a content
    exactly when the answer is OK and carries a non-empty [content] with
    the encoding ["base64"] that decodes, and the content returned is
    then the decoding of that field; a request that throws, an answer
    that is not OK, a missing field, another encoding and an undecodable
    content all give [null]. *)
Theorem fetchGithubFileContent_outcome (P : Platform) (svc : Services)
        (owner repo path : jsstring) (w : World) :
  exists content,
    fetchGithubFileContent P svc owner repo path w =
      (Normal content,
       {| gen_calls := gen_calls w;
          trace := trace w ++ [EvFetch (api_root +++ owner +++ js "/" +++ repo
                                          +++ js "/contents/" +++ path)] |}) /\
    forall decoded,
      content = Some decoded <->
      exists data encoded,
        get_file svc owner repo path = HttpOk data /\
        env_content data = Some encoded /\ encoded <> [] /\
        env_encoding data = Some (js "base64") /\
        atob P encoded = Some decoded.
Proof.
  exists (file_content P svc owner repo path).
  split; [apply fetchGithubFileContent_run|].
  unfold file_content. intros decoded. split.
  - intros H.
    destruct (get_file svc owner repo path) as [e| |data]; try discriminate.
    destruct (env_content data) as [encoded|] eqn:Ec; [|discriminate].
    destruct (env_encoding data) as [encoding|] eqn:Ee; [|discriminate].
    destruct (is_empty encoded) eqn:Hn; [discriminate|].
    destruct (str_eqb encoding (js "base64")) eqn:Hb; [|discriminate].
    apply str_eqb_eq in Hb. subst encoding. simpl in H.
    exists data, encoded. repeat split; auto.
    intros ->. discriminate Hn.
  - intros (data & encoded & -> & -> & Hne & -> & Hd).
    destruct encoded as [|c encoded]; [contradiction|].
    cbn [is_empty negb andb]. rewrite str_eqb_refl. exact Hd.
Qed.

Section RepoDataFacts.
Variable P : Platform.
Variable svc : Services.

Lemma fetches_map_fetch (A : Type) (f : A -> jsstring) (l : list A) :
  fetches (List.map (fun x => EvFetch (f x)) l) = List.length l
  /\ calls (List.map (fun x => EvFetch (f x)) l) = 0%nat
  /\ waited (List.map (fun x => EvFetch (f x)) l) = 0%Z.
Proof.
  induction l as [|x l (IH1 & IH2 & IH3)]; [repeat split|].
  unfold fetches, calls, waited in *. simpl. repeat split; auto.
Qed.

(** The run of [fetchGithubRepoData], by cases on the three listings. *)
Lemma fetchGithubRepoData_run (owner repo : jsstring) (w : World) :
  fetchGithubRepoData P svc owner repo w =
    match get_repo svc owner repo with
    | HttpOk meta =>
        match get_languages svc owner repo with
        | HttpThrows _ =>
            (Normal None,
             log w [EvFetch (api_repo owner repo);
                    EvFetch (api_repo owner repo +++ js "/languages")])
        | langRes =>
            let summary := match langRes with
                           | HttpOk langs => langSummary langs
                           | _ => []
                           end in
            match get_contents svc owner repo with
            | HttpThrows _ =>
                (Normal None,
                 log w [EvFetch (api_repo owner repo);
                        EvFetch (api_repo owner repo +++ js "/languages");
                        EvFetch (api_repo owner repo +++ js "/contents")])
            | contentsRes =>
                let files := match contentsRes with
                             | HttpOk contents => targetFiles contents
                             | _ => []
                             end in
                (Normal
                   (Some {| repo_name := meta_name meta;
                            repo_url := meta_html_url meta;
                            language_summary := summary;
                            files_bundle :=
                              List.concat
                                (List.map (fun pc => file_block (fst pc) (snd pc))
                                   (fetched_files P svc owner repo files)) |}),
                 log w ([EvFetch (api_repo owner repo);
                         EvFetch (api_repo owner repo +++ js "/languages");
                         EvFetch (api_repo owner repo +++ js "/contents")]
                          ++ List.map (fun f => EvFetch (file_url owner repo
                                                           (entry_path f)))
                                      files))
            end
        end
    | _ => (Normal None, log w [EvFetch (api_repo owner repo)])
    end.
Proof.
  unfold fetchGithubRepoData. mrun.
  destruct (get_repo svc owner repo) as [e| |meta]; mrun; try reflexivity.
  destruct (get_languages svc owner repo) as [e| |langs]; mrun;
    rewrite ?log_log; try reflexivity;
    (destruct (get_contents svc owner repo) as [e| |contents]; mrun;
     rewrite ?fetch_blocks_run; mrun; rewrite ?log_log; simpl app;
     rewrite ?app_nil_r; reflexivity).
Qed.

End RepoDataFacts.

(** X9. [fetchGithubRepoData] never throws and calls no model; it makes
    between one and seven requests, the first of them to the repository
    endpoint.  The repository is discarded ([null]) exactly when its
    metadata request throws or is not OK, or when the languages or the
    contents request throws; an answer to these two that is not OK is
    tolerated. *)
Theorem fetchGithubRepoData_requests (P : Platform) (svc : Services)
        (owner repo : jsstring) (w : World) :
  exists result t,
    fetchGithubRepoData P svc owner repo w =
      (Normal result,
       {| gen_calls := gen_calls w;
          trace := trace w ++ EvFetch (api_root +++ owner +++ js "/" +++ repo)
                           :: t |}) /\
    (List.length t <= 6)%nat /\
    Forall (fun ev => exists url, ev = EvFetch url) t /\
    (result = None <->
     (forall meta, get_repo svc owner repo <> HttpOk meta)
     \/ (exists e, get_languages svc owner repo = HttpThrows e)
     \/ (exists e, get_contents svc owner repo = HttpThrows e)).
Proof.
  rewrite fetchGithubRepoData_run. unfold log, api_repo.
  assert (Hfiles : forall files : list DirEntry,
            Forall (fun ev => exists url, ev = EvFetch url)
                   (List.map (fun f => EvFetch (file_url owner repo
                                                  (entry_path f))) files)).
  { intros files. apply Forall_forall. intros ev Hev.
    apply in_map_iff in Hev. destruct Hev as (f & <- & _). eauto. }
  destruct (get_repo svc owner repo) as [e| |meta] eqn:Em;
    [ exists None, []; split; [reflexivity|]; split; [simpl; lia|];
      split; [constructor|]; split; [intros _; left; discriminate | reflexivity]
    | exists None, []; split; [reflexivity|]; split; [simpl; lia|];
      split; [constructor|]; split; [intros _; left; discriminate | reflexivity]
    | ].
  assert (Hno : forall Q : Prop,
            (forall meta0 : RepoMeta, HttpOk meta <> HttpOk meta0) \/ Q -> Q).
  { intros Q [H|H]; [exfalso; apply (H meta); reflexivity | exact H]. }
  set (languages := EvFetch ((api_root +++ owner +++ js "/" +++ repo)
                               +++ js "/languages")).
  set (listing := EvFetch ((api_root +++ owner +++ js "/" +++ repo)
                             +++ js "/contents")).
  destruct (get_languages svc owner repo) as [e| |langs] eqn:El.
  - exists None, [languages]. split; [reflexivity|]. split; [simpl; lia|].
    split; [repeat constructor; eexists; reflexivity|].
    split; [intros _; right; left; eauto | reflexivity].
  - destruct (get_contents svc owner repo) as [e| |contents] eqn:Ec.
    + exists None, [languages; listing].
      split; [reflexivity|]. split; [simpl; lia|].
      split; [repeat constructor; eexists; reflexivity|].
      split; [intros _; right; right; eauto | reflexivity].
    + eexists (Some _), [languages; listing].
      split; [reflexivity|]. split; [simpl; lia|].
      split; [repeat constructor; eexists; reflexivity|].
      split; [discriminate|].
      intros H. apply Hno in H. destruct H as [[e H]|[e H]]; discriminate.
    + eexists (Some _), (languages :: listing :: _).
      split; [reflexivity|].
      split; [simpl; rewrite length_map;
              pose proof (targetFiles_length contents); lia|].
      split; [repeat (constructor; [eexists; reflexivity|]); apply Hfiles|].
      split; [discriminate|].
      intros H. apply Hno in H. destruct H as [[e H]|[e H]]; discriminate.
  - destruct (get_contents svc owner repo) as [e| |contents] eqn:Ec.
    + exists None, [languages; listing].
      split; [reflexivity|]. split; [simpl; lia|].
      split; [repeat constructor; eexists; reflexivity|].
      split; [intros _; right; right; eauto | reflexivity].
    + eexists (Some _), [languages; listing].
      split; [reflexivity|]. split; [simpl; lia|].
      split; [repeat constructor; eexists; reflexivity|].
      split; [discriminate|].
      intros H. apply Hno in H. destruct H as [[e H]|[e H]]; discriminate.
    + eexists (Some _), (languages :: listing :: _).
      split; [reflexivity|].
      split; [simpl; rewrite length_map;
              pose proof (targetFiles_length contents); lia|].
      split; [repeat (constructor; [eexists; reflexivity|]); apply Hfiles|].
      split; [discriminate|].
      intros H. apply Hno in H. destruct H as [[e H]|[e H]]; discriminate.
Qed.
(* ===================================================================== *)
(** * The selection of the files to fetch                                 *)
(* ===================================================================== *)

Section SelectionFacts.

Local Abbreviation by_score :=
  (fun a b : DirEntry => (score (entry_name a) <= score (entry_name b))%Z).

Local Abbreviation of_score s :=
  (fun f : DirEntry => (score (entry_name f) =? s)%Z).

Lemma insert_sorted_perm (x : DirEntry) (l : list DirEntry) :
  Permutation (insert_sorted compare_files x l) (x :: l).
Proof.
  induction l as [|y l IH]; simpl; [reflexivity|].
  destruct (compare_files x y <=? 0)%Z; [reflexivity|].
  transitivity (y :: x :: l); [apply perm_skip; exact IH | apply perm_swap].
Qed.

Lemma sort_perm (l : list DirEntry) : Permutation (sort compare_files l) l.
Proof.
  induction l as [|x l IH]; simpl; [constructor|].
  transitivity (x :: sort compare_files l);
    [apply insert_sorted_perm | apply perm_skip; exact IH].
Qed.

Lemma insert_sorted_sorted (x : DirEntry) (l : list DirEntry) :
  Sorted.StronglySorted by_score l ->
  Sorted.StronglySorted by_score (insert_sorted compare_files x l).
Proof.
  induction 1 as [|y l Hs IH Hy]; simpl.
  - repeat constructor.
  - unfold compare_files at 1.
    destruct (Z.leb_spec (score (entry_name x) - score (entry_name y)) 0).
    + constructor; [constructor; assumption|].
      constructor; [lia|].
      eapply Forall_impl; [|exact Hy]. simpl. intros; lia.
    + constructor; [exact IH|].
      apply Forall_forall. intros z Hz. apply insert_sorted_in in Hz.
      destruct Hz as [->|Hz]; [lia|].
      rewrite Forall_forall in Hy. apply Hy. exact Hz.
Qed.

Lemma sort_sorted (l : list DirEntry) :
  Sorted.StronglySorted by_score (sort compare_files l).
Proof.
  induction l as [|x l IH]; simpl; [constructor|].
  apply insert_sorted_sorted. exact IH.
Qed.

(** The sort is stable: the files of one score keep their order. *)
Lemma insert_sorted_filter (s : Z) (x : DirEntry) (l : list DirEntry) :
  filter (of_score s) (insert_sorted compare_files x l)
  = filter (of_score s) (x :: l).
Proof.
  induction l as [|y l IH]; [reflexivity|].
  cbn [insert_sorted]. unfold compare_files at 1.
  destruct (Z.leb_spec (score (entry_name x) - score (entry_name y)) 0);
    [reflexivity|].
  cbn [filter] in IH |- *. rewrite IH.
  destruct (Z.eqb_spec (score (entry_name x)) s),
           (Z.eqb_spec (score (entry_name y)) s); try reflexivity.
  lia.
Qed.

Lemma sort_filter (s : Z) (l : list DirEntry) :
  filter (of_score s) (sort compare_files l) = filter (of_score s) l.
Proof.
  induction l as [|x l IH]; [reflexivity|].
  cbn [sort]. rewrite insert_sorted_filter. cbn [filter]. rewrite IH.
  reflexivity.
Qed.

End SelectionFacts.

(** X10. The files selected for fetching are the (at most four) matched
    files of lowest score, in a stable order.  The selection followed by
    the matched files left out is a rearrangement of the matched files
    (the entries of type ["file"] whose name is on the list) in which the
    scores never decrease and in which the files of one score keep the
    order of the directory listing; and the selection has four files, or
    all the matched files when there are fewer. *)
Theorem targetFiles_lowest_scores (contents : list DirEntry) :
  exists rest,
    Permutation (targetFiles contents ++ rest) (filter is_found contents) /\
    Sorted.StronglySorted
      (fun a b => (score (entry_name a) <= score (entry_name b))%Z)
      (targetFiles contents ++ rest) /\
    (forall s,
       filter (fun f => (score (entry_name f) =? s)%Z)
              (targetFiles contents ++ rest)
       = filter (fun f => (score (entry_name f) =? s)%Z)
                (filter is_found contents)) /\
    List.length (targetFiles contents)
      = Nat.min 4 (List.length (filter is_found contents)).
Proof.
  exists (skipn 4 (sort compare_files (filter is_found contents))).
  unfold targetFiles. rewrite firstn_skipn.
  split; [apply sort_perm|]. split; [apply sort_sorted|].
  split; [intros s; apply sort_filter|].
  rewrite length_firstn. rewrite (Permutation_length (sort_perm _)).
  reflexivity.
Qed.
(* ===================================================================== *)
(** * What a run of the pipeline spends                                   *)
(* ===================================================================== *)

Section BudgetRules.

Lemma spends_nil (f g : nat) (ms : Z) : (0 <= ms)%Z -> spends f g ms [].
Proof. intros H. unfold spends, fetches, calls, waited. simpl. lia. Qed.

Lemma spends_app (f1 g1 f2 g2 : nat) (m1 m2 : Z) (t1 t2 : list Event) :
  spends f1 g1 m1 t1 -> spends f2 g2 m2 t2 ->
  spends (f1 + f2) (g1 + g2) (m1 + m2) (t1 ++ t2).
Proof.
  unfold spends. rewrite fetches_app, calls_app, waited_app. lia.
Qed.

Lemma spends_weaken (f g f' g' : nat) (ms ms' : Z) (t : list Event) :
  spends f g ms t -> (f <= f')%nat -> (g <= g')%nat -> (ms <= ms')%Z ->
  spends f' g' ms' t.
Proof. unfold spends. lia. Qed.

Lemma world_after (w : World) (t1 t2 : list Event) :
  {| gen_calls := gen_calls w + calls t1 + calls t2;
     trace := (trace w ++ t1) ++ t2 |}
  = {| gen_calls := gen_calls w + calls (t1 ++ t2);
       trace := trace w ++ t1 ++ t2 |}.
Proof. rewrite calls_app, app_assoc, Nat.add_assoc. reflexivity. Qed.

Lemma within_ret (A : Type) (Q : completion A -> Prop) (a : A) :
  Q (Normal a) -> within 0 0 0 Q (ret a).
Proof.
  intros H w. exists []. rewrite ret_run. simpl.
  rewrite Nat.add_0_r, app_nil_r. destruct w.
  split; [reflexivity|]. split; [apply spends_nil; lia | exact H].
Qed.

Lemma within_throw (A : Type) (Q : completion A -> Prop) (e : JsError) :
  Q (Thrown e) -> within 0 0 0 Q (@throw A e).
Proof.
  intros H w. exists []. rewrite throw_run. simpl.
  rewrite Nat.add_0_r, app_nil_r. destruct w.
  split; [reflexivity|]. split; [apply spends_nil; lia | exact H].
Qed.

Lemma within_lift (A : Type) (Q : completion A -> Prop) (c : completion A) :
  Q c -> within 0 0 0 Q (lift c).
Proof. destruct c; [apply within_ret | apply within_throw]. Qed.

Lemma within_wait (Q : completion unit -> Prop) (ms : Z) :
  (0 <= ms)%Z -> Q (Normal tt) -> within 0 0 ms Q (wait ms).
Proof.
  intros Hms H w. exists [EvWait ms]. rewrite wait_run. unfold log. simpl.
  rewrite Nat.add_0_r. split; [reflexivity|].
  split; [|exact H]. unfold spends, fetches, calls, waited. simpl. lia.
Qed.

Lemma within_weaken (A : Type) (f g f' g' : nat) (ms ms' : Z)
      (Q Q' : completion A -> Prop) (c : M A) :
  within f g ms Q c ->
  (f <= f')%nat -> (g <= g')%nat -> (ms <= ms')%Z ->
  (forall r, Q r -> Q' r) ->
  within f' g' ms' Q' c.
Proof.
  intros Hc Hf Hg Hm HQ w. destruct (Hc w) as (t & S & B & P).
  exists t. split; [exact S|].
  split; [eapply spends_weaken; eauto | apply HQ, P].
Qed.

Lemma within_bind (A B : Type) (f1 g1 f2 g2 : nat) (m1 m2 : Z)
      (Q1 : completion A -> Prop) (Q2 : completion B -> Prop)
      (c : M A) (k : A -> M B) :
  within f1 g1 m1 Q1 c ->
  (0 <= m2)%Z ->
  (forall a, Q1 (Normal a) -> within f2 g2 m2 Q2 (k a)) ->
  (forall e, Q1 (Thrown e) -> Q2 (Thrown e)) ->
  within (f1 + f2) (g1 + g2) (m1 + m2) Q2 (bind c k).
Proof.
  intros Hc Hm Hk He w. rewrite bind_run.
  destruct (Hc w) as (t1 & S1 & B1 & P1).
  destruct (c w) as [[a|e] w1]; simpl in S1, P1; subst w1.
  - destruct (Hk a P1 {| gen_calls := gen_calls w + calls t1;
                         trace := trace w ++ t1 |}) as (t2 & S2 & B2 & P2).
    exists (t1 ++ t2). simpl in S2. rewrite S2, world_after.
    split; [reflexivity|]. split; [apply spends_app; assumption | exact P2].
  - exists t1. split; [reflexivity|].
    split; [|apply He, P1].
    eapply spends_weaken; [exact B1 | lia | lia | lia].
Qed.

Lemma within_try_catch (A : Type) (f1 g1 f2 g2 : nat) (m1 m2 : Z)
      (Q1 Q2 : completion A -> Prop) (c : M A) (h : JsError -> M A) :
  within f1 g1 m1 Q1 c ->
  (0 <= m2)%Z ->
  (forall a, Q1 (Normal a) -> Q2 (Normal a)) ->
  (forall e, Q1 (Thrown e) -> within f2 g2 m2 Q2 (h e)) ->
  within (f1 + f2) (g1 + g2) (m1 + m2) Q2 (try_catch c h).
Proof.
  intros Hc Hm Ha Hh w. rewrite try_catch_run.
  destruct (Hc w) as (t1 & S1 & B1 & P1).
  destruct (c w) as [[a|e] w1]; simpl in S1, P1; subst w1.
  - exists t1. split; [reflexivity|].
    split; [|apply Ha, P1].
    eapply spends_weaken; [exact B1 | lia | lia | lia].
  - destruct (Hh e P1 {| gen_calls := gen_calls w + calls t1;
                         trace := trace w ++ t1 |}) as (t2 & S2 & B2 & P2).
    exists (t1 ++ t2). simpl in S2. rewrite S2, world_after.
    split; [reflexivity|]. split; [apply spends_app; assumption | exact P2].
Qed.

(** A handler that returns a default makes the completion normal. *)
Lemma within_default (A : Type) (f g : nat) (ms : Z)
      (Q : completion A -> Prop) (R : A -> Prop) (c : M A) (d : A) :
  within f g ms Q c ->
  (forall a, Q (Normal a) -> R a) -> R d ->
  within f g ms (normal_with R) (try_catch c (fun _ => ret d)).
Proof.
  intros Hc Ha Hd.
  apply within_weaken with (f := (f + 0)%nat) (g := (g + 0)%nat)
                           (ms := (ms + 0)%Z) (Q := normal_with R);
    try lia; auto.
  apply within_try_catch with (Q1 := Q); [exact Hc | lia | |].
  - intros a H. exists a. auto.
  - intros e _. apply within_ret. exists d. auto.
Qed.

Lemma within_retry (svc : Services) (params : Request) (R : nat) (D : Z) :
  (1 <= R)%nat -> (0 <= D)%Z ->
  within 0 R (D * (2 ^ (Z.of_nat R - 1) - 1)) any_completion
         (generateContentWithRetry svc params R D).
Proof.
  intros HR HD w.
  destruct (@retry_loop_shape svc params R D R 0 w ltac:(lia) ltac:(lia))
    as (n & Hn & Ht & Hg & _).
  fold (generateContentWithRetry svc params R D w) in Ht, Hg.
  exists (failed_attempts params D 0 n ++ [EvGenerate params]).
  split; [|split; [|exact I]].
  - destruct (snd (generateContentWithRetry svc params R D w)) as [g t].
    simpl in Ht, Hg. subst g t.
    rewrite calls_app, calls_failed_attempts.
    change (calls [EvGenerate params]) with 1%nat.
    apply world_eq; [lia | reflexivity].
  - unfold spends.
    rewrite fetches_app, calls_app, waited_app, fetches_failed_attempts,
      calls_failed_attempts, waited_failed_attempts.
    change (fetches [EvGenerate params]) with 0%nat.
    change (calls [EvGenerate params]) with 1%nat.
    change (waited [EvGenerate params]) with 0%Z.
    assert (1 <= 2 ^ Z.of_nat n <= 2 ^ (Z.of_nat R - 1))%Z.
    { split; [|apply Z.pow_le_mono_r; lia].
      assert (0 < 2 ^ Z.of_nat n)%Z by (apply Z.pow_pos_nonneg; lia). lia. }
    repeat split; try lia; nia.
Qed.

Lemma within_retry_default (svc : Services) (params : Request) :
  within 0 3 6000 any_completion (generateContentWithRetry_default svc params).
Proof. apply (@within_retry svc params 3 2000); lia. Qed.

End BudgetRules.
Section PipelineBudget.
Variable P : Platform.
Variable svc : Services.

Lemma log_of_fetches (w : World) (t : list Event) :
  Forall is_fetch t ->
  log w t = {| gen_calls := gen_calls w + calls t; trace := trace w ++ t |}
  /\ spends (List.length t) 0 0 t.
Proof.
  intros H.
  assert (E : calls t = 0%nat /\ waited t = 0%Z /\ fetches t = List.length t).
  { induction H as [|ev t [url ->] _ (IH1 & IH2 & IH3)]; [repeat split|].
    unfold calls, waited, fetches in *. simpl. auto. }
  destruct E as (E1 & E2 & E3). unfold spends, log.
  rewrite E1, E2, E3, Nat.add_0_r. repeat split; lia.
Qed.

Lemma fetches_of_files (owner repo : jsstring) (files : list DirEntry) :
  Forall is_fetch
         (List.map (fun f => EvFetch (file_url owner repo (entry_path f))) files).
Proof.
  apply Forall_forall. intros ev Hev. apply in_map_iff in Hev.
  destruct Hev as (f & <- & _). eexists. reflexivity.
Qed.

Lemma within_fetchGithubRepoData (owner repo : jsstring) :
  within 7 0 0 (normal_with (fun _ => True))
         (fetchGithubRepoData P svc owner repo).
Proof.
  intros w. rewrite fetchGithubRepoData_run.
  assert (Hlog : forall (result : option ArtifactBundle) (t : list Event),
            Forall is_fetch t -> (List.length t <= 7)%nat ->
            exists t0,
              snd (Normal result, log w t)
              = {| gen_calls := gen_calls w + calls t0; trace := trace w ++ t0 |}
              /\ spends 7 0 0 t0
              /\ normal_with (fun _ => True) (fst (Normal result, log w t))).
  { intros result t Ht Hl. exists t.
    destruct (log_of_fetches w Ht) as (E & S).
    split; [exact E|]. split; [|exists result; auto].
    eapply spends_weaken; [exact S | lia | lia | lia]. }
  destruct (get_repo svc owner repo) as [e| |meta];
    try (apply Hlog; [repeat constructor; eexists; reflexivity | simpl; lia]).
  destruct (get_languages svc owner repo) as [e| |langs];
    try (apply Hlog; [repeat constructor; eexists; reflexivity | simpl; lia]);
    (destruct (get_contents svc owner repo) as [e| |contents];
     cbv zeta;
     try (apply Hlog; [repeat constructor; eexists; reflexivity | simpl; lia]);
     (apply Hlog;
      [ apply Forall_app; split;
        [repeat constructor; eexists; reflexivity | apply fetches_of_files]
      | rewrite length_app, length_map; simpl;
        pose proof (targetFiles_length contents); lia ])).
Qed.

Lemma within_fetch_repos (targetRepos : list Github.RepoReference) :
  within (List.length targetRepos * 7) 0 0
         (normal_with (fun valid : list ArtifactBundle =>
                         (List.length valid <= List.length targetRepos)%nat))
         (fetch_repos P svc targetRepos).
Proof.
  induction targetRepos as [|r rest IH]; cbn [fetch_repos List.length].
  - apply within_ret. exists []. auto.
  - apply (@within_bind _ _ 7 0 (List.length rest * 7) 0 0 0
             (normal_with (fun _ => True)));
      [apply within_fetchGithubRepoData | lia | | intros e (a & H & _); discriminate].
    intros data _.
    apply within_weaken
      with (f := (List.length rest * 7 + 0)%nat) (g := 0%nat) (ms := 0%Z)
           (Q := normal_with (fun valid : list ArtifactBundle =>
                   (List.length valid <= S (List.length rest))%nat));
      try lia; auto.
    apply (@within_bind _ _ (List.length rest * 7) 0 0 0 0 0
             (normal_with (fun valid : list ArtifactBundle =>
                (List.length valid <= List.length rest)%nat)));
      [exact IH | lia | | intros e (a & H & _); discriminate].
    intros valid (v & Hv & Hl). inversion Hv; subst v.
    destruct data as [d|]; apply within_ret; eexists; split;
      try reflexivity; simpl; lia.
Qed.

Lemma within_parse_json (cleanedText : jsstring) :
  within 0 0 0 any_completion (parse_json P cleanedText).
Proof.
  unfold parse_json. destruct (JSON_parse P cleanedText);
    [apply within_ret | apply within_throw]; exact I.
Qed.

Lemma within_analyze_repo (repoData : ArtifactBundle) :
  within 0 3 8000
         (normal_with (fun pushed : list GithubProject =>
                         (List.length pushed <= 1)%nat))
         (analyze_repo P svc repoData).
Proof.
  unfold analyze_repo.
  apply within_default
    with (Q := on_normal (fun pushed : list GithubProject =>
                            (List.length pushed <= 1)%nat));
    [|intros a H; exact H | simpl; lia].
  apply (@within_bind _ _ 0 3 0 0 6000 2000 any_completion);
    [apply within_retry_default | lia | | intros; exact I].
  intros response _.
  apply (@within_bind _ _ 0 0 0 0 0 2000
           (on_normal (fun pushed : list GithubProject =>
                         (List.length pushed <= 1)%nat)));
    [| lia | | intros; exact I].
  - destruct (text response) as [t|]; [|apply within_ret; simpl; lia].
    destruct (is_empty t); [apply within_ret; simpl; lia|].
    apply (@within_bind _ _ 0 0 0 0 0 0 any_completion);
      [apply within_parse_json | lia | | intros; exact I].
    intros raw _.
    apply (@within_bind _ _ 0 0 0 0 0 0 any_completion);
      [apply within_lift; exact I | lia | | intros; exact I].
    intros project _. apply within_ret. simpl. lia.
  - intros pushed Hp.
    apply (@within_bind _ _ 0 0 0 0 2000 0 any_completion);
      [apply within_wait; [lia | exact I] | lia | | intros; exact I].
    intros _ _. apply within_ret. exact Hp.
Qed.

Lemma within_analyze_repos (validRepoData : list ArtifactBundle) :
  within 0 (List.length validRepoData * 3)
         (Z.of_nat (List.length validRepoData) * 8000)
         (normal_with (fun results : list GithubProject =>
                         (List.length results <= List.length validRepoData)%nat))
         (analyze_repos P svc validRepoData).
Proof.
  induction validRepoData as [|d rest IH]; cbn [analyze_repos List.length].
  - apply within_ret. exists []. auto.
  - apply within_weaken
      with (f := (0 + 0)%nat) (g := (3 + List.length rest * 3)%nat)
           (ms := (8000 + Z.of_nat (List.length rest) * 8000)%Z)
           (Q := normal_with (fun results : list GithubProject =>
                   (List.length results <= S (List.length rest))%nat));
      try lia; auto.
    apply (@within_bind _ _ 0 3 0 (List.length rest * 3) 8000
             (Z.of_nat (List.length rest) * 8000)
             (normal_with (fun pushed : list GithubProject =>
                             (List.length pushed <= 1)%nat)));
      [apply within_analyze_repo | lia | | intros e (a & H & _); discriminate].
    intros pushed (p & Hp & Hl). inversion Hp; subst p.
    apply within_weaken
      with (f := (0 + 0)%nat) (g := (List.length rest * 3 + 0)%nat)
           (ms := (Z.of_nat (List.length rest) * 8000 + 0)%Z)
           (Q := normal_with (fun results : list GithubProject =>
                   (List.length results <= S (List.length rest))%nat));
      try lia; auto.
    apply (@within_bind _ _ 0 (List.length rest * 3) 0 0
             (Z.of_nat (List.length rest) * 8000) 0
             (normal_with (fun results : list GithubProject =>
                (List.length results <= List.length rest)%nat)));
      [exact IH | lia | | intros e (a & H & _); discriminate].
    intros results (v & Hv & Hl'). inversion Hv; subst v.
    apply within_ret. eexists. split; [reflexivity|].
    rewrite length_app. lia.
Qed.

Lemma within_analyzeGithubReposWithAPI (githubLinks : jsstring) :
  within 21 9 24000
         (normal_with (fun projects : list GithubProject =>
                         (List.length projects <= 3)%nat))
         (analyzeGithubReposWithAPI P svc githubLinks).
Proof.
  assert (Hnone : within 21 9 24000
                    (normal_with (fun projects : list GithubProject =>
                                    (List.length projects <= 3)%nat))
                    (ret [])).
  { apply within_weaken
      with (f := 0%nat) (g := 0%nat) (ms := 0%Z)
           (Q := normal_with (fun projects : list GithubProject =>
                                (List.length projects <= 3)%nat));
      try lia; auto.
    apply within_ret. exists []. simpl. split; [reflexivity | lia]. }
  unfold analyzeGithubReposWithAPI.
  destruct (is_empty githubLinks || is_empty (trim githubLinks));
    [exact Hnone|].
  destruct (Github.parseGithubInput githubLinks) as [|r0 repos] eqn:E;
    [exact Hnone|].
  set (targetRepos := firstn 3 (r0 :: repos)).
  assert (Hlen : (List.length targetRepos <= 3)%nat)
    by (unfold targetRepos; rewrite length_firstn; lia).
  apply within_weaken
    with (f := (List.length targetRepos * 7 + 0)%nat) (g := (0 + 9)%nat)
         (ms := (0 + 24000)%Z)
         (Q := normal_with (fun projects : list GithubProject =>
                              (List.length projects <= 3)%nat));
    try lia; auto.
  apply (@within_bind _ _ (List.length targetRepos * 7) 0 0 9 0 24000
           (normal_with (fun valid : list ArtifactBundle =>
              (List.length valid <= List.length targetRepos)%nat)));
    [apply within_fetch_repos | lia | | intros e (a & H & _); discriminate].
  intros valid (v & Hv & Hl). inversion Hv; subst v.
  destruct valid as [|d valid'] eqn:Ev.
  - apply within_weaken
      with (f := 0%nat) (g := 0%nat) (ms := 0%Z)
           (Q := normal_with (fun projects : list GithubProject =>
                                (List.length projects <= 3)%nat));
      try lia; auto.
    apply within_ret. exists []. simpl. split; [reflexivity | lia].
  - rewrite <- Ev in *. clear Ev.
    eapply within_weaken; [apply within_analyze_repos | lia | lia | lia |].
    intros c (a & -> & Ha). exists a. split; [reflexivity | lia].
Qed.

Lemma within_analyzeResumeHighlights (resume : option File) :
  within 0 3 6000 any_completion (analyzeResumeHighlights P svc resume).
Proof.
  unfold analyzeResumeHighlights.
  destruct resume as [file|].
  2:{ apply within_weaken
        with (f := 0%nat) (g := 0%nat) (ms := 0%Z) (Q := any_completion);
        try lia; auto.
      apply within_ret. exact I. }
  apply (@within_bind _ _ 0 0 0 3 0 6000 any_completion);
    [| lia | | intros; exact I].
  - unfold fileToGenerativePart.
    destruct (file_base64 file);
      [apply within_ret | apply within_throw]; exact I.
  - intros resumePart _.
    apply (@within_try_catch _ 0 3 0 0 6000 0 any_completion);
      [| lia | intros; exact I | intros; apply within_ret; exact I].
    apply (@within_bind _ _ 0 3 0 0 6000 0 any_completion);
      [apply within_retry_default | lia | | intros; exact I].
    intros response _.
    destruct (text response) as [t|]; [|apply within_ret; exact I].
    destruct (is_empty t); [apply within_ret; exact I|].
    apply within_parse_json.
Qed.

Lemma within_highlights_stage (resume : option File)
      (githubProjects : list GithubProject) :
  within 0 3 7500 any_completion
         (highlights_stage P svc resume githubProjects).
Proof.
  unfold highlights_stage.
  apply (@within_try_catch _ 0 3 0 0 7500 0 any_completion);
    [| lia | intros; exact I | intros; apply within_ret; exact I].
  apply (@within_bind _ _ 0 0 0 3 1500 6000 any_completion);
    [| lia | intros; apply within_analyzeResumeHighlights | intros; exact I].
  destruct githubProjects.
  - apply within_weaken
      with (f := 0%nat) (g := 0%nat) (ms := 0%Z) (Q := any_completion);
      try lia; auto.
    apply within_ret. exact I.
  - apply within_wait; [lia | exact I].
Qed.

Lemma within_main_stage (resume : option File) (jdText : jsstring)
      (githubProjects : list GithubProject) (resumeHighlights : JValue) :
  within 0 4 23000 any_completion
         (main_stage P svc resume jdText githubProjects resumeHighlights).
Proof.
  unfold main_stage.
  apply (@within_bind _ _ 0 0 0 4 0 23000 any_completion);
    [| lia | | intros; exact I].
  { destruct resume as [file|]; [|apply within_ret; exact I].
    apply (@within_bind _ _ 0 0 0 0 0 0 any_completion);
      [| lia | intros; apply within_ret; exact I | intros; exact I].
    unfold fileToGenerativePart.
    destruct (file_base64 file);
      [apply within_ret | apply within_throw]; exact I. }
  intros ps _.
  apply (@within_bind _ _ 0 0 0 4 2000 21000 any_completion);
    [apply within_wait; [lia | exact I] | lia | | intros; exact I].
  intros _ _.
  apply (@within_bind _ _ 0 4 0 0 21000 0 any_completion);
    [apply (@within_retry svc _ 4 3000); lia | lia | | intros; exact I].
  intros mainResponse _.
  destruct (text mainResponse) as [t|]; [|apply within_throw; exact I].
  destruct (is_empty t); [apply within_throw; exact I|].
  apply (@within_bind _ _ 0 0 0 0 0 0 any_completion);
    [apply within_parse_json | lia | | intros; exact I].
  intros mainResult _.
  apply (@within_bind _ _ 0 0 0 0 0 0 any_completion);
    [| lia | | intros; exact I].
  { destruct githubProjects; [apply within_ret | apply within_lift]; exact I. }
  intros mainResult' _.
  apply (@within_bind _ _ 0 0 0 0 0 0 any_completion);
    [| lia | intros; apply within_ret; exact I | intros; exact I].
  destruct (truthy resumeHighlights);
    [apply within_lift | apply within_ret]; exact I.
Qed.

Lemma within_analyzeProfile (resume : option File)
      (jdText githubLinks : jsstring) :
  within 21 16 54500 any_completion
         (analyzeProfile P svc resume jdText githubLinks).
Proof.
  unfold analyzeProfile.
  apply (@within_bind _ _ 21 9 0 7 24000 30500 any_completion);
    [| lia | | intros; exact I].
  { unfold github_stage.
    apply (@within_try_catch _ 21 9 0 0 24000 0
             (normal_with (fun projects : list GithubProject =>
                             (List.length projects <= 3)%nat)));
      [apply within_analyzeGithubReposWithAPI | lia | intros; exact I
      | intros; apply within_ret; exact I]. }
  intros githubProjects _.
  apply (@within_bind _ _ 0 3 0 4 7500 23000 any_completion);
    [apply within_highlights_stage | lia | | intros; exact I].
  intros resumeHighlights _. apply within_main_stage.
Qed.

End PipelineBudget.
Section NoLinks.
Variable P : Platform.
Variable svc : Services.

Lemma all_space_rev_trimStart (s : jsstring) :
  trimStart (rev s) = [] -> all_space s.
Proof.
  intros H. destruct (trimStart_split (rev s)) as (run & Hs & Hrun & _).
  rewrite H, app_nil_r in Hs. rewrite <- (rev_involutive s), Hs.
  apply Forall_rev. exact Hrun.
Qed.

Lemma trim_nil_all_space (s : jsstring) : trim s = [] -> all_space s.
Proof.
  unfold trim, trimEnd. intros H.
  apply (f_equal (@rev N)) in H. rewrite rev_involutive in H. simpl in H.
  apply all_space_rev_trimStart in H.
  destruct (trimStart_split s) as (run & Hs & Hrun & Hh).
  destruct (trimStart s) as [|c rest].
  - rewrite app_nil_r in Hs. subst s. exact Hrun.
  - inversion H as [|? ? Hc _]. congruence.
Qed.

Lemma all_space_trim (s : jsstring) : all_space s -> trim s = [].
Proof.
  intros H. unfold trim, trimEnd.
  rewrite <- (app_nil_r s), trimStart_spaces by exact H. reflexivity.
Qed.

Lemma all_space_no_slash (s : jsstring) : all_space s -> ~ In slash s.
Proof.
  intros H Hin. unfold all_space in H. rewrite Forall_forall in H.
  specialize (H slash Hin). discriminate H.
Qed.

Lemma parseGithubInput_no_slash (input : jsstring) :
  ~ In slash input -> Github.parseGithubInput input = [].
Proof.
  intros Hno. pose proof (parseGithubInput_elements input) as Hel.
  destruct (Github.parseGithubInput input) as [|r out]; [reflexivity|].
  inversion Hel as [|? ? (_ & _ & _ & Hin) _]. contradiction.
Qed.

(** With no repository whose metadata can be fetched, the loop over the
    targets makes one request for each and keeps none. *)
Lemma fetch_repos_none (targetRepos : list Github.RepoReference) :
  (forall r meta,
     In r targetRepos ->
     get_repo svc (Github.owner r) (Github.repo r) <> HttpOk meta) ->
  forall w,
    fetch_repos P svc targetRepos w =
      (Normal [],
       log w (List.map (fun r => EvFetch (api_repo (Github.owner r)
                                                   (Github.repo r)))
                       targetRepos)).
Proof.
  induction targetRepos as [|r rest IH]; intros H w.
  - simpl. rewrite ret_run, log_nil. reflexivity.
  - cbn [fetch_repos List.map]. rewrite bind_run, fetchGithubRepoData_run.
    destruct (get_repo svc (Github.owner r) (Github.repo r)) as [e| |meta] eqn:E;
      try (exfalso; apply (H r meta); [left; reflexivity | exact E]);
      cbv iota beta;
      (rewrite bind_run, IH by (intros r' m Hr'; apply H; right; exact Hr');
       cbv iota beta; rewrite ret_run, log_log; reflexivity).
Qed.

End NoLinks.

(** X11. [analyzeGithubReposWithAPI] does nothing for an input that is
    blank or holds no slash: it returns the empty list without a request
    or a model call.  And when the metadata of none of its targets (the
    first three references parsed) can be fetched, it returns the empty
    list after one request for each target, again without calling the
    model. *)
Theorem analyzeGithubReposWithAPI_nothing_to_analyze (P : Platform)
        (svc : Services) (githubLinks : jsstring) (w : World) :
  (all_space githubLinks \/ ~ In slash githubLinks ->
   analyzeGithubReposWithAPI P svc githubLinks w = (Normal [], w)) /\
  ((forall r meta,
      In r (firstn 3 (Github.parseGithubInput githubLinks)) ->
      get_repo svc (Github.owner r) (Github.repo r) <> HttpOk meta) ->
   analyzeGithubReposWithAPI P svc githubLinks w =
     (Normal [],
      {| gen_calls := gen_calls w;
         trace := trace w
                  ++ List.map (fun r => EvFetch (api_root +++ Github.owner r
                                                   +++ js "/" +++ Github.repo r))
                              (firstn 3 (Github.parseGithubInput githubLinks)) |})).
Proof.
  assert (Hblank : ~ In slash githubLinks ->
                   analyzeGithubReposWithAPI P svc githubLinks w = (Normal [], w)).
  { intros H. unfold analyzeGithubReposWithAPI.
    destruct (is_empty githubLinks || is_empty (trim githubLinks));
      [reflexivity|].
    rewrite parseGithubInput_no_slash by exact H. reflexivity. }
  split.
  - intros [H|H]; apply Hblank; [apply all_space_no_slash|]; exact H.
  - intros H. unfold analyzeGithubReposWithAPI.
    destruct (is_empty githubLinks || is_empty (trim githubLinks)) eqn:E.
    + assert (Hs : all_space githubLinks).
      { apply orb_true_iff in E. destruct E as [E|E]; apply is_empty_nil in E.
        - subst. constructor.
        - apply trim_nil_all_space. exact E. }
      rewrite parseGithubInput_no_slash by (apply all_space_no_slash; exact Hs).
      simpl. rewrite ret_run, app_nil_r. destruct w; reflexivity.
    + destruct (Github.parseGithubInput githubLinks) as [|r0 repos] eqn:Ep.
      * simpl. rewrite ret_run, app_nil_r. destruct w; reflexivity.
      * rewrite bind_run, fetch_repos_none by exact H. reflexivity.
Qed.

Lemma analyzeGithubReposWithAPI_nothing_to_analyze_witness :
  analyzeGithubReposWithAPI Reference.platform (failing Examples.server_error)
                            (js "  ") initial_world
    = (Normal [], initial_world)
  /\ analyzeGithubReposWithAPI Reference.platform (failing Examples.server_error)
                               (js "foo/bar, foo/baz") initial_world
     = (Normal [],
        {| gen_calls := gen_calls initial_world;
           trace := trace initial_world
                    ++ List.map (fun r => EvFetch (api_root +++ Github.owner r
                                                     +++ js "/" +++ Github.repo r))
                                (firstn 3 (Github.parseGithubInput
                                             (js "foo/bar, foo/baz"))) |}).
Proof.
  split.
  - apply (proj1 (analyzeGithubReposWithAPI_nothing_to_analyze
                    Reference.platform (failing Examples.server_error)
                    (js "  ") initial_world)).
    left. repeat constructor.
  - apply (proj2 (analyzeGithubReposWithAPI_nothing_to_analyze
                    Reference.platform (failing Examples.server_error)
                    (js "foo/bar, foo/baz") initial_world)).
    intros r meta _. discriminate.
Defined.

(** X12. [analyzeGithubReposWithAPI] never throws, returns at most three
    projects, and a run of it makes at most 21 requests to the code host
    (seven for each of at most three repositories) and at most 9 model
    calls (three attempts for each), and waits at most 24 seconds in
    all. *)
Theorem analyzeGithubReposWithAPI_bounded (P : Platform) (svc : Services)
        (githubLinks : jsstring) (w : World) :
  exists projects t,
    analyzeGithubReposWithAPI P svc githubLinks w =
      (Normal projects,
       {| gen_calls := gen_calls w + calls t; trace := trace w ++ t |}) /\
    (List.length projects <= 3)%nat /\
    (fetches t <= 21)%nat /\ (calls t <= 9)%nat /\
    (0 <= waited t <= 24000)%Z.
Proof.
  destruct (within_analyzeGithubReposWithAPI P svc githubLinks w)
    as (t & S & (Hf & Hc & Hw) & (a & Ha & Hl)).
  exists a, t.
  destruct (analyzeGithubReposWithAPI P svc githubLinks w) as [c w'].
  simpl in S, Ha. subst c w'. auto.
Qed.

(** X13. A run of the primary pipeline [analyzeProfile] makes at most 21
    requests to the code host and at most 16 model calls (9 for the
    repositories, 3 for the resume highlights, 4 for the primary
    synthesis), and waits at most 54.5 seconds in all, whatever the
    services answer; the counter of model calls advances by the number
    of calls logged. *)
Theorem analyzeProfile_budget (P : Platform) (svc : Services)
        (resume : option File) (jdText githubLinks : jsstring) (w : World) :
  exists t,
    snd (analyzeProfile P svc resume jdText githubLinks w)
      = {| gen_calls := gen_calls w + calls t; trace := trace w ++ t |} /\
    (fetches t <= 21)%nat /\ (calls t <= 16)%nat /\
    (0 <= waited t <= 54500)%Z.
Proof.
  destruct (within_analyzeProfile P svc resume jdText githubLinks w)
    as (t & S & B & _).
  exists t. split; [exact S | exact B].
Qed.

(** X14. The portfolio generator and each interview function make at
    most three model calls (the default budget of the retry wrapper) and
    no request to the code host, and wait at most 6 seconds. *)
Theorem turn_functions_budget (P : Platform) (svc : Services) :
  (forall analysisResult preferences,
     within 0 3 6000 any_completion
            (generatePortfolioHtml svc analysisResult preferences)) /\
  (forall role,
     within 0 3 6000 any_completion (generateInterviewTopics P svc role)) /\
  (forall role topic,
     within 0 3 6000 any_completion
            (generateInterviewQuestion P svc role topic)) /\
  (forall t, within 0 3 6000 any_completion (generateSpeech svc t)) /\
  (forall audioBase64 mime,
     within 0 3 6000 any_completion (transcribeAudio svc audioBase64 mime)) /\
  (forall question transcript,
     within 0 3 6000 any_completion
            (evaluateInterviewAnswer P svc question transcript)).
Proof.
  repeat split.
  - intros ar prefs. unfold generatePortfolioHtml.
    apply (@within_bind _ _ 0 0 0 3 0 6000 any_completion);
      [apply within_lift; exact I | lia | | intros; exact I].
    intros profile _.
    apply (@within_try_catch _ 0 3 0 0 6000 0 any_completion);
      [| lia | intros; exact I | intros; apply within_ret; exact I].
    apply (@within_bind _ _ 0 3 0 0 6000 0 any_completion);
      [apply within_retry_default | lia
      | intros; apply within_ret; exact I | intros; exact I].
  - intros role. unfold generateInterviewTopics.
    apply (@within_try_catch _ 0 3 0 0 6000 0 any_completion);
      [| lia | intros; exact I | intros; apply within_ret; exact I].
    apply (@within_bind _ _ 0 3 0 0 6000 0 any_completion);
      [apply within_retry_default | lia | | intros; exact I].
    intros response _.
    apply (@within_bind _ _ 0 0 0 0 0 0 any_completion);
      [apply within_parse_json | lia | | intros; exact I].
    intros data _.
    apply (@within_bind _ _ 0 0 0 0 0 0 any_completion);
      [apply within_lift; exact I | lia
      | intros; apply within_ret; exact I | intros; exact I].
  - intros role topic. unfold generateInterviewQuestion.
    apply (@within_bind _ _ 0 3 0 0 6000 0 any_completion);
      [apply within_retry_default | lia
      | intros; apply within_parse_json | intros; exact I].
  - intros t. unfold generateSpeech.
    apply (@within_try_catch _ 0 3 0 0 6000 0 any_completion);
      [| lia | intros; exact I | intros; apply within_ret; exact I].
    apply (@within_bind _ _ 0 3 0 0 6000 0 any_completion);
      [apply within_retry_default | lia | | intros; exact I].
    intros response _.
    destruct (inlineData response) as [audioData|];
      [destruct (is_empty audioData)|]; apply within_ret; exact I.
  - intros audioBase64 mime. unfold transcribeAudio.
    apply (@within_try_catch _ 0 3 0 0 6000 0 any_completion);
      [| lia | intros; exact I | intros; apply within_ret; exact I].
    apply (@within_bind _ _ 0 3 0 0 6000 0 any_completion);
      [apply within_retry_default | lia
      | intros; apply within_ret; exact I | intros; exact I].
  - intros question transcript. unfold evaluateInterviewAnswer.
    apply (@within_bind _ _ 0 0 0 3 0 6000 any_completion);
      [apply within_lift; exact I | lia | | intros; exact I].
    intros question_text _.
    apply (@within_bind _ _ 0 0 0 3 0 6000 any_completion);
      [apply within_lift; exact I | lia | | intros; exact I].
    intros expected_keywords _.
    apply (@within_bind _ _ 0 0 0 3 0 6000 any_completion);
      [| lia | | intros; exact I].
    { destruct expected_keywords;
        first [apply within_ret | apply within_throw]; exact I. }
    intros keywords _.
    apply (@within_bind _ _ 0 3 0 0 6000 0 any_completion);
      [apply within_retry_default | lia
      | intros; apply within_parse_json | intros; exact I].
Qed.
(* ===================================================================== *)
(** * The candidate profile of the portfolio generator                    *)
(* ===================================================================== *)

Section ProfileFacts.

Lemma map_completion_length (f : JValue -> completion JValue) :
  forall l l', map_completion f l = Normal l' -> List.length l' = List.length l.
Proof.
  induction l as [|x l IH]; intros l' H; simpl in H.
  - inversion H. reflexivity.
  - destruct (f x) as [y|e]; [|discriminate H]. cbn [cbind] in H.
    destruct (map_completion f l) as [ys|e]; [|discriminate H].
    cbn [cbind] in H. inversion H. simpl. rewrite (IH ys); reflexivity.
Qed.

Lemma array_map_length (a : JValue) (f : JValue -> completion JValue)
      (l' : list JValue) :
  array_map a f = Normal l' ->
  exists elems props, a = JArr elems props /\ List.length l' = List.length elems.
Proof.
  destruct a; simpl; try discriminate.
  intros H. apply map_completion_length in H. eauto.
Qed.

Lemma or_default_truthy (a d v : JValue) :
  truthy d = true -> or_default a (Normal d) = Normal v -> truthy v = true.
Proof.
  unfold or_default. intros Hd H.
  destruct (truthy a) eqn:E; inversion H; subst; assumption.
Qed.

(** The only error the projection raises is a [TypeError]. *)
Lemma get_type_error (v : JValue) (k : jsstring) (e : JsError) :
  get v k = Thrown e -> e = TypeError.
Proof. destruct v; simpl; intros H; inversion H; reflexivity. Qed.

Lemma map_completion_type_error (f : JValue -> completion JValue) :
  (forall x e, f x = Thrown e -> e = TypeError) ->
  forall l e, map_completion f l = Thrown e -> e = TypeError.
Proof.
  intros Hf. induction l as [|x l IH]; intros e H; simpl in H;
    [discriminate H|].
  destruct (f x) as [y|e'] eqn:E; cbn [cbind] in H.
  - destruct (map_completion f l) as [ys|e'']; cbn [cbind] in H;
      [discriminate H|].
    inversion H; subst. apply IH. reflexivity.
  - inversion H; subst. eapply Hf. exact E.
Qed.

Lemma array_map_type_error (a : JValue) (f : JValue -> completion JValue) :
  (forall x e, f x = Thrown e -> e = TypeError) ->
  forall e, array_map a f = Thrown e -> e = TypeError.
Proof.
  intros Hf e. destruct a; simpl; intros H;
    try (inversion H; reflexivity).
  eapply map_completion_type_error; eauto.
Qed.

Lemma value_slice_type_error (a : JValue) (n : nat) (e : JsError) :
  value_slice a n = Thrown e -> e = TypeError.
Proof. destruct a; simpl; intros H; inversion H; reflexivity. Qed.

End ProfileFacts.

(** Case analysis along a chain of [<~]: every step that the hypothesis
    shows normal is named, every step that throws closes the goal with
    the lemmas on type errors. *)
Ltac profile_steps H :=
  repeat match type of H with
         | cbind ?c _ = _ =>
             let E := fresh "E" in
             destruct c eqn:E; cbn [cbind] in H
         end.

Ltac type_error_step H :=
  first [ discriminate H
        | inversion H; subst; clear H;
          solve [ eauto using get_type_error, value_slice_type_error ] ].

Lemma candidateProfile_type_error (analysisResult preferences : JValue)
      (e : JsError) :
  candidateProfile analysisResult preferences = Thrown e -> e = TypeError.
Proof.
  assert (Hget2 : forall (v : JValue) (k1 k2 : jsstring) e0,
            cbind (get v k1) (fun x => get x k2) = Thrown e0 -> e0 = TypeError).
  { intros v k1 k2 e0 H. destruct (get v k1) eqn:E; cbn [cbind] in H.
    - eapply get_type_error; eauto.
    - inversion H; subst. eapply get_type_error; eauto. }
  assert (Hor : forall (a : JValue) (b : completion JValue) e0,
            (forall e1, b = Thrown e1 -> e1 = TypeError) ->
            or_default a b = Thrown e0 -> e0 = TypeError).
  { intros a b e0 Hb H. unfold or_default in H.
    destruct (truthy a); [discriminate H | auto]. }
  assert (Hskills : forall area e0,
            cbind (get area (js "area"))
              (fun category =>
                 cbind (get area (js "skills"))
                   (fun skills =>
                      cbind (array_map skills (fun s => get s (js "name")))
                        (fun names =>
                           Normal (JObj [ (js "category", category);
                                          (js "skills", JArr names []) ]))))
            = Thrown e0 -> e0 = TypeError).
  { intros area e0 H. profile_steps H; try type_error_step H.
    inversion H; subst.
    eapply array_map_type_error; [|eassumption].
    intros x e1. apply get_type_error. }
  assert (Hproject : forall p e0,
            cbind (get p (js "name"))
              (fun n =>
                 cbind (get p (js "summary"))
                   (fun s =>
                      cbind (get p (js "tech_stack"))
                        (fun t =>
                           cbind (get p (js "resume_bullets"))
                             (fun b =>
                                Normal (JObj [ (js "name", n); (js "summary", s);
                                               (js "tech_stack", t);
                                               (js "highlight_bullets", b) ])))))
            = Thrown e0 -> e0 = TypeError).
  { intros p e0 H. profile_steps H; type_error_step H. }
  unfold candidateProfile. intros H.
  profile_steps H; try type_error_step H.
  all: inversion H; subst; clear H.
  all: match goal with
       | E : match ?x with JUndefined => _ | _ => _ end = Thrown _ |- _ =>
           destruct x;
           first [discriminate E | eapply get_type_error; eassumption]
       | E : match ?l with [] => _ | _ :: _ => _ end = Thrown _ |- _ =>
           destruct l; [|discriminate E]; profile_steps E; type_error_step E
       | E : array_map _ _ = Thrown _ |- _ =>
           eapply array_map_type_error; [|exact E]; assumption
       | E : or_default _ _ = Thrown _ |- _ =>
           eapply Hor; [|exact E]; intros;
           first [discriminate | eapply Hget2; eassumption]
       end.
Qed.

(** A projection that succeeds has mapped an array of projects. *)
Lemma candidateProfile_projects_array (analysisResult preferences profile : JValue) :
  candidateProfile analysisResult preferences = Normal profile ->
  exists elems props,
    get analysisResult (js "github_projects") = Normal (JArr elems props).
Proof.
  unfold candidateProfile. intros H.
  profile_steps H; try discriminate H.
  match goal with
  | E : array_map _ _ = Normal _ |- _ =>
      destruct (@array_map_length _ _ _ E) as (elems & props & -> & _);
      solve [eauto]
  end.
Qed.

(** X15. The portfolio generator throws only while it projects the
    candidate profile, before its handler is installed: what it throws
    is a [TypeError], and no model call has been made.  It does so
    whenever the analysis result has no array of projects. *)
Theorem generatePortfolioHtml_failure (svc : Services)
      (analysisResult preferences : JValue) (w : World) :
  (forall e w',
     generatePortfolioHtml svc analysisResult preferences w = (Thrown e, w') ->
     e = TypeError /\ w' = w /\
     candidateProfile analysisResult preferences = Thrown TypeError) /\
  ((forall elems props,
      get analysisResult (js "github_projects") <> Normal (JArr elems props)) ->
   generatePortfolioHtml svc analysisResult preferences w
   = (Thrown TypeError, w)).
Proof.
  unfold generatePortfolioHtml. rewrite bind_run, lift_run.
  destruct (candidateProfile analysisResult preferences) as [profile|e0] eqn:E.
  - split.
    + intros e w' H.
      match type of H with
      | try_catch ?c ?h w = _ =>
          destruct (@try_catch_default _ c portfolio_error w) as (a & w1 & Hn)
      end.
      rewrite Hn in H. discriminate H.
    + intros H. apply candidateProfile_projects_array in E.
      destruct E as (elems & props & E). exfalso. exact (H _ _ E).
  - apply candidateProfile_type_error in E. subst e0.
    split; [|reflexivity].
    intros e w' H. inversion H. auto.
Qed.

Lemma generatePortfolioHtml_failure_witness :
  generatePortfolioHtml (failing Examples.server_error)
    (JObj [ (js "text_summaries", JObj []);
            (js "jd_breakdown", JObj []);
            (js "competency_matrix", JArr [] []);
            (js "github_projects", JStr (js "none")) ])
    (JObj []) initial_world
  = (Thrown TypeError, initial_world).
Proof.
  apply (generatePortfolioHtml_failure (failing Examples.server_error)).
  intros elems props H. discriminate H.
Defined.

(** X16. Answer evaluation reads the expected keywords of the question
    before it calls the model: a question without an array of expected
    keywords makes it throw a [TypeError], and no model call is made. *)
Theorem evaluateInterviewAnswer_needs_keywords (P : Platform) (svc : Services)
      (question : JValue) (transcript : jsstring) (w : World) :
  (forall elems props,
     get question (js "expected_keywords") <> Normal (JArr elems props)) ->
  evaluateInterviewAnswer P svc question transcript w = (Thrown TypeError, w).
Proof.
  intros H. unfold evaluateInterviewAnswer.
  rewrite bind_run, lift_run.
  destruct (get question (js "question_text")) as [qt|e] eqn:Eq.
  - rewrite bind_run, lift_run.
    destruct (get question (js "expected_keywords")) as [kw|e] eqn:Ek.
    + destruct kw; try reflexivity.
      exfalso. eapply H. reflexivity.
    + apply get_type_error in Ek. subst e. reflexivity.
  - apply get_type_error in Eq. subst e. reflexivity.
Qed.

Lemma evaluateInterviewAnswer_needs_keywords_witness :
  evaluateInterviewAnswer Reference.platform (failing Examples.server_error)
    (JObj [ (js "question_text", JStr (js "Why?")) ]) (js "Because.")
    initial_world
  = (Thrown TypeError, initial_world).
Proof.
  apply evaluateInterviewAnswer_needs_keywords.
  intros elems props H. discriminate H.
Defined.

(** X17. The candidate profile handed to the portfolio designer, when
    its projection succeeds, has at most four skill categories (the
    first four areas of the competency matrix), at least one project
    (one for each analysed project, or the one placeholder project when
    there is none), and a name and a contact email that are never
    empty. *)
Theorem candidateProfile_shape (analysisResult preferences profile : JValue) :
  candidateProfile analysisResult preferences = Normal profile ->
  exists areas aprops repos rprops skills projects pname email,
    get analysisResult (js "competency_matrix") = Normal (JArr areas aprops) /\
    get analysisResult (js "github_projects") = Normal (JArr repos rprops) /\
    get profile (js "key_skills") = Normal (JArr skills []) /\
    List.length skills = Nat.min 4 (List.length areas) /\
    get profile (js "projects") = Normal (JArr projects []) /\
    List.length projects = Nat.max 1 (List.length repos) /\
    get profile (js "name") = Normal pname /\ truthy pname = true /\
    cbind (get profile (js "links")) (fun links => get links (js "email"))
      = Normal email /\
    truthy email = true.
Proof.
  unfold candidateProfile. intros H.
  profile_steps H; try discriminate H.
  match type of H with
  | Normal ?p = Normal _ =>
      assert (Hp : profile = p) by congruence; subst profile; clear H
  end.
  repeat match goal with
         | E : array_map ?a _ = Normal ?l |- _ =>
             let elems := fresh "elems" in
             let props := fresh "props" in
             let Hl := fresh "Hl" in
             destruct (@array_map_length _ _ _ E) as (elems & props & -> & Hl);
             clear E
         end.
  do 8 eexists.
  split; [reflexivity|]. split; [reflexivity|]. split; [reflexivity|].
  split; [rewrite length_firstn; lia|].
  split; [reflexivity|].
  split.
  { rewrite length_app.
    match goal with
    | Hp : match ?mapped with [] => _ | _ :: _ => _ end = Normal _ |- _ =>
        destruct mapped;
        [ profile_steps Hp; try discriminate Hp; inversion Hp
        | inversion Hp ]
    end; cbn [List.length Nat.add] in *; lia. }
  split; [reflexivity|].
  split; [eapply or_default_truthy; [|eassumption]; reflexivity|].
  split; [reflexivity|].
  eapply or_default_truthy; [|eassumption]. reflexivity.
Qed.

Lemma candidateProfile_shape_witness :
  exists profile,
    candidateProfile minimal_analysis (JObj []) = Normal profile /\
    exists areas aprops repos rprops skills projects pname email,
      get minimal_analysis (js "competency_matrix")
        = Normal (JArr areas aprops) /\
      get minimal_analysis (js "github_projects")
        = Normal (JArr repos rprops) /\
      get profile (js "key_skills") = Normal (JArr skills []) /\
      List.length skills = Nat.min 4 (List.length areas) /\
      get profile (js "projects") = Normal (JArr projects []) /\
      List.length projects = Nat.max 1 (List.length repos) /\
      get profile (js "name") = Normal pname /\ truthy pname = true /\
      cbind (get profile (js "links")) (fun links => get links (js "email"))
        = Normal email /\
      truthy email = true.
Proof.
  eexists. split; [reflexivity|].
  apply (@candidateProfile_shape minimal_analysis (JObj [])).
  reflexivity.
Defined.
(* ===================================================================== *)
(** * Responses without text                                              *)
(* ===================================================================== *)

Section EmptyResponses.

Lemma text_or_no_text (fallback : jsstring) (r : Response) :
  no_text r -> text_or fallback r = fallback.
Proof. unfold text_or. intros [H|H]; rewrite H; reflexivity. Qed.

Lemma bind_normal (A B : Type) (c : M A) (f : A -> M B) (a : A)
      (w w' : World) :
  c w = (Normal a, w') -> bind c f w = f a w'.
Proof. intros H. rewrite bind_run, H. reflexivity. Qed.

End EmptyResponses.

(** X18. A model response without text is not an error for the turn
    functions.  Topic generation yields the empty list, question
    generation and answer evaluation yield the empty object (a question
    without text, an evaluation without score), transcription yields
    the empty string, the portfolio generator yields the empty page, and
    speech synthesis yields null when the response has no audio. *)
Theorem empty_response_results (P : Platform) (svc : Services)
      (r : Response) (w w' : World) :
  JSON_parse P (js "{}") = Some (JObj []) ->
  (forall role,
     no_text r ->
     generateContentWithRetry_default svc
       (json_request (js "gemini-3-pro-preview")
          [TextPart (TopicsPrompt role)] INTERVIEW_TOPICS_SCHEMA) w
       = (Normal r, w') ->
     generateInterviewTopics P svc role w = (Normal (JArr [] []), w')) /\
  (forall role topic,
     no_text r ->
     generateContentWithRetry_default svc
       (json_request (js "gemini-3-pro-preview")
          [TextPart (QuestionPrompt role topic)] INTERVIEW_QUESTION_SCHEMA) w
       = (Normal r, w') ->
     generateInterviewQuestion P svc role topic w = (Normal (JObj []), w')) /\
  (forall question transcript question_text elems props,
     no_text r ->
     get question (js "question_text") = Normal question_text ->
     get question (js "expected_keywords") = Normal (JArr elems props) ->
     generateContentWithRetry_default svc
       (json_request (js "gemini-3-pro-preview")
          [TextPart (EvaluationPrompt (ToString P question_text)
                                      (join_elements P (js ", ") elems)
                                      transcript)]
          INTERVIEW_EVALUATION_SCHEMA) w
       = (Normal r, w') ->
     evaluateInterviewAnswer P svc question transcript w
     = (Normal (JObj []), w')) /\
  (forall audioBase64 mime,
     no_text r ->
     generateContentWithRetry_default svc
       (plain_request (js "gemini-2.5-flash")
          [ InlinePart {| data := audioBase64; mimeType := mime |};
            TextPart TranscribePrompt ]) w
       = (Normal r, w') ->
     transcribeAudio svc audioBase64 mime w = (Normal [], w')) /\
  (forall analysisResult preferences profile,
     no_text r ->
     candidateProfile analysisResult preferences = Normal profile ->
     generateContentWithRetry_default svc
       (plain_request (js "gemini-3-pro-preview")
          [TextPart (PortfolioPrompt profile preferences)]) w
       = (Normal r, w') ->
     generatePortfolioHtml svc analysisResult preferences w
     = (Normal [], w')) /\
  (forall t,
     no_audio r ->
     generateContentWithRetry_default svc (speech_request t) w
       = (Normal r, w') ->
     generateSpeech svc t w = (Normal None, w')).
Proof.
  intros Hparse.
  assert (Hclean : cleanJson (js "{}") = js "{}") by reflexivity.
  split; [|split; [|split; [|split; [|split]]]].
  - intros role Hr Hcall. unfold generateInterviewTopics.
    rewrite try_catch_run, (@bind_normal _ _ _ _ _ _ _ Hcall).
    rewrite (@text_or_no_text _ _ Hr), Hclean.
    unfold parse_json. rewrite Hparse. reflexivity.
  - intros role topic Hr Hcall. unfold generateInterviewQuestion.
    rewrite (@bind_normal _ _ _ _ _ _ _ Hcall).
    rewrite (@text_or_no_text _ _ Hr), Hclean.
    unfold parse_json. rewrite Hparse. reflexivity.
  - intros question transcript qt elems props Hr Hq Hk Hcall.
    unfold evaluateInterviewAnswer.
    rewrite bind_run, lift_run, Hq. rewrite bind_run, lift_run, Hk.
    rewrite bind_run, ret_run. rewrite (@bind_normal _ _ _ _ _ _ _ Hcall).
    rewrite (@text_or_no_text _ _ Hr), Hclean.
    unfold parse_json. rewrite Hparse. reflexivity.
  - intros audioBase64 mime Hr Hcall. unfold transcribeAudio.
    rewrite try_catch_run, (@bind_normal _ _ _ _ _ _ _ Hcall).
    rewrite (@text_or_no_text _ _ Hr). reflexivity.
  - intros ar prefs profile Hr Hp Hcall. unfold generatePortfolioHtml.
    rewrite bind_run, lift_run, Hp.
    rewrite try_catch_run, (@bind_normal _ _ _ _ _ _ _ Hcall).
    rewrite (@text_or_no_text _ _ Hr). reflexivity.
  - intros t Hr Hcall. unfold generateSpeech.
    rewrite try_catch_run, (@bind_normal _ _ _ _ _ _ _ Hcall).
    destruct Hr as [Hr|Hr]; rewrite Hr; reflexivity.
Qed.

Lemma empty_response_results_witness :
  generateInterviewQuestion Reference.platform (flaky 0 empty_response)
    (js "Engineer") (js "Testing") initial_world
  = (Normal (JObj []),
     {| gen_calls := 1;
        trace := [ EvGenerate
                     (json_request (js "gemini-3-pro-preview")
                        [TextPart (QuestionPrompt (js "Engineer") (js "Testing"))]
                        INTERVIEW_QUESTION_SCHEMA) ] |}).
Proof.
  pose proof (@empty_response_results Reference.platform
                (flaky 0 empty_response) empty_response initial_world
                {| gen_calls := 1;
                   trace := [ EvGenerate
                     (json_request (js "gemini-3-pro-preview")
                        [TextPart (QuestionPrompt (js "Engineer") (js "Testing"))]
                        INTERVIEW_QUESTION_SCHEMA) ] |}
                eq_refl) as (_ & Hq & _).
  apply Hq; [left; reflexivity | reflexivity].
Defined.
(* ===================================================================== *)
(** * The callers of the service                                          *)
(* ===================================================================== *)

Import Callers.

(** X19. Once the portfolio generation started from the dashboard has
    settled, the generating flag is off.  When the generator returns a
    page, the dashboard stores it, shows the toast that announces
    success and sets one timer, of five seconds, that hides the toast.
    This is so also when the model call has failed: the page stored is
    then the fixed error comment.  When the projection of the candidate
    profile throws, the page and the toast stay as they were, no timer
    is set and no model call has been made. *)
Theorem handleGeneratePortfolio_outcome (svc : Services)
      (data portfolioPreferences : JValue) (d : Dashboard) (w : World) :
  exists d' timers w',
    handleGeneratePortfolio svc data portfolioPreferences d w
    = (d', timers, w') /\
    isGeneratingPortfolio d' = false /\
    (forall html w1,
       generatePortfolioHtml svc data portfolioPreferences w
       = (Normal html, w1) ->
       d' = {| portfolioHtml := html; isGeneratingPortfolio := false;
               showToast := true |} /\
       List.map fst timers = [5000%Z] /\
       Forall (fun t => snd t d'
                        = {| portfolioHtml := html;
                             isGeneratingPortfolio := false;
                             showToast := false |}) timers /\
       w' = w1) /\
    (forall profile e w1,
       candidateProfile data portfolioPreferences = Normal profile ->
       generateContentWithRetry_default svc
         (plain_request (js "gemini-3-pro-preview")
            [TextPart (PortfolioPrompt profile portfolioPreferences)]) w
       = (Thrown e, w1) ->
       portfolioHtml d' = portfolio_error /\ showToast d' = true /\ w' = w1) /\
    (forall e,
       candidateProfile data portfolioPreferences = Thrown e ->
       d' = {| portfolioHtml := portfolioHtml d;
               isGeneratingPortfolio := false;
               showToast := showToast d |} /\
       timers = [] /\ w' = w).
Proof.
  unfold handleGeneratePortfolio.
  destruct (generatePortfolioHtml svc data portfolioPreferences w)
    as [[html|e] w1] eqn:Hrun.
  - do 3 eexists. split; [reflexivity|]. split; [reflexivity|].
    split; [|split].
    + intros html' w2 H. inversion H; subst.
      split; [reflexivity|]. split; [reflexivity|].
      split; [repeat constructor | reflexivity].
    + intros profile e w2 Hp Hcall.
      unfold generatePortfolioHtml in Hrun.
      rewrite bind_run, lift_run, Hp in Hrun.
      rewrite (@try_catch_fallback _ _ portfolio_error e w w2) in Hrun
        by (apply bind_thrown; exact Hcall).
      inversion Hrun; subst. auto.
    + intros e Hp. unfold generatePortfolioHtml in Hrun.
      rewrite bind_run, lift_run, Hp in Hrun. discriminate Hrun.
  - do 3 eexists. split; [reflexivity|]. split; [reflexivity|].
    split; [intros html w2 H; discriminate H|]. split.
    + intros profile e' w2 Hp Hcall.
      unfold generatePortfolioHtml in Hrun.
      rewrite bind_run, lift_run, Hp in Hrun.
      rewrite (@try_catch_fallback _ _ portfolio_error e' w w2) in Hrun
        by (apply bind_thrown; exact Hcall).
      discriminate Hrun.
    + intros e' Hp. unfold generatePortfolioHtml in Hrun.
      rewrite bind_run, lift_run, Hp in Hrun. inversion Hrun; subst.
      auto.
Qed.

(** X20. The callback that processes a recorded answer.  When the
    transcription comes back empty, as it does whenever its model call
    fails, the callback completes, the coach shows the results with
    the transcript "Audio unintelligible or empty.", and no evaluation
    is requested.  When there is a question and a transcript, the
    callback evaluates the answer; if the evaluation throws, the
    callback throws the same error, having stored the transcript, and
    the coach stays in the state it was in. *)
Theorem processAnswer_onloadend_outcome (P : Platform) (svc : Services)
      (base64Data blob_type : jsstring) (c : Coach) (w : World) :
  let mimeType := if is_empty blob_type then js "audio/webm" else blob_type in
  (forall w1,
     transcribeAudio svc base64Data mimeType w = (Normal [], w1) ->
     processAnswer_onloadend P svc base64Data blob_type c w
     = (Normal tt,
        {| currentState := results; questionData := questionData c;
           transcript := unintelligible; evaluation := evaluation c |},
        w1)) /\
  (forall e w1,
     generateContentWithRetry_default svc
       (plain_request (js "gemini-2.5-flash")
          [ InlinePart {| data := base64Data; mimeType := mimeType |};
            TextPart TranscribePrompt ]) w
     = (Thrown e, w1) ->
     processAnswer_onloadend P svc base64Data blob_type c w
     = (Normal tt,
        {| currentState := results; questionData := questionData c;
           transcript := unintelligible; evaluation := evaluation c |},
        w1)) /\
  (forall finalTranscript w1 e w2,
     transcribeAudio svc base64Data mimeType w = (Normal finalTranscript, w1) ->
     finalTranscript <> [] ->
     truthy (questionData c) = true ->
     evaluateInterviewAnswer P svc (questionData c) finalTranscript w1
     = (Thrown e, w2) ->
     processAnswer_onloadend P svc base64Data blob_type c w
     = (Thrown e,
        {| currentState := currentState c; questionData := questionData c;
           transcript := finalTranscript; evaluation := evaluation c |},
        w2)) /\
  (forall a c' w',
     processAnswer_onloadend P svc base64Data blob_type c w
     = (Normal a, c', w') ->
     currentState c' = results).
Proof.
  intros mimeType. unfold processAnswer_onloadend. fold mimeType.
  split; [|split; [|split]].
  - intros w1 H. rewrite H. rewrite andb_false_r. reflexivity.
  - intros e w1 H.
    assert (Ht : transcribeAudio svc base64Data mimeType w = (Normal [], w1)).
    { unfold transcribeAudio. apply try_catch_fallback with (e := e).
      apply bind_thrown. exact H. }
    rewrite Ht. rewrite andb_false_r. reflexivity.
  - intros ft w1 e w2 Ht Hne Hq He. rewrite Ht, Hq.
    destruct ft as [|ch ft]; [contradiction|]. cbn [is_empty negb andb].
    rewrite He. reflexivity.
  - intros a c' w' H.
    destruct (transcribeAudio svc base64Data mimeType w) as [[ft|e] w1];
      [|discriminate H].
    destruct (truthy (questionData c) && negb (is_empty ft)).
    + destruct (evaluateInterviewAnswer P svc (questionData c) ft w1)
        as [[ev|e] w2]; [|discriminate H].
      inversion H. reflexivity.
    + inversion H. reflexivity.
Qed.

Lemma processAnswer_onloadend_outcome_witness :
  processAnswer_onloadend Reference.platform (failing Examples.server_error)
    (js "AAAA") [] 
    {| currentState := processing; questionData := JNull;
       transcript := []; evaluation := JNull |}
    initial_world
  = (Normal tt,
     {| currentState := results; questionData := JNull;
        transcript := unintelligible; evaluation := JNull |},
     {| gen_calls := 1;
        trace := [ EvGenerate
                     (plain_request (js "gemini-2.5-flash")
                        [ InlinePart {| data := js "AAAA";
                                        mimeType := js "audio/webm" |};
                          TextPart TranscribePrompt ]) ] |}).
Proof.
  pose proof (processAnswer_onloadend_outcome Reference.platform
                (failing Examples.server_error) (js "AAAA") []
                {| currentState := processing; questionData := JNull;
                   transcript := []; evaluation := JNull |}
                initial_world) as (_ & H & _).
  apply (H Examples.server_error). reflexivity.
Defined.
